(** * PokerLeaderboard: the CSV aggregation engine of [src/lib/csv-processor.ts]

    A shallow embedding of [parseCsvContent], of the normalisation step of
    [loadAllSessions], of [calculatePlayerTotals] and of [generateChartData],
    followed by the properties the specification states about them.

    Modelling conventions.
    - A JavaScript string is a [string]: a sequence of code units below 256.
      [String.prototype.trim] removes the ECMAScript white space and line
      terminators of that range (TAB, LF, VT, FF, CR, SP, NBSP).
    - A JavaScript [number] is an element of a [Number] structure: the
      operations the code uses and nothing else.  Two instances are given:
      [ExactNumber] (the integers with a NaN, where [+] is exact) and
      [FloatNumber] (IEEE 754 binary64, what the code runs on).  A property
      that needs the comparator to follow an order says so through
      [OrderLaws]; a property that needs sums without rounding says so
      through [SafeIntegers], which reads numbers as integers up to
      [Number.MAX_SAFE_INTEGER].  Both instances are proved to satisfy both,
      binary64 from the specification of its operations.
    - A JavaScript object used as a dictionary is a [JsObject.t]: its own
      properties in enumeration order (canonical array indices ascending, then
      the other keys in insertion order).  Enumerations and the spread see
      the own properties only.  A read [o[k]] also finds the properties
      inherited from [Object.prototype]; the one read of the code that can
      meet them, [playerTotals[playerName]], is embedded with them
      ([JsObject.inherited]).  An assignment [o[k] = v] creates or updates
      an own property for every [k] but [__proto__], for which it changes
      the prototype of [o] instead: the embedding stores an entry for that
      name too, and the properties about the keys of a normalised session
      exclude a column of that name.
    - [Array.prototype.sort] is embedded as a stable insertion sort.  This
      is the order ECMAScript prescribes where the comparator is consistent;
      for a comparator that answers NaN the standard leaves the order to the
      engine, and the properties about a sorted order exclude that case
      ([neverNaN]): in binary64 a comparator [b - a] that never answers NaN
      is consistent ([binary64_comparator_consistent]).
    - [throw] is the [Throw] constructor of [Result].
    - [loadAllSessions] fetches its files and is asynchronous; its pure step,
      which builds a [SessionData] from a parsed table, is embedded as
      [normalize].  The loop itself is embedded over the world it runs in:
      the network is a function from a URL to the outcome of [fetch] and
      [response.text()], [String.prototype.localeCompare] is a parameter, and
      the console is the list of the lines written to it.
    - Of the [PokerLeaderboard] component, the computations are embedded:
      the chart configuration, the lines drawn from it and the per-session
      totals of the history; rendering, dates and number formatting are
      not.  *)

From Stdlib Require Import List String Ascii Bool Arith NArith ZArith Lia.
From Stdlib Require Import Permutation Sorted DecimalString.
From Stdlib Require Import Floats.PrimFloat.
From Stdlib Require Floats.SpecFloat Floats.FloatOps Floats.FloatAxioms.
Import ListNotations.

Local Open Scope string_scope.
Local Open Scope list_scope.

(** ** Strings *)

Module Str.

Definition LF : ascii := Ascii.ascii_of_nat 10.
Definition comma : ascii := ","%char.

(** White space and line terminators below code unit 256. *)
Definition isWhiteSpace (c : ascii) : bool :=
  let n := Ascii.nat_of_ascii c in
  ((9 <=? n)%nat && (n <=? 13)%nat) || (n =? 32)%nat || (n =? 160)%nat.

Definition isDigit (c : ascii) : bool :=
  let n := Ascii.nat_of_ascii c in (48 <=? n)%nat && (n <=? 57)%nat.

Definition isEmpty (s : string) : bool :=
  match s with EmptyString => true | String _ _ => false end.

Fixpoint trimStart (s : string) : string :=
  match s with
  | EmptyString => EmptyString
  | String c r => if isWhiteSpace c then trimStart r else s
  end.

Fixpoint trimEnd (s : string) : string :=
  match s with
  | EmptyString => EmptyString
  | String c r =>
      let t := trimEnd r in
      if isWhiteSpace c && isEmpty t then EmptyString else String c t
  end.

(** [s.trim()] *)
Definition trim (s : string) : string := trimStart (trimEnd s).

(** [s.split(sep)] for a one-character separator: never the empty list. *)
Fixpoint split (sep : ascii) (s : string) : list string :=
  match s with
  | EmptyString => [EmptyString]
  | String c r =>
      if Ascii.eqb c sep then EmptyString :: split sep r
      else match split sep r with
           | [] => [String c EmptyString]
           | h :: t => String c h :: t
           end
  end.

(** Decimal rendering of a template-literal integer. *)
Definition ofNat (n : nat) : string :=
  NilEmpty.string_of_uint (Nat.to_uint n).

End Str.

(** ** Numbers *)

Class Number : Type := {
  num : Type;
  zero : num;                 (* the literal 0 *)
  nan : num;                  (* NaN, as in [x + undefined] *)
  add : num -> num -> num;    (* a + b *)
  sub : num -> num -> num;    (* a - b *)
  ltb : num -> num -> bool;   (* a < b *)
  ofNat : nat -> num          (* a loop counter as a number *)
}.

(** The comparator [b - a] orders as [<] does, and [<] is a strict order. *)
Class OrderLaws (N : Number) : Prop := {
  sub_ltb : forall a b : num, ltb (sub b a) zero = ltb b a;
  ltb_irrefl : forall a : num, ltb a a = false;
  ltb_trans : forall a b c : num, ltb a b = true -> ltb b c = true -> ltb a c = true
}.

(** Integers extended with NaN. *)
Inductive znum : Type := Fin (z : Z) | NaN.

Definition znum_add (a b : znum) : znum :=
  match a, b with Fin x, Fin y => Fin (x + y) | _, _ => NaN end.
Definition znum_sub (a b : znum) : znum :=
  match a, b with Fin x, Fin y => Fin (x - y) | _, _ => NaN end.
Definition znum_ltb (a b : znum) : bool :=
  match a, b with Fin x, Fin y => Z.ltb x y | _, _ => false end.

Definition ExactNumber : Number := {|
  num := znum;
  zero := Fin 0;
  nan := NaN;
  add := znum_add;
  sub := znum_sub;
  ltb := znum_ltb;
  ofNat := fun n => Fin (Z.of_nat n)
|}.

(** IEEE 754 binary64 with round-to-nearest-even, the arithmetic of a
    JavaScript engine. *)
Definition FloatNumber : Number := {|
  num := float;
  zero := PrimFloat.zero;
  nan := PrimFloat.nan;
  add := PrimFloat.add;
  sub := PrimFloat.sub;
  ltb := PrimFloat.ltb;
  ofNat := fun n => Nat.iter n (fun x => PrimFloat.add x PrimFloat.one) PrimFloat.zero
|}.

(** A reading of the numbers as integers: the bound up to which integers are
    safe, the number of an integer and the integer of a number. *)
Record IntegerView (N : Number) : Type := {
  maxSafe : Z;
  ofInt : Z -> num;
  toInt : num -> Z
}.
Arguments maxSafe {N} _.
Arguments ofInt {N} _ _.
Arguments toInt {N} _ _.

(** Up to the bound the integers are numbers, distinct ones for distinct
    integers, and the sum of two of them is exact when it is within the bound
    too. *)
Class SafeIntegers (N : Number) (V : IntegerView N) : Prop := {
  ofInt_zero : ofInt V 0 = zero;
  toInt_ofInt : forall z : Z, (Z.abs z <= maxSafe V)%Z -> toInt V (ofInt V z) = z;
  add_ofInt : forall a b : Z,
    (Z.abs a <= maxSafe V)%Z -> (Z.abs b <= maxSafe V)%Z ->
    (Z.abs (a + b) <= maxSafe V)%Z ->
    add (ofInt V a) (ofInt V b) = ofInt V (a + b)%Z
}.

(** [Number.MAX_SAFE_INTEGER], 2^53 - 1. *)
Definition maxSafeInteger : Z := 9007199254740991.

Definition ExactView : IntegerView ExactNumber :=
  @Build_IntegerView ExactNumber maxSafeInteger Fin
    (fun x => match x with Fin z => z | NaN => 0%Z end).




(** Auxiliaries of the proofs about binary64: a mantissa shifted left, the
    binary64 number nearest to an integer, and the rank of a number in the
    order of the format. *)
Module Binary64.



Section Rank.
Import SpecFloat.
Local Open Scope Z_scope.

(** The rank of a number that is not NaN: its value in units of the least
    positive number, the infinities beyond the finite numbers. *)
Definition rank (x : spec_float) : Z :=
  match x with
  | S754_zero _ => 0
  | S754_infinity s => cond_Zopp s (2 ^ 2098)
  | S754_nan => 0
  | S754_finite s m e => cond_Zopp s (Zpos m * 2 ^ (e + 1074))
  end.

Definition isNaN (x : spec_float) : bool :=
  match x with S754_nan => true | _ => false end.

End Rank.

End Binary64.

(** ** Exceptions *)

Inductive Result (E A : Type) : Type :=
| Ok (a : A)
| Throw (e : E).
Arguments Ok {E A} a.
Arguments Throw {E A} e.

Definition bind {E A B} (r : Result E A) (k : A -> Result E B) : Result E B :=
  match r with Ok a => k a | Throw e => Throw e end.

(** [xs.map(f)] where [f] may throw: the first exception wins. *)
Fixpoint mapM {E A B} (f : A -> Result E B) (xs : list A) : Result E (list B) :=
  match xs with
  | [] => Ok []
  | x :: r => bind (f x) (fun y => bind (mapM f r) (fun ys => Ok (y :: ys)))
  end.

(** ** Objects used as dictionaries *)

Module JsObject.

(** The value of [k] when [k] is a canonical array index: a decimal numeral
    with no leading zero, at most 2^32 - 2. *)
Fixpoint digitsValue (s : string) (acc : N) : option N :=
  match s with
  | EmptyString => Some acc
  | String c r =>
      if Str.isDigit c
      then digitsValue r (10 * acc + (Ascii.N_of_ascii c - 48))%N
      else None
  end.

Definition arrayIndex (k : string) : option N :=
  match k with
  | EmptyString => None
  | String c r =>
      if Ascii.eqb c "0"%char && negb (Str.isEmpty r) then None
      else match digitsValue k 0%N with
           | Some n => if (n <=? 4294967294)%N then Some n else None
           | None => None
           end
  end.

Definition isArrayIndex (k : string) : bool :=
  match arrayIndex k with Some _ => true | None => false end.

Fixpoint memb (k : string) (l : list string) : bool :=
  match l with
  | [] => false
  | x :: r => String.eqb x k || memb k r
  end.

Fixpoint nodupb (l : list string) : bool :=
  match l with
  | [] => true
  | x :: r => negb (memb x r) && nodupb r
  end.

(** The property names that every object inherits from [Object.prototype]. *)
Definition objectPrototypeNames : list string :=
  ["constructor"; "__defineGetter__"; "__defineSetter__"; "hasOwnProperty";
   "__lookupGetter__"; "__lookupSetter__"; "isPrototypeOf"; "propertyIsEnumerable";
   "toString"; "valueOf"; "__proto__"; "toLocaleString"].

(** [k] names a property of [Object.prototype]: on an object without an own
    property [k], the read [o[k]] finds that property, a function or an
    object, which is truthy. *)
Definition inherited (k : string) : bool := memb k objectPrototypeNames.
Definition notInherited (k : string) : bool := negb (inherited k).

(** Where an enumeration of keys stands: before any key, after the array
    index [m], or after a key that is no array index. *)
Inductive phase : Type := AtStart | AfterIndex (m : N) | AfterName.

(** Indices first, in strictly ascending order; then the other keys. *)
Fixpoint orderedb (p : phase) (l : list string) : bool :=
  match l with
  | [] => true
  | x :: r =>
      match arrayIndex x, p with
      | Some n, AtStart => orderedb (AfterIndex n) r
      | Some n, AfterIndex m => (m <? n)%N && orderedb (AfterIndex n) r
      | Some _, AfterName => false
      | None, _ => orderedb AfterName r
      end
  end.

(** The representation invariant of an object's key enumeration. *)
Definition wellFormedKeys (l : list string) : bool :=
  nodupb l && orderedb AtStart l.

Section Dictionary.
Context {V : Type}.

(** Own properties, in the order [Object.keys] enumerates them. *)
Definition t : Type := list (string * V).

Definition empty : t := [].
Definition keys (o : t) : list string := map fst o.
Definition values (o : t) : list V := map snd o.
Definition entries (o : t) : list (string * V) := o.

(** [o[k]]: [None] is [undefined]. *)
Fixpoint get (k : string) (o : t) : option V :=
  match o with
  | [] => None
  | (k', v) :: r => if String.eqb k' k then Some v else get k r
  end.

Definition has (k : string) (o : t) : bool :=
  match get k o with Some _ => true | None => false end.

(** Assignment to an existing property keeps its place. *)
Fixpoint replace (k : string) (v : V) (o : t) : t :=
  match o with
  | [] => []
  | (k', v') :: r =>
      if String.eqb k' k then (k, v) :: r else (k', v') :: replace k v r
  end.

(** A new array index goes among the indices, in ascending order. *)
Fixpoint insertIndex (n : N) (k : string) (v : V) (o : t) : t :=
  match o with
  | [] => [(k, v)]
  | (k', v') :: r =>
      match arrayIndex k' with
      | Some m => if (m <? n)%N then (k', v') :: insertIndex n k v r
                  else (k, v) :: o
      | None => (k, v) :: o
      end
  end.

(** [o[k] = v] *)
Definition set (k : string) (v : V) (o : t) : t :=
  if has k o then replace k v o
  else match arrayIndex k with
       | Some n => insertIndex n k v o
       | None => o ++ [(k, v)]
       end.

(** In-place mutation of the object stored under [k]. *)
Fixpoint modify (k : string) (f : V -> V) (o : t) : t :=
  match o with
  | [] => []
  | (k', v) :: r =>
      if String.eqb k' k then (k', f v) :: r else (k', v) :: modify k f r
  end.

Definition wellFormed (o : t) : bool := wellFormedKeys (keys o).

End Dictionary.
Arguments t V : clear implicits.
End JsObject.

(** ** The interfaces of [csv-processor.ts] *)

Section CsvProcessor.
Context {N : Number}.

Record SessionData : Type := {
  sessionName : string;
  date : string;
  players : list string;
  results : JsObject.t (list num)
}.

Record PlayerTotal : Type := {
  name : string;
  total : num;
  sessions : nat;
  lastSession : string
}.

(** A property of a [ChartDataPoint] holds a string or a number. *)
Inductive value : Type :=
| VString (s : string)
| VNumber (n : num).

(** [date], [sessionName], [round] and one property per player, in one
    object. *)
Definition ChartDataPoint : Type := JsObject.t value.

(** ** [parseCsvContent] *)

Inductive ParseError : Type :=
| TooFewLines
| InvalidNumber (field : string) (row : nat)
| RowLength (row : nat) (found expected : nat).

Definition quote : string := String (Ascii.ascii_of_nat 34) EmptyString.

(** The text of the thrown [Error]. *)
Definition message (e : ParseError) : string :=
  match e with
  | TooFewLines => "CSV must have at least a header and one data row"
  | InvalidNumber field row =>
      "Invalid number " ++ quote ++ field ++ quote ++ " in row " ++ Str.ofNat row
  | RowLength row found expected =>
      "Row " ++ Str.ofNat row ++ " has " ++ Str.ofNat found
      ++ " values but expected " ++ Str.ofNat expected
  end.

(** The row an error message names, when it names one. *)
Definition errorRow (e : ParseError) : option nat :=
  match e with
  | TooFewLines => None
  | InvalidNumber _ row => Some row
  | RowLength row _ _ => Some row
  end.

(** Some prefix of [s] is a [StrDecimalLiteral]: after an optional sign comes
    [Infinity], a digit, or a dot and a digit.  [parseFloat] is NaN exactly
    when its trimmed argument has no such prefix. *)
Definition hasDecimalPrefix (s : string) : bool :=
  let u := match s with
           | String c r =>
               if Ascii.eqb c "+"%char || Ascii.eqb c "-"%char then r else s
           | EmptyString => s
           end in
  String.prefix "Infinity" u
  || match u with
     | String c r =>
         Str.isDigit c
         || (Ascii.eqb c "."%char
             && match r with String d _ => Str.isDigit d | EmptyString => false end)
     | EmptyString => false
     end.

(** The number a string with a decimal prefix denotes (the built-in's
    conversion of the longest such prefix). *)
Variable numberValue : string -> num.

(** [parseFloat(s)]: [None] is NaN. *)
Definition parseFloat (s : string) : option num :=
  let t := Str.trimStart s in
  if hasDecimalPrefix t then Some (numberValue t) else None.

Definition nonBlank (line : string) : bool := negb (Str.isEmpty (Str.trim line)).

(** The callback of [line.split(',').map(...)] in row [i]. *)
Definition parseValue (i : nat) (val : string) : Result ParseError num :=
  match parseFloat (Str.trim val) with
  | None => Throw (InvalidNumber (Str.trim val) (i + 1))
  | Some parsed => Ok parsed
  end.

(** The [for] loop from index [i] on, [rest] being [lines[i..]]. *)
Fixpoint parseRows (players : list string) (i : nat) (rest : list string)
    (results : list (list num)) : Result ParseError (list (list num)) :=
  match rest with
  | [] => Ok results
  | l :: rest' =>
      let line := Str.trim l in
      if Str.isEmpty line then parseRows players (S i) rest' results
      else
        bind (mapM (parseValue i) (Str.split Str.comma line)) (fun values =>
        if Nat.eqb (List.length values) (List.length players)
        then parseRows players (S i) rest' (results ++ [values])
        else Throw (RowLength (i + 1) (List.length values) (List.length players)))
  end.

Definition parseCsvContent (content : string)
    : Result ParseError (list string * list (list num)) :=
  let lines := filter nonBlank (Str.split Str.LF (Str.trim content)) in
  if (List.length lines <? 2)%nat then Throw TooFewLines
  else
    let players := map Str.trim (Str.split Str.comma (hd EmptyString lines)) in
    bind (parseRows players 1 (tl lines) []) (fun results =>
    Ok (players, results)).

(** ** Normalisation, from the body of [loadAllSessions] *)

(** [results.map(round => round[playerIndex])]; a missing cell is
    [undefined], which every later sum turns into NaN. *)
Definition column (playerIndex : nat) (results : list (list num)) : list num :=
  map (fun round => nth playerIndex round nan) results.

(** The [players.forEach] that fills [sessionData.results].  For a column
    named [__proto__] the assignment of the source sets the prototype of
    [results] and creates no property, while [JsObject.set] stores an entry:
    the two agree on every header without that name. *)
Fixpoint fillResults (players : list string) (playerIndex : nat)
    (table : list (list num)) (acc : JsObject.t (list num)) : JsObject.t (list num) :=
  match players with
  | [] => acc
  | player :: rest =>
      fillResults rest (S playerIndex) table
        (JsObject.set player (column playerIndex table) acc)
  end.

Definition normalize (sessionName0 : string) (players0 : list string)
    (table : list (list num)) : SessionData :=
  {| sessionName := sessionName0;
     date := sessionName0;
     players := players0;
     results := fillResults players0 0 table JsObject.empty |}.

(** ** [calculatePlayerTotals] *)

(** [xs.sort(compareFn)]: a stable sort; [x] goes before the first [y] with
    [compareFn(x, y) < 0].  Where [compareFn] is consistent, which requires
    that it never answers NaN, this is the order ECMAScript prescribes;
    elsewhere the standard leaves the order to the engine, and this
    definition does not tell it. *)
Fixpoint insertSorted {A} (compareFn : A -> A -> num) (x : A) (l : list A) : list A :=
  match l with
  | [] => [x]
  | y :: r =>
      if ltb (compareFn x y) zero then x :: y :: r
      else y :: insertSorted compareFn x r
  end.

Definition sort {A} (compareFn : A -> A -> num) (l : list A) : list A :=
  fold_left (fun acc x => insertSorted compareFn x acc) l [].

(** The record created at a player's first appearance. *)
Definition newRecord (playerName : string) (session : SessionData) : PlayerTotal :=
  {| name := playerName; total := zero; sessions := 0; lastSession := date session |}.

(** The three updates of a player's record, in the order of the source:
    [total += sessionTotal], [sessions += 1], and [lastSession = session.date]
    when [session.date > lastSession]. *)
Definition creditSession (session : SessionData) (sessionTotal : num)
    (r : PlayerTotal) : PlayerTotal :=
  let r1 := {| name := name r; total := add (total r) sessionTotal;
               sessions := sessions r; lastSession := lastSession r |} in
  let r2 := {| name := name r1; total := total r1;
               sessions := sessions r1 + 1; lastSession := lastSession r1 |} in
  if String.ltb (lastSession r2) (date session)
  then {| name := name r2; total := total r2;
          sessions := sessions r2; lastSession := date session |}
  else r2.

(** The body of the inner [forEach].  The test [!playerTotals[playerName]]
    and the three updates read [playerTotals[playerName]] through the
    prototype: for a name that [Object.prototype] defines and the dictionary
    does not hold, the value read is that function or object, which is truthy,
    so that no record is created, and the updates write to that function or
    object and leave the dictionary as it is. *)
Definition addEntry (session : SessionData) (playerTotals : JsObject.t PlayerTotal)
    (entry : string * list num) : JsObject.t PlayerTotal :=
  let '(playerName, balanceChanges) := entry in
  let sessionTotal := fold_left (fun sum value => add sum value) balanceChanges zero in
  if JsObject.has playerName playerTotals
  then JsObject.modify playerName (creditSession session sessionTotal) playerTotals
  else if JsObject.inherited playerName
  then playerTotals
  else JsObject.modify playerName (creditSession session sessionTotal)
         (JsObject.set playerName (newRecord playerName session) playerTotals).

Definition addSession (playerTotals : JsObject.t PlayerTotal) (session : SessionData)
    : JsObject.t PlayerTotal :=
  fold_left (addEntry session) (JsObject.entries (results session)) playerTotals.

Definition playerTotalsOf (sessions0 : list SessionData) : JsObject.t PlayerTotal :=
  fold_left addSession sessions0 JsObject.empty.

Definition calculatePlayerTotals (sessions0 : list SessionData) : list PlayerTotal :=
  sort (fun a b => sub (total b) (total a))
       (JsObject.values (playerTotalsOf sessions0)).

(** ** [generateChartData] *)

(** [allPlayers.add(playerName)] on a [Set], which keeps insertion order. *)
Definition setAdd (playerName : string) (allPlayers : list string) : list string :=
  if JsObject.memb playerName allPlayers then allPlayers
  else allPlayers ++ [playerName].

Definition collectPlayers (sessions0 : list SessionData) : list string :=
  fold_left (fun allPlayers session =>
               fold_left (fun acc playerName => setAdd playerName acc)
                         (JsObject.keys (results session)) allPlayers)
            sessions0 [].

(** [runningTotals[playerName] = 0] for every collected player. *)
Definition initialTotals (allPlayers : list string) : JsObject.t num :=
  fold_left (fun runningTotals playerName => JsObject.set playerName zero runningTotals)
            allPlayers JsObject.empty.

(** [a + b] where either operand may be [undefined]: the sum is then NaN. *)
Definition addOrNaN (a b : option num) : num :=
  match a, b with
  | Some x, Some y => add x y
  | _, _ => nan
  end.

(** [{ ...fields, ...runningTotals }]: the spread defines one property per
    entry, after the fields, overwriting a field of the same name. *)
Definition spread (runningTotals : JsObject.t num) (fields : ChartDataPoint)
    : ChartDataPoint :=
  fold_left (fun point '(playerName, v) => JsObject.set playerName (VNumber v) point)
            (JsObject.entries runningTotals) fields.

Definition dataPoint (date0 sessionName0 : string) (round : num)
    (runningTotals : JsObject.t num) : ChartDataPoint :=
  spread runningTotals
    (JsObject.set "round" (VNumber round)
       (JsObject.set "sessionName" (VString sessionName0)
          (JsObject.set "date" (VString date0) JsObject.empty))).

(** The inner [forEach] of one round:
    [runningTotals[playerName] += balanceChanges[changeIndex]]. *)
Definition applyRound (session : SessionData) (changeIndex : nat)
    (runningTotals : JsObject.t num) : JsObject.t num :=
  fold_left (fun rt '(playerName, balanceChanges) =>
               JsObject.set playerName
                 (addOrNaN (JsObject.get playerName rt)
                           (nth_error balanceChanges changeIndex)) rt)
            (JsObject.entries (results session)) runningTotals.

(** [session.results[firstPlayer]?.length || 0]; with no key at all
    [firstPlayer] is [undefined], which indexes as the name "undefined". *)
Definition numBalanceChanges (session : SessionData) : nat :=
  let firstPlayer := hd "undefined" (JsObject.keys (results session)) in
  match JsObject.get firstPlayer (results session) with
  | Some balanceChanges => List.length balanceChanges
  | None => 0
  end.

(** The state of the loops: the points pushed so far and the running totals. *)
Definition chartState : Type := (list ChartDataPoint * JsObject.t num)%type.

(** One iteration of the [for] loop. *)
Definition roundStep (session : SessionData) (st : chartState) (changeIndex : nat)
    : chartState :=
  let '(chartData, runningTotals) := st in
  let runningTotals' := applyRound session changeIndex runningTotals in
  (chartData ++ [dataPoint (date session) (sessionName session)
                           (ofNat (changeIndex + 1)) runningTotals'],
   runningTotals').

(** One iteration of the outer [sessions.forEach]. *)
Definition sessionStep (st : chartState) (session : SessionData) : chartState :=
  fold_left (roundStep session) (seq 0 (numBalanceChanges session)) st.

Definition initialChart (sessions0 : list SessionData) (runningTotals : JsObject.t num)
    : list ChartDataPoint :=
  match sessions0 with
  | [] => []
  | firstSession :: _ =>
      [dataPoint (date firstSession) (sessionName firstSession ++ " - Start")
                 zero runningTotals]
  end.

Definition generateChartData (sessions0 : list SessionData) : list ChartDataPoint :=
  let runningTotals := initialTotals (collectPlayers sessions0) in
  fst (fold_left sessionStep sessions0
                 (initialChart sessions0 runningTotals, runningTotals)).

End CsvProcessor.

(** The value of a decimal numeral with an optional sign and no fraction or
    exponent, for running the parser on integer tables. *)
Fixpoint leadingDigits (s : string) (acc : Z) : Z :=
  match s with
  | EmptyString => acc
  | String c r =>
      if Str.isDigit c
      then leadingDigits r (10 * acc + (Z.of_nat (Ascii.nat_of_ascii c) - 48))%Z
      else acc
  end.

Definition integerValue (s : string) : @num ExactNumber :=
  match s with
  | String c r =>
      if Ascii.eqb c "-"%char then Fin (- leadingDigits r 0)
      else if Ascii.eqb c "+"%char then Fin (leadingDigits r 0)
      else Fin (leadingDigits s 0)
  | EmptyString => NaN
  end.

(** ** The vocabulary of the specification *)

Section SpecVocabulary.
Context {N : Number}.
Variable numberValue : string -> num.

(** "Lines are split on newline; blank lines (after trimming) are skipped." *)
Definition rawLines (content : string) : list string := Str.split Str.LF content.
Definition nonBlankLines (content : string) : list string :=
  filter nonBlank (rawLines content).
Definition headerLine (content : string) : string := hd EmptyString (nonBlankLines content).
Definition dataLines (content : string) : list string := tl (nonBlankLines content).

(** The comma-separated fields of a line. *)
Definition fields (line : string) : list string := Str.split Str.comma line.

(** A field that does not parse as a number once trimmed. *)
Definition notANumber (field : string) : Prop :=
  parseFloat numberValue (Str.trim field) = None.

(** The three malformations of section 4.1. *)
Definition tooFewLines (content : string) : Prop :=
  List.length (nonBlankLines content) < 2.
Definition someRowMiscounted (content : string) : Prop :=
  exists line, In line (dataLines content)
    /\ List.length (fields line) <> List.length (fields (headerLine content)).
Definition someFieldNotNumeric (content : string) : Prop :=
  exists line field, In line (dataLines content) /\ In field (fields line)
    /\ notANumber field.
Definition malformed (content : string) : Prop :=
  tooFewLines content \/ someRowMiscounted content \/ someFieldNotNumeric content.

(** A data line that [parseCsvContent] rejects, given the header's width. *)
Definition badLine (width : nat) (line : string) : Prop :=
  (exists field, In field (fields line) /\ notANumber field)
  \/ List.length (fields line) <> width.

End SpecVocabulary.

(** What relates the lines of a text to those of the text trimmed at its end:
    the first lines agree up to trailing white space, and so do the non-blank
    ones among the others. *)
Definition sameLines (p q : list string) : Prop :=
  Str.trimEnd (hd EmptyString p) = Str.trimEnd (hd EmptyString q)
  /\ map Str.trimEnd (filter nonBlank (tl p)) = map Str.trimEnd (filter nonBlank (tl q)).

(** The lines the code iterates over, [content.trim().split(...).filter(...)]. *)
Definition codeLines (content : string) : list string :=
  filter nonBlank (Str.split Str.LF (Str.trim content)).

(** ** The vocabulary of the aggregation claims *)

Section AggregationVocabulary.
Context {N : Number}.

(** A session object is a JavaScript object: its keys are distinct and in
    enumeration order. *)
Definition wellFormedSession (session : SessionData) : bool :=
  JsObject.wellFormed (results session).

(** The keys of a session's [results], as of any object, are distinct. *)
Definition distinctKeys (session : SessionData) : Prop :=
  NoDup (JsObject.keys (results session)).

(** The player has an entry in the session. *)
Definition appearsIn (player : string) (session : SessionData) : bool :=
  JsObject.has player (results session).

Definition sessionsOf (player : string) (sessions0 : list SessionData) : list SessionData :=
  filter (appearsIn player) sessions0.

(** The player's delta sequence in a session. *)
Definition deltasOf (player : string) (session : SessionData) : list num :=
  match JsObject.get player (results session) with
  | Some balanceChanges => balanceChanges
  | None => []
  end.

(** The sum of a delta sequence, from 0, left to right. *)
Definition sumOf (deltas : list num) : num := fold_left add deltas zero.

(** "The sum over all sessions containing that player of the sum of that
    player's delta sequence in that session." *)
Definition expectedTotal (player : string) (sessions0 : list SessionData) : num :=
  fold_left (fun acc session => add acc (sumOf (deltasOf player session)))
            (sessionsOf player sessions0) zero.

(** "The number of sessions in which that player has an entry." *)
Definition expectedSessions (player : string) (sessions0 : list SessionData) : nat :=
  List.length (sessionsOf player sessions0).

(** [d] is the maximum, by string comparison, of the identifiers of the
    sessions the player appears in. *)
Definition isLastSession (d : string) (player : string) (sessions0 : list SessionData) : Prop :=
  In d (map date (sessionsOf player sessions0))
  /\ forall d', In d' (map date (sessionsOf player sessions0)) -> String.ltb d d' = false.

(** The players in the order the scan of the sessions first meets them. *)
Definition encounterOrder (sessions0 : list SessionData) : list string :=
  fold_left (fun seen playerName => setAdd playerName seen)
            (List.concat (map (fun session => JsObject.keys (results session)) sessions0)) [].

Fixpoint indexOf (k : string) (l : list string) : option nat :=
  match l with
  | [] => None
  | x :: r => if String.eqb x k then Some 0 else option_map S (indexOf k r)
  end.

(** [a] was first met before [b]. *)
Definition metBefore (sessions0 : list SessionData) (a b : string) : Prop :=
  exists i j, indexOf a (encounterOrder sessions0) = Some i
    /\ indexOf b (encounterOrder sessions0) = Some j /\ i < j.

(** The running maximum of [creditSession], from [d]. *)
Definition latest (d : string) (ds : list string) : string :=
  fold_left (fun m d' => if String.ltb m d' then d' else m) ds d.

(** [a] stands before [b] in [l]. *)
Definition precedes {A} (l : list A) (a b : A) : Prop :=
  exists l1 l2 l3, l = l1 ++ a :: l2 ++ b :: l3.

(** One player's record, session after session: what the scan does to it. *)
Definition recordStep (player : string) (r : option PlayerTotal) (session : SessionData)
    : option PlayerTotal :=
  match JsObject.get player (results session) with
  | None => r
  | Some balanceChanges =>
      Some (creditSession session (sumOf balanceChanges)
              (match r with Some x => x | None => newRecord player session end))
  end.

(** The comparator of [calculatePlayerTotals]. *)
Definition byTotal (a b : PlayerTotal) : num := sub (total b) (total a).

(** The comparator never answers NaN on the elements of [l].  For a
    comparator [b - a] of binary64 numbers this makes it a consistent
    comparator in the sense of ECMAScript, the case in which the standard
    prescribes the order of the sorted array; elsewhere the order is left to
    the engine. *)
Definition neverNaN {A} (compareFn : A -> A -> num) (l : list A) : Prop :=
  forall a b, In a l -> In b l -> compareFn a b <> nan.

(** ECMAScript's consistent comparator for the elements of [l]: it never
    answers NaN and, [a] being ranked before [b] when it answers a negative
    number, after [b] when it answers a positive one and level with [b]
    otherwise, every element is level with itself, being level is symmetric,
    and the three relations are transitive. *)
Definition rankedBefore {A} (compareFn : A -> A -> num) (a b : A) : bool :=
  ltb (compareFn a b) zero.
Definition rankedAfter {A} (compareFn : A -> A -> num) (a b : A) : bool :=
  ltb zero (compareFn a b).
Definition rankedLevel {A} (compareFn : A -> A -> num) (a b : A) : bool :=
  negb (rankedBefore compareFn a b) && negb (rankedAfter compareFn a b).

Definition consistentComparator {A} (compareFn : A -> A -> num) (l : list A) : Prop :=
  neverNaN compareFn l
  /\ (forall a, In a l -> rankedLevel compareFn a a = true)
  /\ (forall a b, In a l -> In b l ->
        rankedLevel compareFn a b = true -> rankedLevel compareFn b a = true)
  /\ (forall a b c, In a l -> In b l -> In c l ->
        rankedLevel compareFn a b = true -> rankedLevel compareFn b c = true ->
        rankedLevel compareFn a c = true)
  /\ (forall a b c, In a l -> In b l -> In c l ->
        rankedBefore compareFn a b = true -> rankedBefore compareFn b c = true ->
        rankedBefore compareFn a c = true)
  /\ (forall a b c, In a l -> In b l -> In c l ->
        rankedAfter compareFn a b = true -> rankedAfter compareFn b c = true ->
        rankedAfter compareFn a c = true).

(** No later record has a greater total than an earlier one. *)
Definition descending (l : list PlayerTotal) : Prop :=
  StronglySorted (fun a b => ltb (total a) (total b) = false) l.

(** Records of equal total stand in [l] as they stand in [original]. *)
Definition tiesKeep (original l : list PlayerTotal) : Prop :=
  StronglySorted (fun a b => total a = total b -> precedes original a b) l.

(** Every record is stored under its own name. *)
Definition namedByKey (pt : JsObject.t PlayerTotal) : Prop :=
  Forall (fun e => name (snd e) = fst e) pt.

(** No player of any session is named by a canonical array index. *)
Definition noIndexNames (sessions0 : list SessionData) : Prop :=
  forall session playerName,
    In session sessions0 -> In playerName (JsObject.keys (results session)) ->
    JsObject.arrayIndex playerName = None.

(** The last column of the header that bears the name [k]. *)
Fixpoint lastIndexOf (k : string) (l : list string) : option nat :=
  match l with
  | [] => None
  | x :: r =>
      match lastIndexOf k r with
      | Some j => Some (S j)
      | None => if String.eqb x k then Some 0 else None
      end
  end.

(** Every row of a parsed table is as wide as its header. *)
Definition rectangular (players0 : list string) (table : list (list num)) : Prop :=
  Forall (fun row => List.length row = List.length players0) table.

End AggregationVocabulary.

(** ** The vocabulary of the chart claims *)

Section ChartVocabulary.
Context {N : Number}.

(** The round count of a session: the length of its players' delta
    sequences, 0 for a session without players. *)
Definition roundCount (session : SessionData) : nat :=
  match JsObject.entries (results session) with
  | [] => 0
  | (_, balanceChanges) :: _ => List.length balanceChanges
  end.

(** "Every player in a given session has the same delta-sequence length." *)
Definition uniform (session : SessionData) : Prop :=
  forall player balanceChanges,
    JsObject.get player (results session) = Some balanceChanges ->
    List.length balanceChanges = roundCount session.

(** The iterations of the two nested loops that push a point, in order: the
    session and the 0-based [changeIndex]. *)
Definition emissions (sessions0 : list SessionData) : list (SessionData * nat) :=
  flat_map (fun session => map (fun changeIndex => (session, changeIndex))
                               (seq 0 (roundCount session)))
           sessions0.

(** The running totals after the first [k] rounds of a session. *)
Definition totalsAfter (session : SessionData) (runningTotals : JsObject.t num) (k : nat)
    : JsObject.t num :=
  fold_left (fun rt changeIndex => applyRound session changeIndex rt) (seq 0 k) runningTotals.

Definition totalsAfterSessions (runningTotals : JsObject.t num)
    (sessions0 : list SessionData) : JsObject.t num :=
  fold_left (fun rt session => totalsAfter session rt (roundCount session))
            sessions0 runningTotals.

(** The pushes of the loops with the running totals each one captures. *)
Fixpoint trace (runningTotals : JsObject.t num) (sessions0 : list SessionData)
    : list (SessionData * nat * JsObject.t num) :=
  match sessions0 with
  | [] => []
  | session :: rest =>
      map (fun changeIndex =>
             (session, changeIndex, totalsAfter session runningTotals (S changeIndex)))
          (seq 0 (roundCount session))
      ++ trace (totalsAfter session runningTotals (roundCount session)) rest
  end.

Definition render (e : SessionData * nat * JsObject.t num) : ChartDataPoint :=
  let '(session, changeIndex, runningTotals) := e in
  dataPoint (date session) (sessionName session) (ofNat (changeIndex + 1)) runningTotals.






(** No player bears the name of a fixed field of a [ChartDataPoint]. *)
Definition noFieldNames (sessions0 : list SessionData) : Prop :=
  forall session player,
    In session sessions0 -> In player (JsObject.keys (results session)) ->
    player <> "date" /\ player <> "sessionName" /\ player <> "round".


(** The running totals the push before emission [i] captured: the initial
    ones when [i] is 0. *)
Definition previousTotals (runningTotals : JsObject.t num) (sessions0 : list SessionData)
    (i : nat) : JsObject.t num :=
  match i with
  | 0 => runningTotals
  | S i' =>
      match nth_error (trace runningTotals sessions0) i' with
      | Some (_, _, rt) => rt
      | None => runningTotals
      end
  end.

(** The running totals have one entry per collected player. *)
Definition goodTotals (sessions0 : list SessionData) (rt : JsObject.t num) : Prop :=
  NoDup (JsObject.keys rt)
  /\ forall p, In p (JsObject.keys rt) <-> In p (collectPlayers sessions0).

(** The player appears in some session of the collection. *)
Definition seenIn (sessions0 : list SessionData) (player : string) : Prop :=
  exists session, In session sessions0 /\ appearsIn player session = true.

End ChartVocabulary.

(** ** The vocabulary of exact sums *)

Section SafeVocabulary.
Context {N : Number}.




Variable V : IntegerView N.




End SafeVocabulary.

(** ** Scenarios *)

Definition NL : string := String Str.LF EmptyString.

(** Scenario C of the specification: a row with one value under two columns. *)
Definition scenarioC : string := "Alice,Bob" ++ NL ++ "10" ++ NL.

(** A short row after a blank line: raw line 3, second non-blank line. *)
Definition shortRowAfterBlank : string := "A,B" ++ NL ++ NL ++ "1" ++ NL.

(** Scenario B: the table of scenario A on two days. *)
Definition scenarioA : list (list (@num ExactNumber)) := [[Fin 10; Fin (-10)]; [Fin (-5); Fin 5]].
Definition scenarioB : list (@SessionData ExactNumber) :=
  [normalize (N := ExactNumber) "2025-01-01" ["Alice"; "Bob"] scenarioA;
   normalize (N := ExactNumber) "2025-01-02" ["Alice"; "Bob"] scenarioA].

(** Two players level at 0: "b" is met in the first session, "1" in the second. *)
Definition levelPlayers : list (@SessionData ExactNumber) :=
  [normalize (N := ExactNumber) "2025-01-01" ["b"] [[Fin 0]];
   normalize (N := ExactNumber) "2025-01-02" ["1"] [[Fin 0]]].

(** The text of scenario A. *)
Definition scenarioAText : string :=
  "Alice,Bob" ++ NL ++ "10,-10" ++ NL ++ "-5,5" ++ NL.

(** A header that names Alice twice. *)
Definition twiceAlice : list string := ["Alice"; "Bob"; "Alice"].
Definition twiceAliceTable : list (list (@num ExactNumber)) :=
  [[Fin 1; Fin 2; Fin 30]; [Fin 4; Fin 5; Fin 60]].

(** One player, named as the [round] field of a point is, wins 5. *)
Definition roundPlayer : list (@SessionData ExactNumber) :=
  [normalize (N := ExactNumber) "2025-01-01" ["round"] [[Fin 5]]].

(** Binary64 sessions: 2^53 on the first day, then 1 and 1.  In binary64,
    2^53 + 1 is 2^53. *)
Definition twoTo53 : @num FloatNumber := 9007199254740992%float.
Definition minusTwoTo53 : @num FloatNumber := (-9007199254740992)%float.

Definition floatSessions : list (@SessionData FloatNumber) :=
  [normalize (N := FloatNumber) "2025-01-01" ["Alice"] [[twoTo53]];
   normalize (N := FloatNumber) "2025-01-02" ["Alice"] [[1%float]; [1%float]]].

(** One binary64 session of two rounds, each summing to 0 exactly. *)
Definition floatRounds : list (@SessionData FloatNumber) :=
  [normalize (N := FloatNumber) "2025-01-01" ["Alice"; "Bob"; "Carol"]
     [[twoTo53; minusTwoTo53; 0%float]; [1%float; 1%float; (-2)%float]]].

(** A player named as a property that every object inherits from
    [Object.prototype]. *)
Definition constructorText : string :=
  "constructor,Bob" ++ NL ++ "1,-1" ++ NL ++ "5,-5" ++ NL.
Definition constructorTable : list (list (@num ExactNumber)) :=
  [[Fin 1; Fin (-1)]; [Fin 5; Fin (-5)]].
Definition constructorDay : list (@SessionData ExactNumber) :=
  [normalize (N := ExactNumber) "2025-01-01" ["constructor"; "Bob"] constructorTable].

(** A header that bears that name twice. *)
Definition twiceConstructorText : string :=
  "constructor,Bob,constructor" ++ NL ++ "1,-4,3" ++ NL ++ "5,-7,2" ++ NL.
Definition twiceConstructor : list string := ["constructor"; "Bob"; "constructor"].
Definition twiceConstructorTable : list (list (@num ExactNumber)) :=
  [[Fin 1; Fin (-4); Fin 3]; [Fin 5; Fin (-7); Fin 2]].

(** Binary64 sessions in which "b" and "a" are level at 5, "b" met first,
    and "c" stands at -10. *)
Definition levelFloats : list (@SessionData FloatNumber) :=
  [normalize (N := FloatNumber) "2025-01-01" ["b"; "c"] [[5%float; (-5)%float]];
   normalize (N := FloatNumber) "2025-01-02" ["a"; "c"] [[5%float; (-5)%float]]].

(** Scenario B in binary64. *)
Definition scenarioAFloat : list (list (@num FloatNumber)) :=
  [[10%float; (-10)%float]; [(-5)%float; 5%float]].

(** A record and a point property over the exact numbers. *)
Definition exactRecord (n : string) (t : Z) (k : nat) (d : string)
    : @PlayerTotal ExactNumber :=
  @Build_PlayerTotal ExactNumber n (Fin t) k d.
Definition exactValue (z : Z) : @value ExactNumber := @VNumber ExactNumber (Fin z).

(** ** What the claims conclude *)

Section ClaimsAsStated.
Context {N : Number}.
Variable numberValue : string -> num.

(** The row an error names is the number, among the raw lines of the input,
    of a non-blank line that the parser rejects. *)
Definition namesOriginalLine (content : string) : Prop :=
  forall e row,
    parseCsvContent numberValue content = Throw e -> errorRow e = Some row ->
    exists line, nth_error (rawLines content) (row - 1) = Some line
      /\ nonBlank line = true
      /\ badLine numberValue (List.length (fields (headerLine content))) line.

(** Players with equal totals appear in the order they were first met. *)
Definition tiesInEncounterOrder (sessions0 : list SessionData) : Prop :=
  forall i j ri rj, i < j ->
    nth_error (calculatePlayerTotals sessions0) i = Some ri ->
    nth_error (calculatePlayerTotals sessions0) j = Some rj ->
    total ri = total rj ->
    metBefore sessions0 (name ri) (name rj).


(** The last point of the series. *)
Definition lastPoint (sessions0 : list SessionData) : option ChartDataPoint :=
  nth_error (generateChartData sessions0) (List.length (generateChartData sessions0) - 1).



End ClaimsAsStated.

(** * The rest of the code *)

(** ** [getSessionNameFromFilename] and [loadAllSessions] *)

Fixpoint dropChars (n : nat) (s : string) : string :=
  match n, s with
  | 0, _ => s
  | S n', String _ r => dropChars n' r
  | S _, EmptyString => EmptyString
  end.

(** [s.replace(pattern, '')] for a non-empty string pattern: the first
    occurrence of [pattern] is removed. *)
Fixpoint removeFirst (pattern s : string) : string :=
  match s with
  | EmptyString => EmptyString
  | String c r =>
      if String.prefix pattern s then dropChars (String.length pattern) s
      else String c (removeFirst pattern r)
  end.

Definition getSessionNameFromFilename (filename : string) : string :=
  removeFirst ".csv" filename.

Definition CSV_FILES : list string :=
  ["2025-08-13.csv"; "2025-07-16.csv"; "2025-07-09.csv"; "2025-04-02.csv";
   "2024-08-16.csv"; "2025-09-17.csv"; "2025-10-08.csv"].

(** What [await fetch(url)] and [await response.text()] come to: the promise
    is rejected, or a response arrives with its [ok] flag, its status and its
    body ([None] when reading the body is rejected). *)
Inductive FetchResult : Type :=
| Rejected
| Response (ok : bool) (status : nat) (text : option string).

(** What the [catch] clause receives. *)
Inductive LoadError : Type :=
| FetchRejected
| ParseFailed (e : ParseError).

(** The lines written to the console: [console.warn] for a response that is
    not [ok], [console.error] in the [catch] clause. *)
Inductive LogEntry : Type :=
| CouldNotFetch (filename : string) (status : nat)
| ErrorProcessing (filename : string) (error : LoadError).

Section Loader.
Context {N : Number}.
Variable numberValue : string -> num.
(** The network, and [String.prototype.localeCompare] of the host. *)
Variable fetch : string -> FetchResult.
Variable localeCompare : string -> string -> num.

(** The body of the [for] loop for one file: a session to push, or the line
    logged before going on to the next file. *)
Definition loadFile (filename : string) : Result LogEntry SessionData :=
  let url := ("/data/" ++ filename)%string in
  match fetch url with
  | Rejected => Throw (ErrorProcessing filename FetchRejected)
  | Response false status _ => Throw (CouldNotFetch filename status)
  | Response true _ None => Throw (ErrorProcessing filename FetchRejected)
  | Response true _ (Some content) =>
      match parseCsvContent numberValue content with
      | Throw e => Throw (ErrorProcessing filename (ParseFailed e))
      | Ok (players0, results0) =>
          let sessionName0 := getSessionNameFromFilename filename in
          Ok (normalize sessionName0 players0 results0)
      end
  end.

(** The state of the loop: the sessions pushed and the console so far. *)
Definition loadStep (st : list SessionData * list LogEntry) (filename : string)
    : list SessionData * list LogEntry :=
  let '(sessions0, console) := st in
  match loadFile filename with
  | Ok sessionData => (sessions0 ++ [sessionData], console)
  | Throw entry => (sessions0, console ++ [entry])
  end.

Definition loadFiles (files : list string) : list SessionData * list LogEntry :=
  fold_left loadStep files ([], []).

(** The sessions returned, sorted by date, and the console. *)
Definition loadAllSessions : list SessionData * list LogEntry :=
  let '(sessions0, console) := loadFiles CSV_FILES in
  (sort (fun a b => localeCompare (date a) (date b)) sessions0, console).

End Loader.

(** ** The computations of the [PokerLeaderboard] component *)

Definition DISTINCT_COLORS : list string :=
  ["#3b82f6"; "#ef4444"; "#10b981"; "#f59e0b"; "#8b5cf6";
   "#06b6d4"; "#f97316"; "#84cc16"; "#ec4899"; "#6b7280"].

(** An entry of the [ChartConfig]: [color] is [undefined] for [winnings]. *)
Record ConfigEntry : Type := {
  label : string;
  color : option string
}.

Section Component.
Context {N : Number}.

(** The body of [totals.forEach((player, index) => ...)]. *)
Definition configStep (st : nat * JsObject.t ConfigEntry) (player : PlayerTotal)
    : nat * JsObject.t ConfigEntry :=
  let '(index, config) := st in
  (S index,
   JsObject.set (name player)
     {| label := name player;
        color := nth_error DISTINCT_COLORS (index mod List.length DISTINCT_COLORS) |}
     config).

(** The [config] built in the effect, from the [winnings] entry on. *)
Definition chartConfigOf (totals : list PlayerTotal) : JsObject.t ConfigEntry :=
  snd (fold_left configStep totals
         (0, JsObject.set "winnings" {| label := "Winnings"; color := None |}
               JsObject.empty)).

(** [chartConfig] once the effect has run on the sessions loaded: with no
    session the effect returns early and the state keeps its initial [{}]. *)
Definition chartConfigState (sessions0 : list SessionData) : JsObject.t ConfigEntry :=
  match sessions0 with
  | [] => JsObject.empty
  | _ :: _ => chartConfigOf (calculatePlayerTotals sessions0)
  end.

(** [Object.keys(chartConfig).map(...)]: [None] is the [null] returned for
    [winnings], otherwise the [dataKey] and the [stroke] of a [Line]. *)
Definition chartLines (chartConfig : JsObject.t ConfigEntry)
    : list (option (string * option string)) :=
  map (fun player =>
         if String.eqb player "winnings" then None
         else Some (player,
                    match JsObject.get player chartConfig with
                    | Some entry => color entry
                    | None => None
                    end))
      (JsObject.keys chartConfig).

End Component.

(** The session history: per-player session totals, sorted, with the first
    and the last of them. *)
Module History.
Section History.
Context {N : Number}.

Record Entry : Type := {
  name : string;
  total : num
}.

Definition perPlayerTotals (session : SessionData) : list Entry :=
  map (fun '(name0, changes) =>
         {| name := name0; total := fold_left (fun sum v => add sum v) changes zero |})
      (JsObject.entries (results session)).

Definition sortedTotals (session : SessionData) : list Entry :=
  sort (fun a b => sub (total b) (total a)) (perPlayerTotals session).

(** [sortedTotals[0]] *)
Definition topPlayer (session : SessionData) : option Entry :=
  nth_error (sortedTotals session) 0.

(** [sortedTotals[sortedTotals.length - 1]]: index -1 of an empty array is
    [undefined]. *)
Definition bottomPlayer (session : SessionData) : option Entry :=
  match List.length (sortedTotals session) with
  | 0 => None
  | S n => nth_error (sortedTotals session) n
  end.

(** [[...sessions].reverse().map(...)] *)
Definition summaries (sessions0 : list SessionData)
    : list (SessionData * option Entry * option Entry) :=
  map (fun session => (session, topPlayer session, bottomPlayer session))
      (rev sessions0).

End History.
End History.

(** ** The vocabulary of the further properties *)

Section FurtherVocabulary.
Context {N : Number}.
Variable numberValue : string -> num.

(** The numbers of a data line: the value of each field, trimmed. *)
Definition rowValues (line : string) : list num :=
  map (fun field => numberValue (Str.trim field)) (fields line).

(** The sessions of the files that are fetched and parsed, in file order. *)
Definition loadedSessions (fetch : string -> FetchResult) (files : list string)
    : list SessionData :=
  flat_map (fun filename =>
              match loadFile numberValue fetch filename with
              | Ok sessionData => [sessionData]
              | Throw _ => []
              end) files.

(** The file a console line is about. *)
Definition logFile (entry : LogEntry) : string :=
  match entry with
  | CouldNotFetch filename _ => filename
  | ErrorProcessing filename _ => filename
  end.

End FurtherVocabulary.

(** ** Further scenarios *)

Definition CR : string := String (Ascii.ascii_of_nat 13) EmptyString.

(** The text of scenario A with Windows line ends, a blank line, an indented
    header and a trailing blank. *)
Definition scenarioAWindows : string :=
  "  Alice,Bob" ++ CR ++ NL ++ CR ++ NL ++ "10,-10 " ++ CR ++ NL ++ "-5,5".

(** A second row whose second field is no number and which is too long. *)
Definition badFieldText : string :=
  "Alice,Bob" ++ NL ++ "10,-10" ++ NL ++ "7, x ,y,3" ++ NL.

(** A name without a dot. *)
Fixpoint dotFree (s : string) : bool :=
  match s with
  | EmptyString => true
  | String c r => negb (Ascii.eqb c "."%char) && dotFree r
  end.

(** The lines the loop of [loadAllSessions] writes to the console, in file
    order. *)
Definition consoleLines {N : Number} (numberValue : string -> num)
    (fetch : string -> FetchResult) (files : list string) : list LogEntry :=
  flat_map (fun filename =>
              match loadFile numberValue fetch filename with
              | Ok _ => []
              | Throw entry => [entry]
              end) files.

(** A file that is served and parses. *)
Definition served {N : Number} (numberValue : string -> num)
    (fetch : string -> FetchResult) (filename : string)
    (players0 : list string) (table : list (list num)) : Prop :=
  exists status content,
    fetch ("/data/" ++ filename)%string = Response true status (Some content)
    /\ parseCsvContent numberValue content = Ok (players0, table).

(** No served file has a column named [__proto__], the one name for which
    the assignment [sessionData.results[player] = ...] sets the prototype of
    [results] and creates no property. *)
Definition noProtoColumn {N : Number} (numberValue : string -> num)
    (fetch : string -> FetchResult) : Prop :=
  forall filename players0 table,
    In filename CSV_FILES -> served numberValue fetch filename players0 table ->
    ~ In "__proto__" players0.

(** On the session names of the listed files, [localeCompare] orders as the
    comparison of code units does: so it is for dates written
    year-month-day. *)
Definition ordersDatesAsCodeUnits {N : Number} (localeCompare : string -> string -> num)
    : Prop :=
  forall f g, In f CSV_FILES -> In g CSV_FILES ->
    ltb (localeCompare (getSessionNameFromFilename f) (getSessionNameFromFilename g)) zero
    = String.ltb (getSessionNameFromFilename f) (getSessionNameFromFilename g).

(** Ascending by date. *)
Definition byDate {N : Number} (l : list SessionData) : Prop :=
  StronglySorted (fun a b => String.ltb (date b) (date a) = false) l.

(** The three-way comparison of code units, as a number. *)
Definition compareCodeUnits (a b : string) : @num ExactNumber :=
  match String.compare a b with
  | Lt => Fin (-1)
  | Eq => Fin 0
  | Gt => Fin 1
  end.

(** A network that serves scenario A for the first file, a server error for
    the second, a text without rows for the third, and nothing else. *)
Definition someNetwork (url : string) : FetchResult :=
  if String.eqb url "/data/2025-08-13.csv" then Response true 200 (Some scenarioAText)
  else if String.eqb url "/data/2025-07-16.csv" then Response false 500 (Some "")
  else if String.eqb url "/data/2025-07-09.csv" then Response true 200 (Some "Alice,Bob")
  else if String.eqb url "/data/2025-04-02.csv" then Response true 200 (Some scenarioAWindows)
  else Rejected.


(** The second day of scenario B. *)
Definition scenarioBSecondDay : @SessionData ExactNumber :=
  normalize (N := ExactNumber) "2025-01-02" ["Alice"; "Bob"] scenarioA.

(** The same day in binary64. *)
Definition scenarioBSecondDayFloat : @SessionData FloatNumber :=
  normalize (N := FloatNumber) "2025-01-02" ["Alice"; "Bob"] scenarioAFloat.


(** The colour of the line of the player ranked [index]. *)
Definition colorOfRank (index : nat) : string :=
  nth (index mod List.length DISTINCT_COLORS) DISTINCT_COLORS EmptyString.

(** The sum of a player's deltas in one session, as the history shows it. *)
Definition sessionTotalOf {N : Number} (changes : list num) : num :=
  fold_left (fun sum v => add sum v) changes zero.

(** The first and the last of the sorted session totals are a best and a
    worst player of the session. *)
Definition bestAndWorst {N : Number} (session : SessionData)
    (top bottom : History.Entry) : Prop :=
  In top (History.perPlayerTotals session)
  /\ In bottom (History.perPlayerTotals session)
  /\ forall playerName changes,
       In (playerName, changes) (JsObject.entries (results session)) ->
       ltb (History.total top) (sessionTotalOf changes) = false
       /\ ltb (sessionTotalOf changes) (History.total bottom) = false.

(** A session in which a player bears the name of the [winnings] entry of
    the chart configuration. *)
Definition winningsDay : list (@SessionData ExactNumber) :=
  [normalize (N := ExactNumber) "2025-01-01" ["Alice"; "winnings"] scenarioA].

(** * Properties *)

(** ** The number structures *)

Lemma ExactNumber_order : OrderLaws ExactNumber.
Proof.
  constructor; simpl.
  - intros [a|] [b|]; simpl; try reflexivity.
    destruct (Z.ltb_spec (b - a) 0), (Z.ltb_spec b a); try reflexivity; lia.
  - intros [a|]; simpl; [apply Z.ltb_irrefl|reflexivity].
  - intros [a|] [b|] [c|]; simpl; try discriminate.
    rewrite !Z.ltb_lt. lia.
Qed.

(** ** Binary64

    Up to [Number.MAX_SAFE_INTEGER] every integer is a binary64 number, and
    the sum of two of them that stays in that range is not rounded; and the
    comparator [b - a] is negative exactly when [b < a], a strict order. *)

Module Binary64Facts.
Import SpecFloat FloatOps FloatAxioms Binary64.
Local Open Scope Z_scope.

Lemma iter_xO_value (p d : positive) : Zpos (Pos.iter xO p d) = Zpos p * 2 ^ Zpos d.
Proof.
  induction d as [|d IH] using Pos.peano_ind.
  - simpl. lia.
  - rewrite Pos.iter_succ, Pos2Z.inj_succ, Z.pow_succ_r by lia.
    rewrite Pos2Z.inj_xO, IH. lia.
Qed.




Lemma digits_bounds (p : positive) :
  2 ^ (Zpos (digits2_pos p) - 1) <= Zpos p < 2 ^ Zpos (digits2_pos p).
Proof.
  induction p as [p IH|p IH|]; cbn [digits2_pos].
  - rewrite Pos2Z.inj_succ. replace (Z.succ (Zpos (digits2_pos p)) - 1) with (Z.succ (Zpos (digits2_pos p) - 1)) by lia.
    rewrite !Z.pow_succ_r by lia. lia.
  - rewrite Pos2Z.inj_succ. replace (Z.succ (Zpos (digits2_pos p)) - 1) with (Z.succ (Zpos (digits2_pos p) - 1)) by lia.
    rewrite !Z.pow_succ_r by lia. lia.
  - simpl. lia.
Qed.


Lemma iter_pos_iter {A} (f : A -> A) (n : positive) :
  forall x, iter_pos f n x = Pos.iter f x n.
Proof.
  induction n as [n IH|n IH|]; intros x; cbn [iter_pos Pos.iter].
  - rewrite !IH, <- !Pos.iter_swap. reflexivity.
  - rewrite !IH. reflexivity.
  - reflexivity.
Qed.









(** The mantissa aligned to a smaller exponent. *)
Lemma shl_align_value (m : positive) (e e' : Z) :
  e' <= e -> Zpos (fst (shl_align m e e')) = Zpos m * 2 ^ (e - e').
Proof.
  intros H. unfold shl_align. destruct (e' - e) as [|d|d] eqn:E; cbn [fst].
  - replace (e - e') with 0 by lia. simpl. lia.
  - lia.
  - rewrite iter_xO_value. f_equal. f_equal. lia.
Qed.


Lemma cond_Zopp_mul (s : bool) (x y : Z) : cond_Zopp s (x * y) = cond_Zopp s x * y.
Proof. destruct s; simpl; lia. Qed.






(** *** The order of binary64 *)

Lemma canonical_bounds (m : positive) (e : Z) :
  bounded prec emax m e = true ->
  -1074 <= e <= 971
  /\ Zpos (digits2_pos m) <= 53
  /\ (-1074 < e -> Zpos (digits2_pos m) = 53).
Proof.
  unfold bounded, canonical_mantissa, fexp, emin, prec, emax.
  rewrite Bool.andb_true_iff, Z.eqb_eq, Z.leb_le. lia.
Qed.

Lemma finite_rank_bounds (m : positive) (e : Z) :
  bounded prec emax m e = true ->
  0 < Zpos m * 2 ^ (e + 1074) < 2 ^ 2098.
Proof.
  intros H. destruct (canonical_bounds m e H) as (He & Hd & _).
  pose proof (digits_bounds m) as [_ Hm].
  assert (Hp : 0 < 2 ^ (e + 1074)) by (apply Z.pow_pos_nonneg; lia).
  split; [lia|].
  apply Z.lt_le_trans with (2 ^ Zpos (digits2_pos m) * 2 ^ (e + 1074)).
  - apply Z.mul_lt_mono_pos_r; assumption.
  - rewrite <- Z.pow_add_r by lia. apply Z.pow_le_mono_r; lia.
Qed.

(** Of two canonical numbers the one with the greater exponent is the
    greater. *)
Lemma finite_rank_exponents (m1 m2 : positive) (e1 e2 : Z) :
  bounded prec emax m1 e1 = true -> bounded prec emax m2 e2 = true ->
  e1 < e2 ->
  Zpos m1 * 2 ^ (e1 + 1074) < Zpos m2 * 2 ^ (e2 + 1074).
Proof.
  intros H1 H2 Hlt.
  destruct (canonical_bounds m1 e1 H1) as (He1 & Hd1 & _).
  destruct (canonical_bounds m2 e2 H2) as (He2 & _ & Hd2).
  specialize (Hd2 ltac:(lia)).
  pose proof (digits_bounds m1) as [_ Hm1].
  pose proof (digits_bounds m2) as [Hm2 _]. rewrite Hd2 in Hm2.
  assert (Hp1 : 0 < 2 ^ (e1 + 1074)) by (apply Z.pow_pos_nonneg; lia).
  assert (Hp2 : 0 < 2 ^ (e2 + 1074)) by (apply Z.pow_pos_nonneg; lia).
  apply Z.lt_le_trans with (2 ^ 53 * 2 ^ (e1 + 1074)).
  - apply Z.mul_lt_mono_pos_r; [exact Hp1|].
    apply Z.lt_le_trans with (2 ^ Zpos (digits2_pos m1)); [exact Hm1|].
    apply Z.pow_le_mono_r; lia.
  - apply Z.le_trans with (2 ^ (53 - 1) * 2 ^ (e2 + 1074)).
    + rewrite <- !Z.pow_add_r by lia. apply Z.pow_le_mono_r; lia.
    + apply Z.mul_le_mono_nonneg_r; lia.
Qed.

Lemma finite_compare (m1 m2 : positive) (e1 e2 : Z) :
  bounded prec emax m1 e1 = true -> bounded prec emax m2 e2 = true ->
  match Z.compare e1 e2 with
  | Lt => Lt
  | Gt => Gt
  | Eq => Pos.compare_cont Eq m1 m2
  end
  = (Zpos m1 * 2 ^ (e1 + 1074) ?= Zpos m2 * 2 ^ (e2 + 1074)).
Proof.
  intros H1 H2. destruct (Z.compare_spec e1 e2) as [->|Hlt|Hgt].
  - destruct (canonical_bounds m2 e2 H2) as (He & _ & _).
    assert (Hp : 0 < 2 ^ (e2 + 1074)) by (apply Z.pow_pos_nonneg; lia).
    change (Pos.compare_cont Eq m1 m2) with (Zpos m1 ?= Zpos m2).
    symmetry. destruct (Z.compare_spec (Zpos m1) (Zpos m2)) as [E|E|E].
    + rewrite E. apply Z.compare_refl.
    + apply Z.compare_lt_iff. apply Z.mul_lt_mono_pos_r; assumption.
    + apply Z.compare_gt_iff. apply Z.mul_lt_mono_pos_r; assumption.
  - symmetry. apply Z.compare_lt_iff. apply finite_rank_exponents; assumption.
  - symmetry. apply Z.compare_gt_iff. apply finite_rank_exponents; assumption.
Qed.

(** On the numbers that are not NaN the comparison is that of the ranks. *)
Lemma SFcompare_rank (x y : spec_float) :
  valid_binary x = true -> valid_binary y = true ->
  isNaN x = false -> isNaN y = false ->
  SFcompare x y = Some (rank x ?= rank y).
Proof.
  intros Hx Hy Nx Ny.
  destruct x as [sx|sx| |sx mx ex], y as [sy|sy| |sy my ey];
    try discriminate; cbn [SFcompare rank valid_binary] in *.
  - reflexivity.
  - destruct sy; reflexivity.
  - pose proof (finite_rank_bounds my ey Hy). f_equal. symmetry.
    destruct sy; cbn [cond_Zopp]; [apply Z.compare_gt_iff|apply Z.compare_lt_iff]; lia.
  - destruct sx; reflexivity.
  - destruct sx, sy; reflexivity.
  - pose proof (finite_rank_bounds my ey Hy). f_equal. symmetry.
    destruct sx, sy; cbn [cond_Zopp];
      try (apply Z.compare_gt_iff; lia); apply Z.compare_lt_iff; lia.
  - pose proof (finite_rank_bounds mx ex Hx). f_equal. symmetry.
    destruct sx; cbn [cond_Zopp]; [apply Z.compare_lt_iff|apply Z.compare_gt_iff]; lia.
  - pose proof (finite_rank_bounds mx ex Hx). f_equal. symmetry.
    destruct sx, sy; cbn [cond_Zopp];
      try (apply Z.compare_gt_iff; lia); apply Z.compare_lt_iff; lia.
  - pose proof (finite_rank_bounds mx ex Hx). pose proof (finite_rank_bounds my ey Hy).
    f_equal. destruct sx, sy; cbn [cond_Zopp].
    + rewrite Z.compare_opp.
      rewrite (Z.compare_antisym (Zpos mx * 2 ^ (ex + 1074)) (Zpos my * 2 ^ (ey + 1074))).
      rewrite <- (finite_compare _ _ _ _ Hx Hy).
      destruct (ex ?= ey); reflexivity.
    + symmetry. apply Z.compare_lt_iff. lia.
    + symmetry. apply Z.compare_gt_iff. lia.
    + apply finite_compare; assumption.
Qed.

Lemma SFltb_rank (x y : spec_float) :
  valid_binary x = true -> valid_binary y = true ->
  SFltb x y = negb (isNaN x) && negb (isNaN y) && (rank x <? rank y).
Proof.
  intros Hx Hy. unfold SFltb.
  destruct (isNaN x) eqn:Nx; [destruct x; try discriminate; reflexivity|].
  destruct (isNaN y) eqn:Ny;
    [destruct y; try discriminate; destruct x; reflexivity|].
  rewrite (SFcompare_rank x y Hx Hy Nx Ny). unfold Z.ltb.
  destruct (rank x ?= rank y); reflexivity.
Qed.


(** *** The sign of a rounded number *)

Lemma shr_1_m (mrs : shr_record) :
  0 <= shr_m mrs -> shr_m (shr_1 mrs) = Z.div2 (shr_m mrs) /\ 0 <= shr_m (shr_1 mrs).
Proof.
  destruct mrs as [[|[p|p|]|p] r s]; cbn [shr_m shr_1 Z.div2]; intros H;
    try (split; [reflexivity|lia]); lia.
Qed.

Lemma iter_shr_1_m (n : positive) (mrs : shr_record) :
  0 <= shr_m mrs ->
  shr_m (Pos.iter shr_1 mrs n) = Z.shiftr (shr_m mrs) (Zpos n)
  /\ 0 <= shr_m (Pos.iter shr_1 mrs n).
Proof.
  intros H. change (Z.shiftr (shr_m mrs) (Zpos n)) with (Pos.iter Z.div2 (shr_m mrs) n).
  induction n as [|n IH] using Pos.peano_ind.
  - cbn [Pos.iter]. apply shr_1_m. exact H.
  - rewrite !Pos.iter_succ. destruct IH as [IH1 IH2].
    destruct (shr_1_m _ IH2) as [E1 E2]. rewrite E1, IH1. split; [reflexivity|].
    rewrite <- IH1, <- E1. exact E2.
Qed.

Lemma shr_record_of_loc_m (m : Z) (l : location) : shr_m (shr_record_of_loc m l) = m.
Proof. destruct l as [|[]]; reflexivity. Qed.

(** Shifting a canonical or longer mantissa to its place leaves it
    positive. *)
Lemma shr_fexp_pos (m : positive) (e : Z) (l : location) :
  -1074 <= e ->
  exists q, shr_m (fst (shr_fexp prec emax (Zpos m) e l)) = Zpos q
            /\ -1074 <= snd (shr_fexp prec emax (Zpos m) e l).
Proof.
  intros He. unfold shr_fexp, shr. cbn [Zdigits2].
  pose proof (digits_bounds m) as [Hlow _].
  set (d := Zpos (digits2_pos m)) in *.
  assert (Hd : 1 <= d) by (unfold d; lia).
  destruct (fexp prec emax (d + e) - e) as [|p|p] eqn:En; cbn [fst snd].
  - exists m. split; [apply shr_record_of_loc_m|exact He].
  - assert (Hp : Zpos p = d - 53).
    { unfold fexp, emin, prec, emax in En. lia. }
    rewrite iter_pos_iter.
    destruct (iter_shr_1_m p (shr_record_of_loc (Zpos m) l)) as [E _];
      [rewrite shr_record_of_loc_m; lia|].
    rewrite E, shr_record_of_loc_m, Z.shiftr_div_pow2 by lia.
    assert (Hq : 0 < Zpos m / 2 ^ Zpos p).
    { apply Z.div_str_pos. split; [apply Z.pow_pos_nonneg; lia|].
      apply Z.le_trans with (2 ^ (d - 1)); [|exact Hlow].
      apply Z.pow_le_mono_r; lia. }
    destruct (Zpos m / 2 ^ Zpos p) as [|q|q]; try lia.
    exists q. split; [reflexivity|lia].
  - exists m. split; [apply shr_record_of_loc_m|exact He].
Qed.

Lemma round_nearest_even_pos (q : positive) (l : location) :
  exists q', round_nearest_even (Zpos q) l = Zpos q'.
Proof.
  destruct l as [|[]]; cbn [round_nearest_even]; try (eexists; reflexivity).
  - destruct (Z.even (Zpos q)); eexists; reflexivity.
Qed.

(** A number rounded from a mantissa at an exponent of the format bears the
    sign it is given: it is neither a zero nor NaN. *)
Lemma binary_round_aux_sign (s : bool) (m : positive) (e : Z) (l : location) :
  -1074 <= e ->
  (exists m' e', binary_round_aux prec emax s (Zpos m) e l = S754_finite s m' e')
  \/ binary_round_aux prec emax s (Zpos m) e l = S754_infinity s.
Proof.
  intros He. unfold binary_round_aux.
  destruct (shr_fexp_pos m e l He) as (q & Hq & He').
  destruct (shr_fexp prec emax (Zpos m) e l) as [mrs' e'] eqn:E1. cbn [fst snd] in Hq, He'.
  rewrite Hq. destruct (round_nearest_even_pos q (loc_of_shr_record mrs')) as [q' ->].
  destruct (shr_fexp_pos q' e' loc_Exact He') as (q'' & Hq'' & _).
  destruct (shr_fexp prec emax (Zpos q') e' loc_Exact) as [mrs'' e''] eqn:E2.
  cbn [fst snd] in Hq''. rewrite Hq''.
  destruct (e'' <=? emax - prec); [left; eexists; eexists; reflexivity|right; reflexivity].
Qed.

Lemma binary_round_sign (s : bool) (m : positive) (e : Z) :
  -1074 <= e ->
  SFltb (binary_round prec emax s m e) (S754_zero false) = s.
Proof.
  intros He. unfold binary_round.
  destruct (shl_align m e (fexp prec emax (Zpos (digits2_pos m) + e))) as [mz ez] eqn:E.
  assert (Hez : -1074 <= ez).
  { unfold shl_align in E.
    destruct (fexp prec emax (Zpos (digits2_pos m) + e) - e) eqn:En;
      injection E as _ <-; try exact He.
    unfold fexp, emin, prec, emax. lia. }
  destruct (binary_round_aux_sign s mz ez loc_Exact Hez) as [(m' & e' & ->)| ->];
    destruct s; reflexivity.
Qed.

(** *** The comparator [b - a] *)

Lemma rank_aligned (s : bool) (m : positive) (e ez : Z) :
  -1074 <= ez <= e ->
  cond_Zopp s (Zpos m * 2 ^ (e + 1074))
  = cond_Zopp s (Zpos (fst (shl_align m e ez))) * 2 ^ (ez + 1074).
Proof.
  intros H. rewrite (shl_align_value m e ez) by lia.
  rewrite <- cond_Zopp_mul, <- Z.mul_assoc, <- Z.pow_add_r by lia.
  do 3 f_equal. lia.
Qed.

Lemma SFsub_sign (x y : spec_float) :
  valid_binary x = true -> valid_binary y = true ->
  SFltb (SFsub prec emax y x) (S754_zero false) = SFltb y x.
Proof.
  intros Hx Hy.
  destruct y as [sy|sy| |sy my ey], x as [sx|sx| |sx mx ex];
    try (destruct sx; reflexivity); try (destruct sy; reflexivity);
    try (destruct sx, sy; reflexivity); try reflexivity.
  rewrite (SFltb_rank _ _ Hy Hx). cbn [isNaN negb andb rank SFsub valid_binary] in *.
  destruct (canonical_bounds mx ex Hx) as (Hex & _ & _).
  destruct (canonical_bounds my ey Hy) as (Hey & _ & _).
  set (ez := Z.min ey ex).
  assert (Hez : -1074 <= ez) by (unfold ez; lia).
  rewrite (rank_aligned sy my ey ez), (rank_aligned sx mx ex ez) by (unfold ez; lia).
  set (Y := cond_Zopp sy (Zpos (fst (shl_align my ey ez)))).
  set (X := cond_Zopp sx (Zpos (fst (shl_align mx ex ez)))).
  assert (Hp : 0 < 2 ^ (ez + 1074)) by (apply Z.pow_pos_nonneg; lia).
  assert (Hlt : (Y * 2 ^ (ez + 1074) <? X * 2 ^ (ez + 1074)) = (Y - X <? 0)).
  { destruct (Z.ltb_spec (Y - X) 0) as [H|H].
    - apply Z.ltb_lt. apply Z.mul_lt_mono_pos_r; [exact Hp|lia].
    - apply Z.ltb_ge. apply Z.mul_le_mono_nonneg_r; lia. }
  rewrite Hlt. unfold binary_normalize.
  destruct (Y - X) as [|z|z]; [reflexivity|..]; apply binary_round_sign; exact Hez.
Qed.

Lemma float_sub_ltb (a b : float) :
  PrimFloat.ltb (PrimFloat.sub b a) PrimFloat.zero = PrimFloat.ltb b a.
Proof.
  rewrite !ltb_spec, sub_spec. change (Prim2SF PrimFloat.zero) with (S754_zero false).
  apply SFsub_sign; apply Prim2SF_valid.
Qed.

Lemma float_ltb_irrefl (a : float) : PrimFloat.ltb a a = false.
Proof.
  rewrite ltb_spec, SFltb_rank by apply Prim2SF_valid.
  rewrite Z.ltb_irrefl. apply Bool.andb_false_r.
Qed.

Lemma float_ltb_trans (a b c : float) :
  PrimFloat.ltb a b = true -> PrimFloat.ltb b c = true -> PrimFloat.ltb a c = true.
Proof.
  rewrite !ltb_spec, !SFltb_rank by apply Prim2SF_valid.
  rewrite !Bool.andb_true_iff, !Z.ltb_lt.
  intros [[Ha Hb] Hab] [[_ Hc] Hbc]. repeat split; [exact Ha|exact Hc|lia].
Qed.

Lemma binary_round_sign_pos (s : bool) (m : positive) (e : Z) :
  -1074 <= e ->
  SFltb (S754_zero false) (binary_round prec emax s m e) = negb s.
Proof.
  intros He. unfold binary_round.
  destruct (shl_align m e (fexp prec emax (Zpos (digits2_pos m) + e))) as [mz ez] eqn:E.
  assert (Hez : -1074 <= ez).
  { unfold shl_align in E.
    destruct (fexp prec emax (Zpos (digits2_pos m) + e) - e) eqn:En;
      injection E as _ <-; try exact He.
    unfold fexp, emin, prec, emax. lia. }
  destruct (binary_round_aux_sign s mz ez loc_Exact Hez) as [(m' & e' & ->)| ->];
    destruct s; reflexivity.
Qed.

Lemma SFsub_sign_pos (x y : spec_float) :
  valid_binary x = true -> valid_binary y = true ->
  SFltb (S754_zero false) (SFsub prec emax y x) = SFltb x y.
Proof.
  intros Hx Hy.
  destruct y as [sy|sy| |sy my ey], x as [sx|sx| |sx mx ex];
    try (destruct sx; reflexivity); try (destruct sy; reflexivity);
    try (destruct sx, sy; reflexivity); try reflexivity.
  rewrite (SFltb_rank _ _ Hx Hy). cbn [isNaN negb andb rank SFsub valid_binary] in *.
  destruct (canonical_bounds mx ex Hx) as (Hex & _ & _).
  destruct (canonical_bounds my ey Hy) as (Hey & _ & _).
  set (ez := Z.min ey ex).
  assert (Hez : -1074 <= ez) by (unfold ez; lia).
  rewrite (rank_aligned sy my ey ez), (rank_aligned sx mx ex ez) by (unfold ez; lia).
  set (Y := cond_Zopp sy (Zpos (fst (shl_align my ey ez)))).
  set (X := cond_Zopp sx (Zpos (fst (shl_align mx ex ez)))).
  assert (Hp : 0 < 2 ^ (ez + 1074)) by (apply Z.pow_pos_nonneg; lia).
  assert (Hlt : (X * 2 ^ (ez + 1074) <? Y * 2 ^ (ez + 1074)) = (0 <? Y - X)).
  { destruct (Z.ltb_spec 0 (Y - X)) as [H|H].
    - apply Z.ltb_lt. apply Z.mul_lt_mono_pos_r; [exact Hp|lia].
    - apply Z.ltb_ge. apply Z.mul_le_mono_nonneg_r; lia. }
  rewrite Hlt. unfold binary_normalize.
  destruct (Y - X) as [|z|z]; [reflexivity|..];
    (rewrite binary_round_sign_pos by exact Hez); reflexivity.
Qed.

Lemma float_sub_gtb (a b : float) :
  PrimFloat.ltb PrimFloat.zero (PrimFloat.sub b a) = PrimFloat.ltb a b.
Proof.
  rewrite !ltb_spec, sub_spec. change (Prim2SF PrimFloat.zero) with (S754_zero false).
  apply SFsub_sign_pos; apply Prim2SF_valid.
Qed.

(** The comparison of two numbers, through their ranks. *)
Lemma float_ltb_rank (a b : float) :
  PrimFloat.ltb a b
  = negb (isNaN (Prim2SF a)) && negb (isNaN (Prim2SF b))
    && (rank (Prim2SF a) <? rank (Prim2SF b)).
Proof. rewrite ltb_spec. apply SFltb_rank; apply Prim2SF_valid. Qed.

(** A difference with itself that is not NaN is that of a number. *)
Lemma float_sub_self (a : float) :
  PrimFloat.sub a a <> PrimFloat.nan -> isNaN (Prim2SF a) = false.
Proof.
  intros H. destruct (isNaN (Prim2SF a)) eqn:E; [|reflexivity].
  exfalso. apply H. rewrite <- (SF2Prim_Prim2SF (PrimFloat.sub a a)), sub_spec.
  destruct (Prim2SF a); try discriminate. reflexivity.
Qed.

End Binary64Facts.

Lemma ExactNumber_safe : SafeIntegers ExactNumber ExactView.
Proof.
  constructor; simpl.
  - reflexivity.
  - intros z _. reflexivity.
  - intros a b _ _ _. reflexivity.
Qed.

Lemma FloatNumber_order : OrderLaws FloatNumber.
Proof.
  constructor; simpl.
  - exact Binary64Facts.float_sub_ltb.
  - exact Binary64Facts.float_ltb_irrefl.
  - exact Binary64Facts.float_ltb_trans.
Qed.

(** In binary64 a comparator [b - a] that never answers NaN is a consistent
    comparator. *)
Lemma binary64_comparator_consistent {A} (f : A -> float) (l : list A) :
  neverNaN (N := FloatNumber) (fun a b => PrimFloat.sub (f b) (f a)) l ->
  consistentComparator (N := FloatNumber) (fun a b => PrimFloat.sub (f b) (f a)) l.
Proof.
  intros Hnan.
  assert (Hnum : forall a, In a l -> Binary64.isNaN (FloatOps.Prim2SF (f a)) = false).
  { intros a Ha. apply Binary64Facts.float_sub_self. exact (Hnan a a Ha Ha). }
  assert (Hb : forall a b, In a l -> In b l ->
            rankedBefore (N := FloatNumber) (fun a b => PrimFloat.sub (f b) (f a)) a b
            = (Binary64.rank (FloatOps.Prim2SF (f b)) <? Binary64.rank (FloatOps.Prim2SF (f a)))%Z).
  { intros a b Ha Hb. unfold rankedBefore. cbn [ltb zero FloatNumber].
    rewrite Binary64Facts.float_sub_ltb, Binary64Facts.float_ltb_rank.
    rewrite (Hnum a Ha), (Hnum b Hb). reflexivity. }
  assert (Ha : forall a b, In a l -> In b l ->
            rankedAfter (N := FloatNumber) (fun a b => PrimFloat.sub (f b) (f a)) a b
            = (Binary64.rank (FloatOps.Prim2SF (f a)) <? Binary64.rank (FloatOps.Prim2SF (f b)))%Z).
  { intros a b Ia Ib. unfold rankedAfter. cbn [ltb zero FloatNumber].
    rewrite Binary64Facts.float_sub_gtb, Binary64Facts.float_ltb_rank.
    rewrite (Hnum a Ia), (Hnum b Ib). reflexivity. }
  split; [exact Hnan|]. unfold rankedLevel.
  split; [|split; [|split; [|split]]].
  - intros a Ia. rewrite (Hb a a Ia Ia), (Ha a a Ia Ia), Z.ltb_irrefl. reflexivity.
  - intros a b Ia Ib. rewrite (Hb a b Ia Ib), (Ha a b Ia Ib), (Hb b a Ib Ia), (Ha b a Ib Ia).
    rewrite !andb_true_iff, !negb_true_iff. tauto.
  - intros a b c Ia Ib Ic.
    rewrite (Hb a b Ia Ib), (Ha a b Ia Ib), (Hb b c Ib Ic), (Ha b c Ib Ic),
            (Hb a c Ia Ic), (Ha a c Ia Ic).
    rewrite !andb_true_iff, !negb_true_iff, !Z.ltb_ge. lia.
  - intros a b c Ia Ib Ic.
    rewrite (Hb a b Ia Ib), (Hb b c Ib Ic), (Hb a c Ia Ic), !Z.ltb_lt. lia.
  - intros a b c Ia Ib Ic.
    rewrite (Ha a b Ia Ib), (Ha b c Ib Ic), (Ha a c Ia Ic), !Z.ltb_lt. lia.
Qed.


(** ** Strings *)

Module StrFacts.
Import Str.

Lemma isEmpty_spec (s : string) : isEmpty s = true <-> s = EmptyString.
Proof. destruct s; simpl; split; congruence. Qed.

Lemma LF_isWhiteSpace : isWhiteSpace LF = true.
Proof. reflexivity. Qed.

Lemma comma_not_whiteSpace : isWhiteSpace comma = false.
Proof. reflexivity. Qed.

Lemma trimEnd_cons (c : ascii) (s : string) :
  trimEnd (String c s) =
  if isWhiteSpace c && isEmpty (trimEnd s) then EmptyString else String c (trimEnd s).
Proof. reflexivity. Qed.

(** A trimmed-at-the-end string is empty or has a character that is no white
    space, so trimming its start cannot empty it. *)
Lemma trimStart_trimEnd_empty (s : string) :
  isEmpty (trimStart (trimEnd s)) = isEmpty (trimEnd s).
Proof.
  induction s as [|c s IH]; [reflexivity|].
  rewrite trimEnd_cons.
  destruct (isWhiteSpace c) eqn:Hc; simpl.
  - destruct (isEmpty (trimEnd s)) eqn:He; simpl; [reflexivity|].
    rewrite Hc. rewrite IH. reflexivity.
  - rewrite Hc. reflexivity.
Qed.

Lemma trim_empty_iff (s : string) : isEmpty (trim s) = isEmpty (trimEnd s).
Proof. apply trimStart_trimEnd_empty. Qed.

Lemma trim_cons_ws (c : ascii) (s : string) :
  isWhiteSpace c = true -> trim (String c s) = trim s.
Proof.
  intros Hc. unfold trim. rewrite trimEnd_cons, Hc. simpl.
  destruct (isEmpty (trimEnd s)) eqn:He.
  - apply isEmpty_spec in He. rewrite He. reflexivity.
  - simpl. rewrite Hc. reflexivity.
Qed.

Lemma split_not_nil (sep : ascii) (s : string) : split sep s <> [].
Proof.
  destruct s as [|c s]; simpl; [discriminate|].
  destruct (Ascii.eqb c sep); [discriminate|].
  destruct (split sep s); discriminate.
Qed.

Lemma split_cons_sep (sep : ascii) (s : string) :
  split sep (String sep s) = EmptyString :: split sep s.
Proof. simpl. rewrite Ascii.eqb_refl. reflexivity. Qed.

Lemma split_cons_other (sep c : ascii) (s : string) :
  Ascii.eqb c sep = false ->
  split sep (String c s) =
  String c (hd EmptyString (split sep s)) :: tl (split sep s).
Proof.
  intros H. simpl. rewrite H.
  destruct (split sep s) eqn:E; [|reflexivity].
  exfalso. exact (split_not_nil _ _ E).
Qed.

Lemma hd_tl_split (sep : ascii) (s : string) :
  split sep s = hd EmptyString (split sep s) :: tl (split sep s).
Proof.
  destruct (split sep s) eqn:E; [|reflexivity].
  exfalso. exact (split_not_nil _ _ E).
Qed.

(** *** Trimming a line does not change its trimmed fields *)

Lemma fields_trimStart (sep : ascii) (s : string) :
  isWhiteSpace sep = false ->
  map trim (split sep (trimStart s)) = map trim (split sep s).
Proof.
  intros Hsep. induction s as [|c s IH]; [reflexivity|].
  simpl trimStart. destruct (isWhiteSpace c) eqn:Hc; [|reflexivity].
  assert (Hne : Ascii.eqb c sep = false).
  { destruct (Ascii.eqb_spec c sep) as [->|]; congruence. }
  rewrite IH, (split_cons_other _ _ _ Hne).
  rewrite (hd_tl_split sep s) at 1. simpl.
  rewrite (trim_cons_ws _ _ Hc). reflexivity.
Qed.

Lemma fields_trimEnd (sep : ascii) (s : string) :
  isWhiteSpace sep = false ->
  map trimEnd (split sep (trimEnd s)) = map trimEnd (split sep s).
Proof.
  intros Hsep. induction s as [|c s IH]; [reflexivity|].
  rewrite trimEnd_cons.
  destruct (Ascii.eqb_spec c sep) as [->|Hne].
  - rewrite Hsep. simpl andb. cbv iota.
    rewrite !split_cons_sep. simpl. rewrite IH. reflexivity.
  - apply Ascii.eqb_neq in Hne.
    rewrite (split_cons_other _ _ s Hne).
    rewrite (hd_tl_split sep s), (hd_tl_split sep (trimEnd s)) in IH.
    simpl in IH. injection IH as IHh IHt.
    destruct (isWhiteSpace c && isEmpty (trimEnd s)) eqn:Hb.
    + apply andb_true_iff in Hb. destruct Hb as [Hc He].
      apply isEmpty_spec in He. rewrite He in IHh, IHt. simpl in IHh, IHt.
      cbn [map split]. rewrite trimEnd_cons, <- IHh, Hc. simpl.
      destruct (tl (split sep s)); [reflexivity|discriminate].
    + rewrite (split_cons_other _ _ _ Hne). cbn [map].
      rewrite !trimEnd_cons, IHh, IHt. reflexivity.
Qed.

Lemma fields_trim (sep : ascii) (s : string) :
  isWhiteSpace sep = false ->
  map trim (split sep (trim s)) = map trim (split sep s).
Proof.
  intros Hsep. unfold trim at 2. rewrite (fields_trimStart _ _ Hsep).
  assert (E : forall l, map trim l = map trimStart (map trimEnd l)).
  { intros l. rewrite map_map. reflexivity. }
  rewrite !E, (fields_trimEnd _ _ Hsep). reflexivity.
Qed.

(** *** Trimming a text does not change its trimmed non-blank lines *)

Lemma nonBlank_cons_ws (c : ascii) (s : string) :
  isWhiteSpace c = true -> nonBlank (String c s) = nonBlank s.
Proof. intros Hc. unfold nonBlank. rewrite (trim_cons_ws _ _ Hc). reflexivity. Qed.

Lemma nonBlank_trimEnd (s : string) : nonBlank s = negb (isEmpty (trimEnd s)).
Proof. unfold nonBlank. rewrite trim_empty_iff. reflexivity. Qed.

Lemma lines_trimStart (s : string) :
  map trim (filter nonBlank (split LF (trimStart s)))
  = map trim (filter nonBlank (split LF s)).
Proof.
  induction s as [|c s IH]; [reflexivity|].
  simpl trimStart. destruct (isWhiteSpace c) eqn:Hc; [|reflexivity].
  rewrite IH. destruct (Ascii.eqb_spec c LF) as [->|Hne].
  - rewrite split_cons_sep. reflexivity.
  - apply Ascii.eqb_neq in Hne. rewrite (split_cons_other _ _ _ Hne).
    rewrite (hd_tl_split LF s) at 1. cbn [filter].
    rewrite (nonBlank_cons_ws _ _ Hc).
    destruct (nonBlank (hd EmptyString (split LF s))); [|reflexivity].
    cbn [map]. rewrite (trim_cons_ws _ _ Hc). reflexivity.
Qed.

Lemma sameLines_filter (p q : list string) :
  p <> [] -> q <> [] -> sameLines p q ->
  map trimEnd (filter nonBlank p) = map trimEnd (filter nonBlank q).
Proof.
  intros Hp Hq [Hh Ht].
  destruct p as [|a p]; [congruence|]. destruct q as [|b q]; [congruence|].
  simpl in *. rewrite (nonBlank_trimEnd a), (nonBlank_trimEnd b), Hh.
  destruct (isEmpty (trimEnd b)); simpl; congruence.
Qed.

Lemma lines_trimEnd_inv (sep : ascii) (s : string) :
  sameLines (split sep (trimEnd s)) (split sep s).
Proof.
  induction s as [|c s [IHh IHt]]; [split; reflexivity|].
  rewrite trimEnd_cons.
  destruct (isWhiteSpace c && isEmpty (trimEnd s)) eqn:Hb.
  - apply andb_true_iff in Hb. destruct Hb as [Hc He].
    apply isEmpty_spec in He. rewrite He in IHh, IHt. simpl in IHh, IHt.
    assert (Hblank : nonBlank (hd EmptyString (split sep s)) = false).
    { rewrite nonBlank_trimEnd, <- IHh. reflexivity. }
    assert (Htl : filter nonBlank (tl (split sep s)) = []).
    { destruct (filter nonBlank (tl (split sep s))); [reflexivity|discriminate]. }
    destruct (Ascii.eqb_spec c sep) as [->|Hne].
    + rewrite split_cons_sep. split; [reflexivity|].
      cbn [tl split hd filter map]. rewrite (hd_tl_split sep s). cbn [filter].
      rewrite Hblank, Htl. reflexivity.
    + apply Ascii.eqb_neq in Hne. rewrite (split_cons_other _ _ _ Hne).
      split.
      * cbn [hd split]. rewrite trimEnd_cons, <- IHh, Hc. reflexivity.
      * cbn [tl split filter map]. rewrite Htl. reflexivity.
  - destruct (Ascii.eqb_spec c sep) as [->|Hne].
    + rewrite !split_cons_sep. split; [reflexivity|].
      cbn [tl]. apply sameLines_filter; try apply split_not_nil.
      split; assumption.
    + apply Ascii.eqb_neq in Hne. rewrite !(split_cons_other _ _ _ Hne).
      split.
      * cbn [hd]. rewrite !trimEnd_cons, IHh. reflexivity.
      * cbn [tl]. exact IHt.
Qed.

Lemma lines_trim (s : string) :
  map trim (filter nonBlank (split LF (trim s)))
  = map trim (filter nonBlank (split LF s)).
Proof.
  unfold trim at 2. rewrite lines_trimStart.
  assert (E : forall l, map trim l = map trimStart (map trimEnd l)).
  { intros l. rewrite map_map. reflexivity. }
  rewrite !E. f_equal.
  apply sameLines_filter; try apply split_not_nil.
  apply lines_trimEnd_inv.
Qed.

Lemma trimStart_idem (s : string) : trimStart (trimStart s) = trimStart s.
Proof.
  induction s as [|c s IH]; [reflexivity|].
  simpl. destruct (isWhiteSpace c) eqn:Hc; [exact IH|]. simpl. rewrite Hc. reflexivity.
Qed.

Lemma trimEnd_idem (s : string) : trimEnd (trimEnd s) = trimEnd s.
Proof.
  induction s as [|c s IH]; [reflexivity|].
  rewrite trimEnd_cons.
  destruct (isWhiteSpace c && isEmpty (trimEnd s)) eqn:Hb; [reflexivity|].
  rewrite trimEnd_cons, IH, Hb. reflexivity.
Qed.

(** Trimming the start of a string keeps its end trimmed. *)
Lemma trimEnd_trimStart (s : string) :
  trimEnd s = s -> trimEnd (trimStart s) = trimStart s.
Proof.
  induction s as [|c s IH]; [reflexivity|].
  rewrite trimEnd_cons.
  destruct (isWhiteSpace c && isEmpty (trimEnd s)) eqn:Hb; [discriminate|].
  intros E. injection E as E. simpl.
  destruct (isWhiteSpace c) eqn:Hc.
  - apply IH. exact E.
  - rewrite trimEnd_cons, Hc, E. reflexivity.
Qed.

Lemma trim_idem (s : string) : trim (trim s) = trim s.
Proof.
  unfold trim.
  rewrite (trimEnd_trimStart (trimEnd s) (trimEnd_idem s)).
  apply trimStart_idem.
Qed.

End StrFacts.

(** ** The parser *)

Section ParserFacts.
Context {N : Number}.
Variable numberValue : string -> num.


(** The row of an error is the number its message prints. *)
Lemma message_names_row (e : ParseError) (row : nat) :
  errorRow e = Some row ->
  (exists field,
     message e = ("Invalid number " ++ quote ++ field ++ quote
                  ++ " in row " ++ Str.ofNat row)%string)
  \/ (exists found expected,
        message e = ("Row " ++ Str.ofNat row ++ " has " ++ Str.ofNat found
                     ++ " values but expected " ++ Str.ofNat expected)%string).
Proof.
  destruct e as [|field r|r found expected]; simpl; [discriminate| |];
    intros [= <-]; [left; exists field|right; exists found, expected]; reflexivity.
Qed.

Lemma fields_length_trim (line : string) :
  List.length (fields (Str.trim line)) = List.length (fields line).
Proof.
  unfold fields.
  rewrite <- (length_map Str.trim (Str.split Str.comma (Str.trim line))).
  rewrite (StrFacts.fields_trim _ _ StrFacts.comma_not_whiteSpace).
  apply length_map.
Qed.

Lemma someField_map_trim (l : list string) :
  (exists field, In field l /\ notANumber numberValue field)
  <-> (exists g, In g (map Str.trim l) /\ parseFloat numberValue g = None).
Proof.
  split.
  - intros (f & Hin & Hf). exists (Str.trim f). split; [apply in_map; exact Hin|exact Hf].
  - intros (g & Hin & Hg). apply in_map_iff in Hin. destruct Hin as (f & <- & Hin).
    exists f. split; assumption.
Qed.

(** Whether a line is bad depends on the line up to trimming only. *)
Lemma badLine_trim_eq (width : nat) (a b : string) :
  Str.trim a = Str.trim b -> badLine numberValue width a -> badLine numberValue width b.
Proof.
  intros E [H|H].
  - left. apply someField_map_trim. apply someField_map_trim in H.
    unfold fields in *.
    rewrite <- (StrFacts.fields_trim _ b StrFacts.comma_not_whiteSpace), <- E.
    rewrite (StrFacts.fields_trim _ a StrFacts.comma_not_whiteSpace). exact H.
  - right. rewrite <- (fields_length_trim b), <- E, fields_length_trim. exact H.
Qed.

Lemma badLine_trim (width : nat) (line : string) :
  badLine numberValue width (Str.trim line) <-> badLine numberValue width line.
Proof.
  assert (E : Str.trim (Str.trim line) = Str.trim line).
  { apply StrFacts.trim_idem. }
  split; apply badLine_trim_eq; congruence.
Qed.

(** The [map] over the fields of row [i]: it returns one number per field,
    or throws at the first field that is no number. *)
Lemma mapM_parseValue (i : nat) (l : list string) :
  (exists values, mapM (parseValue numberValue i) l = Ok values
     /\ List.length values = List.length l
     /\ (forall field, In field l -> ~ notANumber numberValue field))
  \/ (exists field, mapM (parseValue numberValue i) l
                     = Throw (InvalidNumber (Str.trim field) (i + 1))
     /\ In field l /\ notANumber numberValue field).
Proof.
  induction l as [|f l IH].
  - left. exists []. simpl. repeat split. intros ? [].
  - simpl. unfold parseValue at 1 3.
    destruct (parseFloat numberValue (Str.trim f)) as [x|] eqn:Hf.
    + simpl. destruct IH as [(vs & -> & Hlen & Hall)|(g & -> & Hin & Hg)].
      * left. exists (x :: vs). simpl. repeat split; [congruence|].
        intros field [<-|Hin]; [|apply Hall; exact Hin].
        unfold notANumber. congruence.
      * right. exists g. simpl. repeat split; [right; exact Hin|exact Hg].
    + right. exists f. simpl. repeat split; [left; reflexivity|exact Hf].
Qed.

(** The outcome of the row loop started at index [i]: either every non-blank
    line is good and a table is returned, or the loop throws at the first
    non-blank bad line, naming [i + k + 1] where [k] is that line's offset. *)
Lemma parseRows_outcome (players0 : list string) (rest : list string) :
  forall (i : nat) (acc : list (list num)),
  (exists table, parseRows numberValue players0 i rest acc = Ok table
     /\ (forall line, In line rest -> nonBlank line = true ->
          ~ badLine numberValue (List.length players0) line))
  \/ (exists e k line, parseRows numberValue players0 i rest acc = Throw e
     /\ errorRow e = Some (i + k + 1)
     /\ nth_error rest k = Some line
     /\ nonBlank line = true
     /\ badLine numberValue (List.length players0) line
     /\ (forall j line', j < k -> nth_error rest j = Some line' ->
          nonBlank line' = true -> ~ badLine numberValue (List.length players0) line')).
Proof.
  induction rest as [|l rest IH]; intros i acc.
  - left. exists acc. split; [reflexivity|]. intros ? [].
  - cbn [parseRows].
    destruct (Str.isEmpty (Str.trim l)) eqn:Hblank.
    + (* a blank line is skipped *)
      assert (Hnb : nonBlank l = false) by (unfold nonBlank; rewrite Hblank; reflexivity).
      destruct (IH (S i) acc) as [(t & E & Hall)|(e & k & line & E & Hrow & Hk & Hnbk & Hbad & Hfirst)].
      * left. exists t. split; [exact E|].
        intros line [<-|Hin] Hl; [congruence|]. apply Hall; assumption.
      * right. exists e, (S k), line. repeat split; try assumption.
        -- rewrite Hrow. f_equal. lia.
        -- intros [|j] line' Hj Hnth Hl; simpl in Hnth.
           ++ injection Hnth as <-. congruence.
           ++ apply (Hfirst j); [lia|assumption..].
    + assert (Hnb : nonBlank l = true) by (unfold nonBlank; rewrite Hblank; reflexivity).
      destruct (mapM_parseValue i (Str.split Str.comma (Str.trim l)))
        as [(vs & -> & Hlen & Hall)|(f & -> & Hin & Hf)].
      * cbn [bind].
        destruct (Nat.eqb_spec (List.length vs) (List.length players0)) as [Heq|Hne].
        -- (* a good line *)
           assert (Hgood : ~ badLine numberValue (List.length players0) l).
           { intros Hb. apply badLine_trim in Hb. destruct Hb as [(g & Hg & Hng)|Hb].
             - exact (Hall g Hg Hng).
             - apply Hb. unfold fields. congruence. }
           destruct (IH (S i) (acc ++ [vs]))
             as [(t & E & Hgo)|(e & k & line & E & Hrow & Hk & Hnbk & Hbad & Hfirst)].
           ++ left. exists t. split; [exact E|].
              intros line [<-|Hl] Hline; [exact Hgood|apply Hgo; assumption].
           ++ right. exists e, (S k), line. repeat split; try assumption.
              ** rewrite Hrow. f_equal. lia.
              ** intros [|j] line' Hj Hnth Hl; simpl in Hnth.
                 --- injection Hnth as <-. exact Hgood.
                 --- apply (Hfirst j); [lia|assumption..].
        -- (* a line of the wrong width *)
           right. exists (RowLength (i + 1) (List.length vs) (List.length players0)), 0, l.
           repeat split; try assumption.
           ++ simpl. f_equal. lia.
           ++ apply badLine_trim. right. unfold fields. congruence.
           ++ intros j line' Hj. lia.
      * (* a field that is no number *)
        right. exists (InvalidNumber (Str.trim f) (i + 1)), 0, l.
        repeat split; try assumption.
        -- simpl. f_equal. lia.
        -- apply badLine_trim. left. exists f. split; assumption.
        -- intros j line' Hj. lia.
Qed.

Lemma map_eq_nth_error {A B} (f : A -> B) (l l' : list A) (k : nat) (x : A) :
  map f l = map f l' -> nth_error l k = Some x ->
  exists x', nth_error l' k = Some x' /\ f x = f x'.
Proof.
  intros E. revert l' E k. induction l as [|a l IH]; intros [|a' l'] E [|k] H;
    simpl in *; try discriminate.
  - injection H as <-. injection E as E _. exists a'. split; [reflexivity|exact E].
  - injection E as _ E. exact (IH _ E _ H).
Qed.

Lemma map_eq_tl {A B} (f : A -> B) (l l' : list A) :
  map f l = map f l' -> map f (tl l) = map f (tl l').
Proof. destruct l, l'; simpl; congruence. Qed.

Lemma map_eq_hd {A B} (f : A -> B) (d : A) (l l' : list A) :
  map f l = map f l' -> f (hd d l) = f (hd d l').
Proof. destruct l, l'; simpl; congruence. Qed.

Lemma nth_error_tl {A} (l : list A) (k : nat) :
  nth_error (tl l) k = nth_error l (S k).
Proof. destruct l; [destruct k|]; reflexivity. Qed.

Lemma codeLines_trim (content : string) :
  map Str.trim (codeLines content) = map Str.trim (nonBlankLines content).
Proof. apply StrFacts.lines_trim. Qed.

Lemma codeLines_length (content : string) :
  List.length (codeLines content) = List.length (nonBlankLines content).
Proof.
  rewrite <- (length_map Str.trim (codeLines content)), codeLines_trim.
  apply length_map.
Qed.

Lemma codeLines_nonBlank (content line : string) :
  In line (tl (codeLines content)) -> nonBlank line = true.
Proof.
  intros H. assert (Hin : In line (codeLines content)).
  { destruct (codeLines content); [destruct H|right; exact H]. }
  apply filter_In in Hin. apply Hin.
Qed.

(** The width the code compares each row with is the header's field count. *)
Lemma players_width (content : string) :
  List.length (map Str.trim (Str.split Str.comma (hd EmptyString (codeLines content))))
  = List.length (fields (headerLine content)).
Proof.
  rewrite length_map.
  change (Str.split Str.comma (hd EmptyString (codeLines content)))
    with (fields (hd EmptyString (codeLines content))).
  rewrite <- fields_length_trim, <- (fields_length_trim (headerLine content)).
  unfold headerLine.
  rewrite (map_eq_hd Str.trim EmptyString _ _ (codeLines_trim content)).
  reflexivity.
Qed.

(** [parseCsvContent] in terms of the row loop. *)
Lemma parseCsvContent_unfold (content : string) :
  parseCsvContent numberValue content =
  if (List.length (nonBlankLines content) <? 2)%nat then Throw TooFewLines
  else bind (parseRows numberValue
               (map Str.trim (Str.split Str.comma (hd EmptyString (codeLines content))))
               1 (tl (codeLines content)) [])
            (fun table =>
               Ok (map Str.trim (Str.split Str.comma (hd EmptyString (codeLines content))),
                   table)).
Proof.
  unfold parseCsvContent. fold (codeLines content).
  rewrite codeLines_length. reflexivity.
Qed.

Lemma parseCsvContent_throws_iff (content : string) :
  (exists e, parseCsvContent numberValue content = Throw e)
  <-> malformed numberValue content.
Proof.
  rewrite parseCsvContent_unfold. unfold malformed, tooFewLines.
  destruct (Nat.ltb_spec (List.length (nonBlankLines content)) 2) as [Hlt|Hge].
  { split; [left; exact Hlt|exists TooFewLines; reflexivity]. }
  destruct (parseRows_outcome
              (map Str.trim (Str.split Str.comma (hd EmptyString (codeLines content))))
              (tl (codeLines content)) 1 [])
    as [(t & -> & Hall)|(e' & k & line & -> & Hrow & Hk & Hnb & Hbad & Hfirst)];
    cbn [bind]; rewrite players_width in *.
  - (* every row is good *)
    assert (Hgood : forall line', In line' (dataLines content) ->
              ~ badLine numberValue (List.length (fields (headerLine content))) line').
    { intros line' Hin Hb.
      apply (in_map Str.trim) in Hin. unfold dataLines in Hin.
      rewrite <- (map_eq_tl _ _ _ (codeLines_trim content)) in Hin.
      apply in_map_iff in Hin. destruct Hin as (line0 & E & Hin0).
      apply (Hall line0 Hin0 (codeLines_nonBlank _ _ Hin0)).
      exact (badLine_trim_eq _ _ _ (eq_sym E) Hb). }
    split; [intros [e He]; discriminate|].
    intros [Hlt|[(line' & Hin & Hw)|(line' & f & Hin & Hf & Hn)]]; [lia| |].
    + exfalso. apply (Hgood line' Hin). right. exact Hw.
    + exfalso. apply (Hgood line' Hin). left. exists f. split; assumption.
  - (* some row is bad *)
    split; [intros _|intros _; exists e'; reflexivity].
    right. rewrite nth_error_tl in Hk.
    destruct (map_eq_nth_error _ _ _ _ _ (codeLines_trim content) Hk) as (line' & Hk' & E).
    assert (Hin : In line' (dataLines content)).
    { unfold dataLines. rewrite <- nth_error_tl in Hk'. exact (nth_error_In _ _ Hk'). }
    destruct (badLine_trim_eq _ _ _ E Hbad) as [(f & Hf & Hn)|Hw].
    + right. exists line', f. repeat split; assumption.
    + left. exists line'. split; assumption.
Qed.

End ParserFacts.

(** ** Dictionaries *)

Module JsObjectFacts.
Import JsObject.

Lemma memb_spec (k : string) (l : list string) : memb k l = true <-> In k l.
Proof.
  induction l as [|x l IH]; simpl; [split; [discriminate|intros []]|].
  rewrite orb_true_iff, IH, String.eqb_eq. reflexivity.
Qed.

Lemma memb_false (k : string) (l : list string) : memb k l = false <-> ~ In k l.
Proof. rewrite <- memb_spec. destruct (memb k l); split; congruence. Qed.

Lemma nodupb_spec (l : list string) : nodupb l = true <-> NoDup l.
Proof.
  induction l as [|x l IH]; simpl; [split; [constructor|reflexivity]|].
  rewrite andb_true_iff, negb_true_iff, memb_false, IH. split.
  - intros [H1 H2]. constructor; assumption.
  - intros H. inversion H. split; assumption.
Qed.


Section Facts.
Context {V : Type}.
Implicit Types (o : t V) (k : string) (v : V).

Lemma get_Some_In k o v : get k o = Some v -> In (k, v) o.
Proof.
  induction o as [|[k' v'] o IH]; simpl; [discriminate|].
  destruct (String.eqb_spec k' k) as [->|Hne].
  - intros [= ->]. left. reflexivity.
  - intros H. right. apply IH. exact H.
Qed.

Lemma get_None k o : get k o = None <-> ~ In k (keys o).
Proof.
  induction o as [|[k' v'] o IH]; simpl; [split; [intros _ []|reflexivity]|].
  destruct (String.eqb_spec k' k) as [->|Hne].
  - split; [discriminate|]. intros H. exfalso. apply H. left. reflexivity.
  - rewrite IH. split; [intros H [E|Hin]; [congruence|exact (H Hin)]|].
    intros H Hin. apply H. right. exact Hin.
Qed.

Lemma has_spec k o : has k o = true <-> In k (keys o).
Proof.
  unfold has. destruct (get k o) eqn:E.
  - split; [intros _|reflexivity].
    apply get_Some_In in E. apply (in_map fst) in E. exact E.
  - apply get_None in E. split; [discriminate|intros H; exfalso; exact (E H)].
Qed.

Lemma has_false k o : has k o = false <-> ~ In k (keys o).
Proof. rewrite <- has_spec. destruct (has k o); split; congruence. Qed.

Lemma In_get k v o : NoDup (keys o) -> In (k, v) o -> get k o = Some v.
Proof.
  induction o as [|[k' v'] o IH]; simpl; [intros _ []|].
  intros Hnd [E|Hin]; inversion Hnd as [|? ? Hnotin Hnd']; subst.
  - injection E as -> ->. rewrite String.eqb_refl. reflexivity.
  - destruct (String.eqb_spec k' k) as [->|Hne].
    + exfalso. apply Hnotin. apply (in_map fst) in Hin. exact Hin.
    + apply IH; assumption.
Qed.

(** *** [replace] *)

Lemma keys_replace k v o : keys (replace k v o) = keys o.
Proof.
  induction o as [|[k' v'] o IH]; simpl; [reflexivity|].
  destruct (String.eqb_spec k' k) as [->|Hne]; simpl; [reflexivity|].
  rewrite IH. reflexivity.
Qed.

Lemma get_replace_same k v o : has k o = true -> get k (replace k v o) = Some v.
Proof.
  unfold has. induction o as [|[k' v'] o IH]; simpl; [discriminate|].
  destruct (String.eqb_spec k' k) as [->|Hne]; simpl.
  - rewrite String.eqb_refl. reflexivity.
  - apply String.eqb_neq in Hne. rewrite Hne. exact IH.
Qed.

Lemma get_replace_other k k' v o : k' <> k -> get k' (replace k v o) = get k' o.
Proof.
  intros Hne. induction o as [|[k0 v0] o IH]; simpl; [reflexivity|].
  destruct (String.eqb_spec k0 k) as [->|Hne0]; simpl.
  - apply not_eq_sym in Hne. apply String.eqb_neq in Hne. rewrite Hne. reflexivity.
  - rewrite IH. reflexivity.
Qed.

(** *** [insertIndex] *)

Lemma keys_insertIndex n k v o : Permutation (keys (insertIndex n k v o)) (k :: keys o).
Proof.
  induction o as [|[k' v'] o IH]; simpl; [reflexivity|].
  destruct (arrayIndex k') as [m|]; [|reflexivity].
  destruct (m <? n)%N; [|reflexivity].
  simpl. rewrite IH. apply perm_swap.
Qed.

Lemma get_insertIndex_same n k v o :
  has k o = false -> get k (insertIndex n k v o) = Some v.
Proof.
  unfold has. induction o as [|[k' v'] o IH]; simpl.
  - rewrite String.eqb_refl. reflexivity.
  - destruct (String.eqb_spec k' k) as [->|Hne]; [discriminate|].
    intros H. apply String.eqb_neq in Hne.
    destruct (arrayIndex k') as [m|]; [destruct (m <? n)%N|]; simpl;
      rewrite ?String.eqb_refl, ?Hne; auto.
Qed.

Lemma get_insertIndex_other n k k' v o :
  k' <> k -> get k' (insertIndex n k v o) = get k' o.
Proof.
  intros Hne. apply not_eq_sym in Hne. apply String.eqb_neq in Hne.
  induction o as [|[k0 v0] o IH]; simpl; [rewrite Hne; reflexivity|].
  destruct (arrayIndex k0) as [m|]; [destruct (m <? n)%N|]; simpl;
    rewrite ?Hne, ?IH; reflexivity.
Qed.

(** *** [set] *)

Lemma get_app_not_in k o o' : has k o = false -> get k (o ++ o') = get k o'.
Proof.
  unfold has. induction o as [|[k0 v0] o IH]; simpl; [reflexivity|].
  destruct (String.eqb k0 k); [discriminate|exact IH].
Qed.

Lemma get_app_other k k' v o : k' <> k -> get k' (o ++ [(k, v)]) = get k' o.
Proof.
  intros Hne. apply not_eq_sym in Hne. apply String.eqb_neq in Hne.
  induction o as [|[k0 v0] o IH]; simpl; [rewrite Hne; reflexivity|].
  rewrite IH. reflexivity.
Qed.

Lemma get_set_same k v o : get k (set k v o) = Some v.
Proof.
  unfold set. destruct (has k o) eqn:Hh.
  - apply get_replace_same. exact Hh.
  - destruct (arrayIndex k).
    + apply get_insertIndex_same. exact Hh.
    + rewrite (get_app_not_in _ _ _ Hh). simpl. rewrite String.eqb_refl. reflexivity.
Qed.

Lemma get_set_other k k' v o : k' <> k -> get k' (set k v o) = get k' o.
Proof.
  intros Hne. unfold set. destruct (has k o).
  - apply get_replace_other. exact Hne.
  - destruct (arrayIndex k).
    + apply get_insertIndex_other. exact Hne.
    + apply get_app_other. exact Hne.
Qed.

Lemma keys_set_has k v o : has k o = true -> keys (set k v o) = keys o.
Proof. intros H. unfold set. rewrite H. apply keys_replace. Qed.

Lemma keys_set_new k v o :
  has k o = false -> Permutation (keys (set k v o)) (k :: keys o).
Proof.
  intros H. unfold set. rewrite H. destruct (arrayIndex k).
  - apply keys_insertIndex.
  - unfold keys. rewrite map_app. simpl. symmetry. apply Permutation_cons_append.
Qed.

Lemma keys_set_name k v o :
  has k o = false -> arrayIndex k = None -> set k v o = o ++ [(k, v)].
Proof. intros H E. unfold set. rewrite H, E. reflexivity. Qed.

Lemma In_keys_set k k' v o : In k' (keys (set k v o)) <-> k' = k \/ In k' (keys o).
Proof.
  destruct (has k o) eqn:Hh.
  - rewrite (keys_set_has _ _ _ Hh). apply has_spec in Hh.
    split; [intros H; right; exact H|intros [->|H]; assumption].
  - pose proof (keys_set_new k v o Hh) as P. split.
    + intros H. apply (Permutation_in _ P) in H. destruct H as [<-|H]; auto.
    + intros H. apply (Permutation_in _ (Permutation_sym P)).
      destruct H as [->|H]; [left; reflexivity|right; exact H].
Qed.

Lemma NoDup_keys_set k v o : NoDup (keys o) -> NoDup (keys (set k v o)).
Proof.
  intros Hnd. destruct (has k o) eqn:Hh.
  - rewrite (keys_set_has _ _ _ Hh). exact Hnd.
  - apply (Permutation_NoDup (Permutation_sym (keys_set_new k v o Hh))).
    constructor; [apply has_false; exact Hh|exact Hnd].
Qed.

Lemma In_replace k v o e : In e (replace k v o) -> e = (k, v) \/ In e o.
Proof.
  induction o as [|[k0 v0] o IH]; simpl; [intros []|].
  destruct (String.eqb k0 k); simpl.
  - intros [<-|H]; [left; reflexivity|right; right; exact H].
  - intros [<-|H]; [right; left; reflexivity|].
    destruct (IH H) as [->|H']; [left; reflexivity|right; right; exact H'].
Qed.

Lemma In_insertIndex n k v o e : In e (insertIndex n k v o) -> e = (k, v) \/ In e o.
Proof.
  induction o as [|[k0 v0] o IH]; simpl.
  - intros [<-|[]]. left. reflexivity.
  - destruct (arrayIndex k0) as [m|]; [destruct (m <? n)%N|]; simpl;
      try (intros [<-|H]; [left; reflexivity|right; exact H]).
    intros [<-|H]; [right; left; reflexivity|].
    destruct (IH H) as [->|H']; [left; reflexivity|right; right; exact H'].
Qed.

Lemma In_set k v o e : In e (set k v o) -> e = (k, v) \/ In e o.
Proof.
  unfold set. destruct (has k o); [apply In_replace|].
  destruct (arrayIndex k); [apply In_insertIndex|].
  intros H. apply in_app_or in H. destruct H as [H|[<-|[]]]; auto.
Qed.

(** *** [modify] *)

Lemma keys_modify k (f : V -> V) o : keys (modify k f o) = keys o.
Proof.
  induction o as [|[k' v'] o IH]; simpl; [reflexivity|].
  destruct (String.eqb k' k); simpl; [reflexivity|]. rewrite IH. reflexivity.
Qed.

Lemma get_modify_same k (f : V -> V) o :
  get k (modify k f o) = option_map f (get k o).
Proof.
  induction o as [|[k' v'] o IH]; simpl; [reflexivity|].
  destruct (String.eqb k' k) eqn:E; simpl; rewrite E; [reflexivity|exact IH].
Qed.

Lemma get_modify_other k k' (f : V -> V) o :
  k' <> k -> get k' (modify k f o) = get k' o.
Proof.
  intros Hne. induction o as [|[k0 v0] o IH]; simpl; [reflexivity|].
  destruct (String.eqb_spec k0 k) as [->|Hne0]; simpl.
  - apply not_eq_sym in Hne. apply String.eqb_neq in Hne. rewrite Hne. reflexivity.
  - rewrite IH. reflexivity.
Qed.

End Facts.
End JsObjectFacts.

(** ** The order of session identifiers *)

Module StringOrder.

Lemma ascii_compare_refl (a : ascii) : Ascii.compare a a = Eq.
Proof. apply N.compare_refl. Qed.

Lemma ascii_compare_lt_trans (a b c : ascii) :
  Ascii.compare a b = Lt -> Ascii.compare b c = Lt -> Ascii.compare a c = Lt.
Proof.
  unfold Ascii.compare. rewrite !N.compare_lt_iff. apply N.lt_trans.
Qed.

Lemma compare_refl (s : string) : String.compare s s = Eq.
Proof.
  induction s as [|c s IH]; [reflexivity|].
  simpl. rewrite ascii_compare_refl. exact IH.
Qed.

Lemma compare_lt_trans (a : string) :
  forall b c, String.compare a b = Lt -> String.compare b c = Lt ->
              String.compare a c = Lt.
Proof.
  induction a as [|x a IH]; intros [|y b] [|z c]; simpl; try congruence.
  destruct (Ascii.compare x y) eqn:Hxy; try discriminate;
    destruct (Ascii.compare y z) eqn:Hyz; try discriminate.
  - apply Ascii.compare_eq_iff in Hxy, Hyz. subst. rewrite ascii_compare_refl. apply IH.
  - apply Ascii.compare_eq_iff in Hxy. subst. rewrite Hyz. reflexivity.
  - apply Ascii.compare_eq_iff in Hyz. subst. rewrite Hxy. reflexivity.
  - rewrite (ascii_compare_lt_trans _ _ _ Hxy Hyz). reflexivity.
Qed.

Lemma ltb_irrefl (s : string) : String.ltb s s = false.
Proof. unfold String.ltb. rewrite compare_refl. reflexivity. Qed.

Lemma ltb_trans (a b c : string) :
  String.ltb a b = true -> String.ltb b c = true -> String.ltb a c = true.
Proof.
  unfold String.ltb. intros Hab Hbc.
  destruct (String.compare a b) eqn:E1; try discriminate.
  destruct (String.compare b c) eqn:E2; try discriminate.
  rewrite (compare_lt_trans _ _ _ E1 E2). reflexivity.
Qed.

(** The running maximum is one of the identifiers and none exceeds it. *)
Lemma latest_max (ds : list string) :
  forall d, In (latest d ds) (d :: ds)
            /\ forall d', In d' (d :: ds) -> String.ltb (latest d ds) d' = false.
Proof.
  induction ds as [|x ds IH]; intros d.
  - simpl. split; [left; reflexivity|]. intros d' [<-|[]]. apply ltb_irrefl.
  - unfold latest. cbn [fold_left]. fold (latest (if String.ltb d x then x else d) ds).
    destruct (IH (if String.ltb d x then x else d)) as [Hin Hmax].
    split.
    + destruct Hin as [E|Hin]; [|right; right; exact Hin].
      rewrite <- E. destruct (String.ltb d x); [right; left|left]; reflexivity.
    + intros d' [<-|[<-|Hd']].
      * destruct (String.ltb d x) eqn:Hdx; [|apply Hmax; left; reflexivity].
        destruct (String.ltb (latest x ds) d) eqn:Hl; [|reflexivity].
        rewrite <- (Hmax x (or_introl eq_refl)).
        symmetry. exact (ltb_trans _ _ _ Hl Hdx).
      * destruct (String.ltb d x) eqn:Hdx; [apply Hmax; left; reflexivity|].
        destruct (String.ltb (latest d ds) x) eqn:Hl; [|reflexivity].
        pose proof (Hmax d (or_introl eq_refl)) as Hd.
        (* d <= latest < x and not d < x: the order is total *)
        unfold String.ltb in *.
        rewrite String.compare_antisym in Hd.
        destruct (String.compare d (latest d ds)) eqn:E1; simpl in Hd; try discriminate.
        -- apply String.compare_eq_iff in E1. rewrite <- E1 in Hl. congruence.
        -- destruct (String.compare (latest d ds) x) eqn:E2; try discriminate.
           rewrite (compare_lt_trans _ _ _ E1 E2) in Hdx. discriminate.
      * apply Hmax. right. exact Hd'.
Qed.

End StringOrder.

(** ** [calculatePlayerTotals] *)

Section TotalsFacts.
Context {N : Number}.
Import JsObject JsObjectFacts.

(** A player whose name [Object.prototype] does not define. *)
Lemma addEntry_get_same (s : SessionData) (pt : JsObject.t PlayerTotal) p ds :
  inherited p = false ->
  get p (addEntry s pt (p, ds))
  = Some (creditSession s (sumOf ds)
            (match get p pt with Some r => r | None => newRecord p s end)).
Proof.
  intros Hp. unfold addEntry, has. destruct (get p pt) eqn:E.
  - rewrite get_modify_same, E. reflexivity.
  - rewrite Hp, get_modify_same, get_set_same. reflexivity.
Qed.

Lemma addEntry_get_other (s : SessionData) (pt : JsObject.t PlayerTotal) p q ds :
  q <> p -> get q (addEntry s pt (p, ds)) = get q pt.
Proof.
  intros Hne. unfold addEntry.
  destruct (has p pt); [apply get_modify_other; exact Hne|].
  destruct (inherited p); [reflexivity|].
  rewrite (get_modify_other _ _ _ _ Hne). apply get_set_other. exact Hne.
Qed.

Lemma keys_addEntry (s : SessionData) (pt : JsObject.t PlayerTotal) p ds :
  keys (addEntry s pt (p, ds))
  = if has p pt then keys pt
    else if inherited p then keys pt
    else keys (set p (newRecord p s) pt).
Proof.
  unfold addEntry. destruct (has p pt); [apply keys_modify|].
  destruct (inherited p); [reflexivity|apply keys_modify].
Qed.

(** The entries of one session, each player at most once. *)
Lemma addEntries_get (s : SessionData) (es : JsObject.t (list num)) :
  NoDup (keys es) ->
  forall (pt : JsObject.t PlayerTotal) p,
    inherited p = false ->
    get p (fold_left (addEntry s) es pt)
    = match get p es with
      | None => get p pt
      | Some ds =>
          Some (creditSession s (sumOf ds)
                  (match get p pt with Some r => r | None => newRecord p s end))
      end.
Proof.
  induction es as [|[q ds] es IH]; intros Hnd pt p Hp; [reflexivity|].
  inversion Hnd as [|? ? Hnotin Hnd']; subst.
  cbn [fold_left]. rewrite (IH Hnd' _ _ Hp). cbn [get].
  destruct (String.eqb_spec q p) as [->|Hne].
  - apply get_None in Hnotin. rewrite Hnotin. apply addEntry_get_same. exact Hp.
  - rewrite !(addEntry_get_other _ _ _ _ _ (not_eq_sym Hne)). reflexivity.
Qed.


Lemma addSession_get (pt : JsObject.t PlayerTotal) (s : SessionData) p :
  distinctKeys s -> inherited p = false ->
  get p (addSession pt s) = recordStep p (get p pt) s.
Proof.
  intros Hwf Hp. unfold addSession, entries, recordStep.
  apply addEntries_get; assumption.
Qed.

Lemma playerTotals_get (ss : list SessionData) :
  Forall distinctKeys ss ->
  forall (pt : JsObject.t PlayerTotal) p,
    inherited p = false ->
    get p (fold_left addSession ss pt) = fold_left (recordStep p) ss (get p pt).
Proof.
  induction 1 as [|s ss Hs _ IH]; intros pt p Hp; [reflexivity|].
  cbn [fold_left]. rewrite (IH _ _ Hp), (addSession_get _ _ _ Hs Hp). reflexivity.
Qed.

Lemma sessionsOf_cons p (s : SessionData) ss :
  sessionsOf p (s :: ss)
  = if appearsIn p s then s :: sessionsOf p ss else sessionsOf p ss.
Proof. reflexivity. Qed.

(** The record of a player already known, after more sessions. *)
Lemma recordStep_known p (ss : list SessionData) :
  forall r,
    fold_left (recordStep p) ss (Some r)
    = Some {| name := name r;
              total := fold_left (fun acc s => add acc (sumOf (deltasOf p s)))
                                 (sessionsOf p ss) (total r);
              sessions := sessions r + List.length (sessionsOf p ss);
              lastSession := latest (lastSession r) (map date (sessionsOf p ss)) |}.
Proof.
  induction ss as [|s ss IH]; intros r.
  - simpl. rewrite Nat.add_0_r. destruct r; reflexivity.
  - cbn [fold_left]. rewrite sessionsOf_cons.
    assert (Ed : forall ds, get p (results s) = Some ds -> deltasOf p s = ds).
    { intros ds E. unfold deltasOf. rewrite E. reflexivity. }
    unfold recordStep at 2, appearsIn, has.
    destruct (get p (results s)) as [ds|] eqn:E; [|apply IH].
    rewrite IH. unfold creditSession. cbn [name total sessions lastSession].
    cbn [fold_left]. rewrite (Ed ds eq_refl).
    unfold latest.
    destruct (String.ltb (lastSession r) (date s)) eqn:Hl;
      cbn [name total sessions lastSession map List.length fold_left];
      rewrite Hl; f_equal; f_equal; lia.
Qed.

(** The record of a player not yet known, after more sessions. *)
Lemma recordStep_new p (ss : list SessionData) :
  fold_left (recordStep p) ss None
  = match sessionsOf p ss with
    | [] => None
    | s :: rest =>
        Some {| name := p;
                total := expectedTotal p ss;
                sessions := expectedSessions p ss;
                lastSession := latest (date s) (map date rest) |}
    end.
Proof.
  unfold expectedTotal, expectedSessions.
  induction ss as [|s ss IH]; [reflexivity|].
  cbn [fold_left]. rewrite sessionsOf_cons.
  assert (Ed : forall ds, get p (results s) = Some ds -> deltasOf p s = ds).
  { intros ds E. unfold deltasOf. rewrite E. reflexivity. }
  unfold recordStep at 2, appearsIn, has.
  destruct (get p (results s)) as [ds|] eqn:E; [|exact IH].
  rewrite recordStep_known. unfold creditSession, newRecord.
  cbn [name total sessions lastSession fold_left List.length].
  rewrite (Ed ds eq_refl).
  destruct (String.ltb (date s) (date s)); reflexivity.
Qed.

End TotalsFacts.

(** ** [Array.prototype.sort] *)

Section SortFacts.
Context {N : Number} {A : Type} (compareFn : A -> A -> num).

Lemma insertSorted_perm (x : A) (l : list A) :
  Permutation (insertSorted compareFn x l) (x :: l).
Proof.
  induction l as [|y l IH]; simpl; [reflexivity|].
  destruct (ltb (compareFn x y) zero); [reflexivity|].
  rewrite IH. apply perm_swap.
Qed.

Lemma sort_from_perm (l : list A) :
  forall acc, Permutation (fold_left (fun acc x => insertSorted compareFn x acc) l acc)
                          (acc ++ l).
Proof.
  induction l as [|x l IH]; intros acc; simpl.
  - rewrite app_nil_r. reflexivity.
  - rewrite IH, insertSorted_perm. apply Permutation_middle.
Qed.

Lemma sort_perm (l : list A) : Permutation (sort compareFn l) l.
Proof. apply (sort_from_perm l []). Qed.

Lemma In_sort (l : list A) (x : A) : In x (sort compareFn l) <-> In x l.
Proof.
  split; apply Permutation_in; [|symmetry]; apply sort_perm.
Qed.

End SortFacts.

Section ListFacts.
Context {A : Type}.

Lemma StronglySorted_impl (R R' : A -> A -> Prop) (l : list A) :
  (forall a b, In a l -> In b l -> R a b -> R' a b) ->
  StronglySorted R l -> StronglySorted R' l.
Proof.
  intros H S. induction S as [|a l S IH F]; constructor.
  - apply IH. intros x y Hx Hy. apply H; right; assumption.
  - rewrite Forall_forall in *. intros b Hb.
    apply H; [left; reflexivity|right; exact Hb|apply F; exact Hb].
Qed.

Lemma StronglySorted_nth (R : A -> A -> Prop) (l : list A) :
  StronglySorted R l ->
  forall i j a b, i < j -> nth_error l i = Some a -> nth_error l j = Some b -> R a b.
Proof.
  induction 1 as [|x l S IH F]; intros i j a b Hij Hi Hj.
  - destruct i; discriminate.
  - destruct j as [|j]; [lia|]. simpl in Hj. destruct i as [|i]; simpl in Hi.
    + injection Hi as <-. rewrite Forall_forall in F. apply F.
      exact (nth_error_In _ _ Hj).
    + apply (IH i j); [lia|assumption..].
Qed.

Lemma precedes_app_r (l : list A) (x a b : A) :
  precedes l a b -> precedes (l ++ [x]) a b.
Proof.
  intros (l1 & l2 & l3 & ->). exists l1, l2, (l3 ++ [x]).
  rewrite <- !app_assoc. simpl. rewrite <- app_assoc. reflexivity.
Qed.

Lemma precedes_last (l : list A) (x a : A) : In a l -> precedes (l ++ [x]) a x.
Proof.
  intros H. apply in_split in H. destruct H as (l1 & l2 & ->).
  exists l1, l2, []. rewrite <- app_assoc. reflexivity.
Qed.

Lemma filter_split (f : A -> bool) (l : list A) :
  forall l1 x r, filter f l = l1 ++ x :: r ->
    exists m1 m2, l = m1 ++ x :: m2 /\ filter f m1 = l1 /\ filter f m2 = r.
Proof.
  induction l as [|y l IH]; intros l1 x r H; [destruct l1; discriminate|].
  cbn [filter] in H. destruct (f y) eqn:Hy.
  - destruct l1 as [|z l1]; cbn [app] in H.
    + injection H as -> <-. exists [], l. repeat split.
    + injection H as -> H. destruct (IH _ _ _ H) as (m1 & m2 & -> & <- & <-).
      exists (z :: m1), m2. cbn [filter app]. rewrite Hy. repeat split.
  - destruct (IH _ _ _ H) as (m1 & m2 & -> & <- & <-).
    exists (y :: m1), m2. cbn [filter app]. rewrite Hy. repeat split.
Qed.

(** What stands before in a selection stands before in the whole. *)
Lemma precedes_filter (f : A -> bool) (l : list A) (a b : A) :
  precedes (filter f l) a b -> precedes l a b.
Proof.
  intros (l1 & l2 & l3 & H).
  destruct (filter_split f l _ _ _ H) as (m1 & m2 & -> & _ & H2).
  destruct (filter_split f m2 _ _ _ H2) as (n1 & n2 & -> & _ & _).
  exists m1, n1, n2. reflexivity.
Qed.

Lemma precedes_map {B} (f : A -> B) (l : list A) (a b : A) :
  precedes l a b -> precedes (map f l) (f a) (f b).
Proof.
  intros (l1 & l2 & l3 & ->). exists (map f l1), (map f l2), (map f l3).
  rewrite map_app. simpl. rewrite map_app. reflexivity.
Qed.

End ListFacts.

Lemma indexOf_app_notin (k : string) (l1 l2 : list string) :
  ~ In k l1 -> indexOf k (l1 ++ l2) = option_map (Nat.add (List.length l1)) (indexOf k l2).
Proof.
  induction l1 as [|x l1 IH]; intros Hn; simpl.
  - destruct (indexOf k l2); reflexivity.
  - destruct (String.eqb_spec x k) as [->|Hne]; [exfalso; apply Hn; left; reflexivity|].
    rewrite IH; [|intros H; apply Hn; right; exact H].
    destruct (indexOf k l2); reflexivity.
Qed.

Lemma indexOf_head (k : string) (l : list string) : indexOf k (k :: l) = Some 0.
Proof. simpl. rewrite String.eqb_refl. reflexivity. Qed.

(** In a list without repetition, standing before means a smaller index. *)
Lemma precedes_indexOf (l : list string) (a b : string) :
  NoDup l -> precedes l a b ->
  exists i j, indexOf a l = Some i /\ indexOf b l = Some j /\ i < j.
Proof.
  intros Hnd (l1 & l2 & l3 & ->).
  assert (Ha : ~ In a l1).
  { intros H. apply (NoDup_remove_2 l1 (l2 ++ b :: l3) a Hnd).
    apply in_or_app. left. exact H. }
  assert (Hb1 : ~ In b l1).
  { intros H. apply in_split in H. destruct H as (u & w & ->).
    rewrite <- !app_assoc in Hnd. simpl in Hnd.
    apply NoDup_remove_2 in Hnd. apply Hnd.
    apply in_or_app. right. apply in_or_app. right. right.
    apply in_or_app. right. left. reflexivity. }
  assert (Hab : a <> b).
  { intros ->. apply NoDup_remove_2 in Hnd. apply Hnd.
    apply in_or_app. right. apply in_or_app. right. left. reflexivity. }
  assert (Hb2 : ~ In b l2).
  { intros H. apply NoDup_app_remove_l in Hnd. inversion Hnd as [|? ? _ Hnd']; subst.
    apply NoDup_remove_2 in Hnd'. apply Hnd'. apply in_or_app. left. exact H. }
  exists (List.length l1), (List.length l1 + S (List.length l2)).
  split; [|split; [|lia]].
  - rewrite (indexOf_app_notin _ _ _ Ha), indexOf_head. simpl. f_equal. lia.
  - rewrite (indexOf_app_notin _ _ _ Hb1). simpl.
    apply String.eqb_neq in Hab. rewrite Hab.
    rewrite (indexOf_app_notin _ _ _ Hb2), indexOf_head. simpl. f_equal. lia.
Qed.

(** ** Ranking by total *)

Section RankingFacts.
Context {N : Number} {OL : OrderLaws N}.

Lemma byTotal_before (x y : PlayerTotal) :
  ltb (byTotal x y) zero = ltb (total y) (total x).
Proof. unfold byTotal. apply sub_ltb. Qed.

Lemma ltb_asym (a b : num) : ltb a b = true -> ltb b a = false.
Proof.
  intros H. destruct (ltb b a) eqn:E; [|reflexivity].
  rewrite <- (ltb_irrefl a). symmetry. exact (ltb_trans _ _ _ H E).
Qed.

Lemma insertSorted_descending (x : PlayerTotal) (l : list PlayerTotal) :
  descending l -> descending (insertSorted byTotal x l).
Proof.
  unfold descending. induction 1 as [|y l S IH F]; simpl.
  - constructor; constructor.
  - rewrite byTotal_before. destruct (ltb (total y) (total x)) eqn:Hyx.
    + constructor; [constructor; assumption|].
      constructor; [exact (ltb_asym _ _ Hyx)|].
      rewrite Forall_forall in *. intros w Hw.
      destruct (ltb (total x) (total w)) eqn:Hxw; [|reflexivity].
      rewrite <- (F w Hw). symmetry. exact (ltb_trans _ _ _ Hyx Hxw).
    + constructor; [exact IH|].
      rewrite Forall_forall in *. intros w Hw.
      apply (Permutation_in _ (insertSorted_perm byTotal x l)) in Hw.
      destruct Hw as [<-|Hw]; [exact Hyx|apply F; exact Hw].
Qed.

Lemma insertSorted_tiesKeep (original : list PlayerTotal) (x : PlayerTotal)
    (l : list PlayerTotal) :
  descending l -> (forall y, In y l -> In y original) -> tiesKeep original l ->
  tiesKeep (original ++ [x]) (insertSorted byTotal x l).
Proof.
  unfold descending, tiesKeep. intros D. induction D as [|y l S IH F]; intros Hin T.
  - constructor; constructor.
  - inversion T as [|? ? T' FT]; subst. simpl. rewrite byTotal_before.
    assert (Hlift : StronglySorted
              (fun a b => total a = total b -> precedes (original ++ [x]) a b) l).
    { apply (StronglySorted_impl _ _ _ (fun a b _ _ (H : total a = total b -> precedes original a b) E => precedes_app_r _ x _ _ (H E)) T'). }
    rewrite Forall_forall in *.
    destruct (ltb (total y) (total x)) eqn:Hyx.
    + constructor.
      * constructor; [exact Hlift|]. apply Forall_forall. intros w Hw E.
        apply precedes_app_r. exact (FT w Hw E).
      * apply Forall_forall. intros w [<-|Hw] E.
        -- rewrite E, ltb_irrefl in Hyx. discriminate.
        -- rewrite E, (F w Hw) in Hyx. discriminate.
    + constructor.
      * apply IH; [|exact T']. intros w Hw. apply Hin. right. exact Hw.
      * apply Forall_forall. intros w Hw E.
        apply (Permutation_in _ (insertSorted_perm byTotal x l)) in Hw.
        destruct Hw as [<-|Hw].
        -- apply precedes_last. apply Hin. left. reflexivity.
        -- apply precedes_app_r. exact (FT w Hw E).
Qed.

Lemma sort_from_ranked (l : list PlayerTotal) :
  forall original acc,
    descending acc -> tiesKeep original acc -> Permutation acc original ->
    descending (fold_left (fun acc x => insertSorted byTotal x acc) l acc)
    /\ tiesKeep (original ++ l)
                (fold_left (fun acc x => insertSorted byTotal x acc) l acc).
Proof.
  induction l as [|x l IH]; intros original acc D T P.
  - simpl. rewrite app_nil_r. split; assumption.
  - cbn [fold_left].
    replace (original ++ x :: l) with ((original ++ [x]) ++ l)
      by (rewrite <- app_assoc; reflexivity).
    apply IH.
    + apply insertSorted_descending. exact D.
    + apply insertSorted_tiesKeep; [exact D| |exact T].
      intros y Hy. exact (Permutation_in _ P Hy).
    + rewrite insertSorted_perm, P. apply Permutation_cons_append.
Qed.

(** The sort by total is descending and keeps ties in their order. *)
Lemma sort_ranked (l : list PlayerTotal) :
  descending (sort byTotal l) /\ tiesKeep l (sort byTotal l).
Proof.
  apply (sort_from_ranked l [] []); constructor.
Qed.

End RankingFacts.

(** ** The dictionary [playerTotals] *)

Section PlayerTotalsFacts.
Context {N : Number}.
Import JsObject JsObjectFacts.

Lemma namedByKey_modify p f (pt : JsObject.t PlayerTotal) :
  (forall r, name (f r) = name r) -> namedByKey pt -> namedByKey (modify p f pt).
Proof.
  intros Hf. unfold namedByKey.
  induction 1 as [|[k r] pt H Hrest IH]; simpl; [constructor|].
  destruct (String.eqb k p); constructor; simpl in *; try assumption.
  rewrite Hf. exact H.
Qed.

Lemma namedByKey_set p r (pt : JsObject.t PlayerTotal) :
  name r = p -> namedByKey pt -> namedByKey (set p r pt).
Proof.
  intros Hr Hpt. unfold namedByKey in *. rewrite Forall_forall in *.
  intros e He. apply In_set in He. destruct He as [->|He]; [exact Hr|].
  apply Hpt. exact He.
Qed.

Lemma creditSession_name (s : SessionData) (t : num) (r : PlayerTotal) :
  name (creditSession s t r) = name r.
Proof.
  unfold creditSession. cbn [name total sessions lastSession].
  destruct (String.ltb (lastSession r) (date s)); reflexivity.
Qed.

Lemma addEntry_inv (s : SessionData) (pt : JsObject.t PlayerTotal) e :
  namedByKey pt /\ NoDup (keys pt) ->
  namedByKey (addEntry s pt e) /\ NoDup (keys (addEntry s pt e)).
Proof.
  destruct e as [p ds]. intros [Hn Hd]. split.
  - unfold addEntry.
    destruct (has p pt); [apply namedByKey_modify; [apply creditSession_name|exact Hn]|].
    destruct (inherited p); [exact Hn|].
    apply namedByKey_modify; [apply creditSession_name|].
    apply namedByKey_set; [reflexivity|exact Hn].
  - rewrite keys_addEntry. destruct (has p pt); [exact Hd|].
    destruct (inherited p); [exact Hd|].
    apply NoDup_keys_set. exact Hd.
Qed.

Lemma playerTotals_inv (ss : list SessionData) :
  forall pt, namedByKey pt /\ NoDup (keys pt) ->
    namedByKey (fold_left addSession ss pt)
    /\ NoDup (keys (fold_left addSession ss pt)).
Proof.
  induction ss as [|s ss IH]; intros pt H; [exact H|].
  cbn [fold_left]. apply IH. unfold addSession, entries.
  generalize dependent pt. induction (results s) as [|e es IHe]; intros pt H; [exact H|].
  cbn [fold_left]. apply IHe. apply addEntry_inv. exact H.
Qed.

Lemma playerTotalsOf_inv (ss : list SessionData) :
  namedByKey (playerTotalsOf ss) /\ NoDup (keys (playerTotalsOf ss)).
Proof. apply playerTotals_inv. split; constructor. Qed.

Lemma names_of_values (pt : JsObject.t PlayerTotal) :
  namedByKey pt -> map name (values pt) = keys pt.
Proof.
  unfold namedByKey, values, keys. induction 1 as [|e pt H _ IH]; simpl; congruence.
Qed.

(** A record of the output is the one stored under its name. *)
Lemma output_record (ss : list SessionData) (r : PlayerTotal) :
  In r (calculatePlayerTotals ss) <-> get (name r) (playerTotalsOf ss) = Some r.
Proof.
  destruct (playerTotalsOf_inv ss) as [Hn Hd].
  unfold calculatePlayerTotals. rewrite In_sort. split.
  - intros H. unfold values in H. apply in_map_iff in H. destruct H as ([k r'] & E & H).
    simpl in E. subst r'. unfold namedByKey in Hn. rewrite Forall_forall in Hn.
    pose proof (Hn _ H) as E. simpl in E. subst k. apply In_get; assumption.
  - intros H. apply get_Some_In in H. apply (in_map snd) in H. exact H.
Qed.

(** *** The enumeration order of [playerTotals] *)

Lemma has_memb {V} (p : string) (o : JsObject.t V) : has p o = memb p (keys o).
Proof.
  destruct (memb p (keys o)) eqn:E.
  - apply has_spec. apply memb_spec. exact E.
  - apply has_false. apply memb_false. exact E.
Qed.

Lemma memb_filter (f : string -> bool) (p : string) (l : list string) :
  f p = true -> memb p (filter f l) = memb p l.
Proof.
  intros Hp. destruct (memb p l) eqn:E.
  - apply memb_spec. apply filter_In. split; [apply memb_spec; exact E|exact Hp].
  - apply memb_false. intros H. apply filter_In in H. destruct H as [H _].
    apply memb_spec in H. congruence.
Qed.

Lemma memb_filter_out (f : string -> bool) (p : string) (l : list string) :
  f p = false -> memb p (filter f l) = false.
Proof.
  intros Hp. apply memb_false. intros H. apply filter_In in H. destruct H as [_ H].
  congruence.
Qed.

(** The names [Object.prototype] defines never get a record; the others are
    appended in the order of their first value. *)
Lemma keys_addEntry_filter (s : SessionData) (pt : JsObject.t PlayerTotal) p ds
    (seen : list string) :
  arrayIndex p = None ->
  keys pt = filter notInherited seen ->
  keys (addEntry s pt (p, ds)) = filter notInherited (setAdd p seen).
Proof.
  intros Hidx Hk. rewrite keys_addEntry, has_memb, Hk. unfold setAdd.
  destruct (inherited p) eqn:Hp.
  - assert (Hn : notInherited p = false) by (unfold notInherited; rewrite Hp; reflexivity).
    rewrite (memb_filter_out _ _ _ Hn).
    destruct (memb p seen); [reflexivity|].
    rewrite filter_app. cbn [filter]. rewrite Hn, app_nil_r. reflexivity.
  - assert (Hn : notInherited p = true) by (unfold notInherited; rewrite Hp; reflexivity).
    rewrite (memb_filter _ _ _ Hn).
    destruct (memb p seen) eqn:Hm; [reflexivity|].
    assert (Hh : has p pt = false).
    { rewrite has_memb, Hk, (memb_filter _ _ _ Hn). exact Hm. }
    rewrite (keys_set_name _ _ _ Hh Hidx).
    unfold keys in *. rewrite map_app, Hk, filter_app. cbn [filter map fst].
    rewrite Hn. reflexivity.
Qed.

Lemma keys_addEntries (s : SessionData) (es : JsObject.t (list num)) :
  (forall k, In k (keys es) -> arrayIndex k = None) ->
  forall (pt : JsObject.t PlayerTotal) (seen : list string),
    keys pt = filter notInherited seen ->
    keys (fold_left (addEntry s) es pt)
    = filter notInherited
        (fold_left (fun seen playerName => setAdd playerName seen) (keys es) seen).
Proof.
  induction es as [|[p ds] es IH]; intros Hidx pt seen Hk; [exact Hk|].
  change (keys ((p, ds) :: es)) with (p :: keys es).
  cbn [fold_left]. apply IH; [intros k Hin; apply Hidx; right; exact Hin|].
  apply keys_addEntry_filter; [apply Hidx; left; reflexivity|exact Hk].
Qed.

Lemma keys_playerTotals (ss : list SessionData) :
  noIndexNames ss ->
  forall (pt : JsObject.t PlayerTotal) (seen : list string),
    keys pt = filter notInherited seen ->
    keys (fold_left addSession ss pt)
    = filter notInherited
        (fold_left (fun seen playerName => setAdd playerName seen)
                   (List.concat (map (fun s => keys (results s)) ss)) seen).
Proof.
  induction ss as [|s ss IH]; intros Hidx pt seen Hk; [exact Hk|].
  cbn [fold_left map List.concat]. rewrite fold_left_app.
  apply IH; [intros s' k Hs'; apply Hidx; right; exact Hs'|].
  apply keys_addEntries; [|exact Hk].
  intros k Hin. apply (Hidx s k); [left; reflexivity|exact Hin].
Qed.

(** The records are enumerated in the order in which the players first
    get one: the encounter order without the inherited names. *)
Lemma keys_playerTotalsOf (ss : list SessionData) :
  noIndexNames ss ->
  keys (playerTotalsOf ss) = filter notInherited (encounterOrder ss).
Proof. intros H. apply (keys_playerTotals ss H empty []). reflexivity. Qed.

(** The record of a player whose name [Object.prototype] does not define. *)
Lemma record_of_player (ss : list SessionData) (player : string) :
  Forall distinctKeys ss -> inherited player = false -> seenIn ss player ->
  exists s rest,
    sessionsOf player ss = s :: rest
    /\ In {| name := player; total := expectedTotal player ss;
             sessions := expectedSessions player ss;
             lastSession := latest (date s) (map date rest) |}
          (calculatePlayerTotals ss).
Proof.
  intros Hwf Hp (s0 & Hin & Happ).
  pose proof (playerTotals_get ss Hwf empty player Hp) as G.
  fold (playerTotalsOf ss) in G. cbn [get empty] in G.
  rewrite recordStep_new in G.
  destruct (sessionsOf player ss) as [|s rest] eqn:Es.
  - exfalso. assert (H : In s0 (sessionsOf player ss)).
    { apply filter_In. split; assumption. }
    rewrite Es in H. destruct H.
  - exists s, rest. split; [reflexivity|]. apply output_record. exact G.
Qed.

(** A record of the output is the only one of its name. *)
Lemma output_record_unique (ss : list SessionData) (r r' : PlayerTotal) :
  In r (calculatePlayerTotals ss) -> In r' (calculatePlayerTotals ss) ->
  name r' = name r -> r' = r.
Proof.
  intros Hr Hr' E. apply output_record in Hr, Hr'. rewrite E, Hr in Hr'.
  congruence.
Qed.

End PlayerTotalsFacts.

(** ** Normalisation *)

Section NormalizeFacts.
Context {N : Number}.
Import JsObject JsObjectFacts.

Lemma fillResults_get (k : string) (table : list (list num)) (ps : list string) :
  forall i (acc : JsObject.t (list num)),
    get k (fillResults ps i table acc)
    = match lastIndexOf k ps with
      | Some j => Some (column (i + j) table)
      | None => get k acc
      end.
Proof.
  induction ps as [|x ps IH]; intros i acc; [reflexivity|].
  cbn [fillResults lastIndexOf]. rewrite IH.
  destruct (lastIndexOf k ps) as [j|].
  - do 2 f_equal. lia.
  - destruct (String.eqb_spec x k) as [->|Hne].
    + rewrite get_set_same, Nat.add_0_r. reflexivity.
    + apply get_set_other. exact (not_eq_sym Hne).
Qed.

Lemma fillResults_NoDup (table : list (list num)) (ps : list string) :
  forall i (acc : JsObject.t (list num)),
    NoDup (keys acc) -> NoDup (keys (fillResults ps i table acc)).
Proof.
  induction ps as [|x ps IH]; intros i acc H; [exact H|].
  cbn [fillResults]. apply IH. apply NoDup_keys_set. exact H.
Qed.

Lemma normalize_distinctKeys (sessionName0 : string) (ps : list string)
    (table : list (list num)) :
  distinctKeys (normalize sessionName0 ps table).
Proof. apply fillResults_NoDup. constructor. Qed.

Lemma lastIndexOf_None (k : string) (l : list string) :
  lastIndexOf k l = None <-> ~ In k l.
Proof.
  induction l as [|x l IH]; simpl; [split; [intros _ []|reflexivity]|].
  destruct (lastIndexOf k l) as [j|].
  - split; [discriminate|]. intros H. exfalso. apply H. right.
    destruct (in_dec string_dec k l) as [Hin|Hn]; [exact Hin|].
    apply IH in Hn. discriminate.
  - destruct (String.eqb_spec x k) as [->|Hne].
    + split; [discriminate|]. intros H. exfalso. apply H. left. reflexivity.
    + split; [|reflexivity]. intros _ [E|Hin]; [congruence|].
      apply (proj1 IH); [reflexivity|exact Hin].
Qed.

(** The last column named [k] is [j] when column [j] is named [k] and no
    later column is. *)
Lemma lastIndexOf_last (k : string) (l : list string) :
  forall j, nth_error l j = Some k ->
            (forall j', j < j' -> nth_error l j' <> Some k) ->
            lastIndexOf k l = Some j.
Proof.
  induction l as [|x l IH]; intros j Hj Hlast; [destruct j; discriminate|].
  cbn [lastIndexOf]. destruct j as [|j]; simpl in Hj.
  - injection Hj as ->.
    assert (Hn : lastIndexOf k l = None).
    { apply lastIndexOf_None. intros Hin. apply In_nth_error in Hin.
      destruct Hin as [n Hn]. apply (Hlast (S n)); [lia|exact Hn]. }
    rewrite Hn, String.eqb_refl. reflexivity.
  - rewrite (IH j Hj); [reflexivity|].
    intros j' Hlt. apply (Hlast (S j')). lia.
Qed.

Lemma lastIndexOf_NoDup (k : string) (l : list string) (j : nat) :
  NoDup l -> nth_error l j = Some k -> lastIndexOf k l = Some j.
Proof.
  intros Hnd Hj. apply lastIndexOf_last; [exact Hj|].
  intros j' Hlt Hj'.
  assert (Hlen : j < List.length l) by (apply nth_error_Some; congruence).
  pose proof (proj1 (NoDup_nth_error l) Hnd j j' Hlen) as Hinj.
  rewrite Hj, Hj' in Hinj. specialize (Hinj eq_refl). lia.
Qed.

Lemma column_length (i : nat) (table : list (list num)) :
  List.length (column i table) = List.length table.
Proof. apply length_map. Qed.

Lemma column_nth (i r : nat) (table : list (list num)) (row : list num) (v : num) :
  nth_error table r = Some row -> nth_error row i = Some v ->
  nth_error (column i table) r = Some v.
Proof.
  intros Hr Hv. unfold column. rewrite nth_error_map, Hr. simpl. f_equal.
  apply nth_error_nth. exact Hv.
Qed.

End NormalizeFacts.

(** ** The sessions built by normalisation *)

Section NormalizeShape.
Context {N : Number}.
Import JsObject JsObjectFacts.

Lemma fillResults_keys (table : list (list num)) (ps : list string) :
  forall i (acc : JsObject.t (list num)) k,
    In k (keys (fillResults ps i table acc)) <-> In k ps \/ In k (keys acc).
Proof.
  induction ps as [|x ps IH]; intros i acc k; cbn [fillResults].
  - simpl. tauto.
  - rewrite IH, In_keys_set. simpl. split.
    + intros [H|[->|H]]; auto.
    + intros [[->|H]|H]; auto.
Qed.

Lemma normalize_get (sessionName0 : string) (ps : list string) (table : list (list num))
    (k : string) (bc : list num) :
  get k (results (normalize sessionName0 ps table)) = Some bc ->
  List.length bc = List.length table.
Proof.
  cbn [results normalize]. rewrite fillResults_get.
  destruct (lastIndexOf k ps) as [j|]; [|discriminate].
  intros [= <-]. apply column_length.
Qed.

Lemma normalize_roundCount (sessionName0 : string) (ps : list string)
    (table : list (list num)) :
  ps <> [] -> roundCount (normalize sessionName0 ps table) = List.length table.
Proof.
  intros Hps. unfold roundCount, entries.
  pose proof (normalize_distinctKeys sessionName0 ps table) as Hnd. unfold distinctKeys in Hnd.
  destruct (results (normalize sessionName0 ps table)) as [|[k bc] r] eqn:E.
  - exfalso. destruct ps as [|p ps]; [congruence|].
    assert (Hin : In p (keys (results (normalize sessionName0 (p :: ps) table)))).
    { apply fillResults_keys. left. left. reflexivity. }
    rewrite E in Hin. exact Hin.
  - apply (normalize_get sessionName0 ps table k). rewrite E.
    simpl. rewrite String.eqb_refl. reflexivity.
Qed.

Lemma normalize_uniform (sessionName0 : string) (ps : list string)
    (table : list (list num)) :
  ps <> [] -> uniform (normalize sessionName0 ps table).
Proof.
  intros Hps k bc H. rewrite (normalize_roundCount _ _ _ Hps).
  exact (normalize_get _ _ _ _ _ H).
Qed.

End NormalizeShape.

(** A table returned by the parser is rectangular. *)
Lemma parseRows_rectangular {N : Number} (numberValue : string -> num)
    (players0 rest : list string) :
  forall i acc table,
    parseRows numberValue players0 i rest acc = Ok table ->
    rectangular players0 acc -> rectangular players0 table.
Proof.
  induction rest as [|l rest IH]; intros i acc table; cbn [parseRows].
  - intros [= <-] H. exact H.
  - destruct (Str.isEmpty (Str.trim l)); [apply IH|].
    destruct (mapM (parseValue numberValue i) (Str.split Str.comma (Str.trim l)))
      as [vs|e]; cbn [bind]; [|discriminate].
    destruct (Nat.eqb_spec (List.length vs) (List.length players0)) as [E|]; [|discriminate].
    intros H Hacc. apply (IH _ _ _ H). unfold rectangular in *.
    apply Forall_app. split; [exact Hacc|]. constructor; [exact E|constructor].
Qed.

Lemma parseCsvContent_rectangular {N : Number} (numberValue : string -> num)
    (content : string) (players0 : list string) (table : list (list num)) :
  parseCsvContent numberValue content = Ok (players0, table) ->
  rectangular players0 table.
Proof.
  unfold parseCsvContent.
  destruct (List.length _ <? 2)%nat; [discriminate|].
  destruct (parseRows numberValue _ 1 _ []) as [t|e] eqn:E; cbn [bind]; [|discriminate].
  intros [= <- <-]. apply (parseRows_rectangular _ _ _ _ _ _ E). constructor.
Qed.

(** ** [generateChartData] *)

Section ChartFacts.
Context {N : Number}.
Import JsObject JsObjectFacts.

Lemma numBalanceChanges_roundCount (s : SessionData) :
  numBalanceChanges s = roundCount s.
Proof.
  unfold numBalanceChanges, roundCount, entries, keys.
  destruct (results s) as [|[k ds] r]; [reflexivity|].
  simpl. rewrite String.eqb_refl. reflexivity.
Qed.

Lemma totalsAfter_S (s : SessionData) (rt : JsObject.t num) (k : nat) :
  totalsAfter s rt (S k) = applyRound s k (totalsAfter s rt k).
Proof. unfold totalsAfter. rewrite seq_S, fold_left_app. reflexivity. Qed.

(** The [for] loop of one session pushes one rendered point per round. *)
Lemma rounds_run (s : SessionData) (n : nat) :
  forall (cd : list ChartDataPoint) (rt : JsObject.t num),
    fold_left (roundStep s) (seq 0 n) (cd, rt)
    = (cd ++ map (fun idx => render (s, idx, totalsAfter s rt (S idx))) (seq 0 n),
       totalsAfter s rt n).
Proof.
  induction n as [|n IH]; intros cd rt.
  - simpl. rewrite app_nil_r. reflexivity.
  - rewrite seq_S, fold_left_app, IH. cbn [fold_left roundStep Nat.add].
    rewrite map_app, app_assoc, <- totalsAfter_S. reflexivity.
Qed.

Lemma sessions_run (ss : list SessionData) :
  forall (cd : list ChartDataPoint) (rt : JsObject.t num),
    fold_left sessionStep ss (cd, rt)
    = (cd ++ map render (trace rt ss), totalsAfterSessions rt ss).
Proof.
  induction ss as [|s ss IH]; intros cd rt.
  - simpl. rewrite app_nil_r. reflexivity.
  - cbn [fold_left]. unfold sessionStep at 2.
    rewrite numBalanceChanges_roundCount, rounds_run, IH.
    cbn [trace]. rewrite map_app, map_map, app_assoc. reflexivity.
Qed.

Lemma generateChartData_trace (ss : list SessionData) :
  generateChartData ss
  = initialChart ss (initialTotals (collectPlayers ss))
    ++ map render (trace (initialTotals (collectPlayers ss)) ss).
Proof. unfold generateChartData. rewrite sessions_run. reflexivity. Qed.

Lemma trace_emissions (ss : list SessionData) :
  forall rt, map (fun e => fst e) (trace rt ss) = emissions ss.
Proof.
  induction ss as [|s ss IH]; intros rt; [reflexivity|].
  cbn [trace emissions flat_map]. rewrite map_app, map_map, IH. reflexivity.
Qed.

(** *** The properties of a point *)

Lemma get_spread (p : string) (rt : JsObject.t num) :
  NoDup (keys rt) ->
  forall base : ChartDataPoint,
    get p (spread rt base)
    = match get p rt with
      | Some v => Some (VNumber v)
      | None => get p base
      end.
Proof.
  unfold spread, entries. induction rt as [|[k v] rt IH]; intros Hnd base; [reflexivity|].
  inversion Hnd as [|? ? Hnotin Hnd']; subst.
  cbn [fold_left]. rewrite (IH Hnd'). cbn [get].
  destruct (String.eqb_spec k p) as [->|Hne].
  - apply get_None in Hnotin. rewrite Hnotin. apply get_set_same.
  - destruct (get p rt); [reflexivity|]. apply get_set_other. exact (not_eq_sym Hne).
Qed.

Lemma dataPoint_player (d nm : string) (rd : num) (rt : JsObject.t num) p v :
  NoDup (keys rt) -> get p rt = Some v ->
  get p (dataPoint d nm rd rt) = Some (VNumber v).
Proof. intros Hnd H. unfold dataPoint. rewrite (get_spread _ _ Hnd), H. reflexivity. Qed.

Lemma dataPoint_fields (d nm : string) (rd : num) (rt : JsObject.t num) :
  NoDup (keys rt) ->
  get "date" rt = None -> get "sessionName" rt = None -> get "round" rt = None ->
  get "date" (dataPoint d nm rd rt) = Some (VString d)
  /\ get "sessionName" (dataPoint d nm rd rt) = Some (VString nm)
  /\ get "round" (dataPoint d nm rd rt) = Some (VNumber rd).
Proof.
  intros Hnd H1 H2 H3. unfold dataPoint.
  rewrite !(get_spread _ _ Hnd), H1, H2, H3. repeat split.
Qed.

(** *** One round *)



Lemma applyRound_NoDup (s : SessionData) (idx : nat) :
  forall rt : JsObject.t num, NoDup (keys rt) -> NoDup (keys (applyRound s idx rt)).
Proof.
  unfold applyRound, entries.
  induction (results s) as [|[q bc] es IH]; intros rt H; [exact H|].
  cbn [fold_left]. apply IH. apply NoDup_keys_set. exact H.
Qed.

Lemma applyRound_keys (s : SessionData) (idx : nat) :
  forall rt : JsObject.t num,
    (forall p, In p (keys (results s)) -> In p (keys rt)) ->
    keys (applyRound s idx rt) = keys rt.
Proof.
  unfold applyRound, entries.
  induction (results s) as [|[q bc] es IH]; intros rt H; [reflexivity|].
  cbn [fold_left].
  assert (Hq : has q rt = true) by (apply has_spec; apply H; left; reflexivity).
  rewrite IH; [apply keys_set_has; exact Hq|].
  intros p Hp. rewrite (keys_set_has _ _ _ Hq). apply H. right. exact Hp.
Qed.

(** *** The trace of the loops *)

Lemma nth_error_map_seq {A} (f : nat -> A) (n i : nat) :
  i < n -> nth_error (map f (seq 0 n)) i = Some (f i).
Proof.
  intros H. rewrite nth_error_map.
  rewrite (nth_error_nth' (seq 0 n) 0); [|rewrite length_seq; exact H].
  rewrite seq_nth; [reflexivity|exact H].
Qed.

(** Each captured snapshot is one round after the one captured before it. *)
Lemma trace_step (ss : list SessionData) :
  forall (rt : JsObject.t num) i s idx rt_i,
    nth_error (trace rt ss) i = Some (s, idx, rt_i) ->
    rt_i = applyRound s idx (previousTotals rt ss i).
Proof.
  induction ss as [|s0 ss IH]; intros rt i s idx rt_i; [destruct i; discriminate|].
  cbn [trace]. set (n := roundCount s0).
  set (rows := map (fun changeIndex => (s0, changeIndex, totalsAfter s0 rt (S changeIndex)))
                   (seq 0 n)).
  assert (Hlen : List.length rows = n) by (unfold rows; rewrite length_map, length_seq; reflexivity).
  assert (Hrow : forall k, k < n ->
            nth_error (rows ++ trace (totalsAfter s0 rt n) ss) k
            = Some (s0, k, totalsAfter s0 rt (S k))).
  { intros k Hk. rewrite nth_error_app1 by lia. unfold rows.
    apply (nth_error_map_seq (fun c => (s0, c, totalsAfter s0 rt (S c)))). exact Hk. }
  destruct (Nat.lt_ge_cases i n) as [Hi|Hi].
  - rewrite (Hrow i Hi). intros [= <- <- <-]. rewrite totalsAfter_S. f_equal.
    unfold previousTotals. cbn [trace]. fold n. fold rows.
    destruct i as [|i']; [reflexivity|]. rewrite (Hrow i') by lia. reflexivity.
  - rewrite nth_error_app2 by lia. rewrite Hlen. intros H.
    rewrite (IH _ _ _ _ _ H). f_equal.
    unfold previousTotals. cbn [trace]. fold n. fold rows.
    destruct (i - n) as [|m] eqn:Em.
    + assert (i = n) by lia. subst i.
      destruct n as [|n'] eqn:En; [reflexivity|].
      rewrite (Hrow n') by lia. reflexivity.
    + destruct i as [|i']; [lia|].
      rewrite nth_error_app2 by lia. rewrite Hlen.
      replace (i' - n) with m by lia.
      destruct (nth_error (trace (totalsAfter s0 rt n) ss) m) as [[[? ?] ?]|] eqn:E;
        [reflexivity|].
      apply nth_error_None in E.
      assert (Hsome : nth_error (trace (totalsAfter s0 rt n) ss) (S m) <> None) by congruence.
      apply nth_error_Some in Hsome. lia.
Qed.

(** The session and round of each push. *)
Lemma trace_emission (ss : list SessionData) (rt : JsObject.t num) i s idx rt_i :
  nth_error (trace rt ss) i = Some (s, idx, rt_i) ->
  nth_error (emissions ss) i = Some (s, idx).
Proof.
  intros H. rewrite <- (trace_emissions ss rt), nth_error_map, H. reflexivity.
Qed.

Lemma emissions_In (ss : list SessionData) s idx :
  In (s, idx) (emissions ss) <-> In s ss /\ idx < roundCount s.
Proof.
  unfold emissions. rewrite in_flat_map. split.
  - intros (s' & Hs' & Hin). apply in_map_iff in Hin.
    destruct Hin as (k & [= <- <-] & Hk). apply in_seq in Hk. split; [exact Hs'|lia].
  - intros [Hs Hidx]. exists s. split; [exact Hs|].
    apply in_map_iff. exists idx. split; [reflexivity|]. apply in_seq. lia.
Qed.

(** What the initial totals satisfy and every round preserves holds of every
    captured snapshot. *)
Lemma trace_invariant (Inv : JsObject.t num -> Prop) (ss : list SessionData)
    (rt : JsObject.t num) :
  Inv rt ->
  (forall s idx r, In (s, idx) (emissions ss) -> Inv r -> Inv (applyRound s idx r)) ->
  forall i, Inv (previousTotals rt ss i).
Proof.
  intros H0 Hstep. induction i as [|i IH]; [exact H0|].
  unfold previousTotals.
  destruct (nth_error (trace rt ss) i) as [[[s idx] r]|] eqn:E; [|exact H0].
  rewrite (trace_step _ _ _ _ _ _ E). apply Hstep; [|exact IH].
  apply (nth_error_In _ i). exact (trace_emission _ _ _ _ _ _ E).
Qed.


(** *** The collected players and the initial totals *)

Lemma setAdd_In (p q : string) (l : list string) :
  In q (setAdd p l) <-> q = p \/ In q l.
Proof.
  unfold setAdd. destruct (memb p l) eqn:E.
  - apply memb_spec in E. split; [auto|]. intros [->|H]; assumption.
  - rewrite in_app_iff. simpl. split; [intros [H|[<-|[]]]; auto|].
    intros [->|H]; auto.
Qed.

Lemma setAdd_NoDup (p : string) (l : list string) : NoDup l -> NoDup (setAdd p l).
Proof.
  intros H. unfold setAdd. destruct (memb p l) eqn:E; [exact H|].
  apply memb_false in E.
  apply (Permutation_NoDup (Permutation_cons_append l p)). constructor; assumption.
Qed.

Lemma setAdd_fold (ks : list string) :
  forall acc,
    (NoDup acc -> NoDup (fold_left (fun seen k => setAdd k seen) ks acc))
    /\ forall q, In q (fold_left (fun seen k => setAdd k seen) ks acc)
                 <-> In q ks \/ In q acc.
Proof.
  induction ks as [|k ks IH]; intros acc; cbn [fold_left].
  - split; [auto|]. intros q. simpl. tauto.
  - destruct (IH (setAdd k acc)) as [Hnd Hin]. split.
    + intros H. apply Hnd. apply setAdd_NoDup. exact H.
    + intros q. rewrite Hin, setAdd_In. simpl. split.
      * intros [H|[->|H]]; auto.
      * intros [[->|H]|H]; auto.
Qed.

Lemma collectPlayers_from (ss : list SessionData) :
  forall acc,
    (NoDup acc ->
     NoDup (fold_left (fun allPlayers session =>
                         fold_left (fun a playerName => setAdd playerName a)
                                   (keys (results session)) allPlayers) ss acc))
    /\ forall q,
         In q (fold_left (fun allPlayers session =>
                            fold_left (fun a playerName => setAdd playerName a)
                                      (keys (results session)) allPlayers) ss acc)
         <-> (exists s, In s ss /\ In q (keys (results s))) \/ In q acc.
Proof.
  induction ss as [|s ss IH]; intros acc; cbn [fold_left].
  - split; [auto|]. intros q. split; [auto|]. intros [(s & [] & _)|H]. exact H.
  - destruct (IH (fold_left (fun a playerName => setAdd playerName a)
                            (keys (results s)) acc)) as [Hnd Hin].
    destruct (setAdd_fold (keys (results s)) acc) as [Hnd' Hin']. split.
    + intros H. apply Hnd, Hnd'. exact H.
    + intros q. rewrite Hin, Hin'. split.
      * intros [(s' & Hs' & Hq)|[Hq|Hq]]; [left; exists s'; split; [right|]; assumption
                                        |left; exists s; split; [left; reflexivity|exact Hq]
                                        |right; exact Hq].
      * intros [(s' & [<-|Hs'] & Hq)|Hq]; [right; left; exact Hq
                                         |left; exists s'; split; assumption
                                         |right; right; exact Hq].
Qed.

Lemma collectPlayers_NoDup (ss : list SessionData) : NoDup (collectPlayers ss).
Proof. apply (collectPlayers_from ss []). constructor. Qed.

Lemma collectPlayers_In (ss : list SessionData) (p : string) :
  In p (collectPlayers ss) <-> seenIn ss p.
Proof.
  unfold collectPlayers, seenIn. rewrite (proj2 (collectPlayers_from ss [])). split.
  - intros [(s & Hs & Hp)|[]]. exists s. split; [exact Hs|]. apply has_spec. exact Hp.
  - intros (s & Hs & Hp). left. exists s. split; [exact Hs|]. apply has_spec. exact Hp.
Qed.

Lemma initialTotals_from (l : list string) :
  forall acc : JsObject.t num,
    let rt := fold_left (fun runningTotals playerName => set playerName zero runningTotals)
                        l acc in
    (NoDup (keys acc) -> NoDup (keys rt))
    /\ (forall p, In p (keys rt) <-> In p l \/ In p (keys acc))
    /\ ((forall p v, get p acc = Some v -> v = zero) ->
        forall p v, get p rt = Some v -> v = zero).
Proof.
  induction l as [|k l IH]; intros acc; cbn [fold_left].
  - split; [auto|]. split; [intros p; simpl; tauto|auto].
  - destruct (IH (set k zero acc)) as (Hnd & Hin & Hz). split; [|split].
    + intros H. apply Hnd. apply NoDup_keys_set. exact H.
    + intros p. rewrite Hin, In_keys_set. simpl. split.
      * intros [H|[->|H]]; auto.
      * intros [[->|H]|H]; auto.
    + intros Hacc. apply Hz. intros p v.
      destruct (String.eqb_spec p k) as [->|Hne].
      * rewrite get_set_same. congruence.
      * rewrite (get_set_other _ _ _ _ Hne). apply Hacc.
Qed.

Lemma initialTotals_good (ss : list SessionData) :
  goodTotals ss (initialTotals (collectPlayers ss)).
Proof.
  destruct (initialTotals_from (collectPlayers ss) empty) as (Hnd & Hin & _).
  split; [apply Hnd; constructor|].
  intros p. unfold initialTotals. rewrite Hin. simpl. tauto.
Qed.


Lemma applyRound_good (ss : list SessionData) (s : SessionData) (idx : nat)
    (rt : JsObject.t num) :
  In s ss -> goodTotals ss rt -> goodTotals ss (applyRound s idx rt).
Proof.
  intros Hs [Hnd Hkeys].
  assert (E : keys (applyRound s idx rt) = keys rt).
  { apply applyRound_keys. intros p Hp. apply Hkeys. apply collectPlayers_In.
    exists s. split; [exact Hs|]. apply has_spec. exact Hp. }
  split; rewrite E; assumption.
Qed.

(** Every captured snapshot has one entry per collected player. *)
Lemma snapshots_good (ss : list SessionData) (i : nat) :
  goodTotals ss (previousTotals (initialTotals (collectPlayers ss)) ss i).
Proof.
  apply trace_invariant; [apply initialTotals_good|].
  intros s idx r Hin. apply applyRound_good. apply emissions_In in Hin. apply Hin.
Qed.

Lemma goodTotals_get (ss : list SessionData) (rt : JsObject.t num) (p : string) :
  goodTotals ss rt -> seenIn ss p -> exists v, get p rt = Some v.
Proof.
  intros [_ Hkeys] Hp. apply collectPlayers_In, Hkeys in Hp.
  destruct (get p rt) as [v|] eqn:E; [exists v; reflexivity|].
  apply get_None in E. contradiction.
Qed.

(** *** The points of the output *)

(** Point [i] of a non-empty output renders the snapshot captured by push
    [i - 1], the start point rendering the initial totals; point [i + 1]
    bears the date, label and round of emission [i]. *)
Lemma output_point (ss : list SessionData) (i : nat) (pt : ChartDataPoint) :
  nth_error (generateChartData ss) i = Some pt ->
  exists d nm rd,
    pt = dataPoint d nm rd (previousTotals (initialTotals (collectPlayers ss)) ss i)
    /\ match i with
       | 0 => exists first rest, ss = first :: rest
                /\ d = date first
                /\ nm = (sessionName first ++ " - Start")%string /\ rd = zero
       | S i' => exists s idx, nth_error (emissions ss) i' = Some (s, idx)
                  /\ d = date s /\ nm = sessionName s /\ rd = ofNat (idx + 1)
       end.
Proof.
  rewrite generateChartData_trace. set (rt0 := initialTotals (collectPlayers ss)).
  destruct ss as [|first rest].
  { destruct i; discriminate. }
  cbn [initialChart app]. fold rt0.
  destruct i as [|i']; cbn [nth_error].
  - intros [= <-]. exists (date first), (sessionName first ++ " - Start")%string, zero.
    split; [reflexivity|]. exists first, rest. repeat split.
  - rewrite nth_error_map.
    destruct (nth_error (trace rt0 (first :: rest)) i') as [[[s idx] rt]|] eqn:E; [|discriminate].
    intros [= <-]. exists (date s), (sessionName s), (ofNat (idx + 1)).
    split; [unfold previousTotals; rewrite E; reflexivity|].
    exists s, idx. split; [exact (trace_emission _ _ _ _ _ _ E)|repeat split].
Qed.



Lemma goodTotals_fields (ss : list SessionData) (rt : JsObject.t num) :
  noFieldNames ss -> goodTotals ss rt ->
  get "date" rt = None /\ get "sessionName" rt = None /\ get "round" rt = None.
Proof.
  intros Hno [_ Hkeys].
  assert (H : forall f, (forall s, In s ss -> In f (keys (results s)) -> False) ->
                        get f rt = None).
  { intros f Hf. apply get_None. intros Hin. apply Hkeys, collectPlayers_In in Hin.
    destruct Hin as (s & Hs & Hp). apply has_spec in Hp. exact (Hf s Hs Hp). }
  repeat split; apply H; intros s Hs Hp; destruct (Hno s _ Hs Hp) as (H1 & H2 & H3);
    congruence.
Qed.


End ChartFacts.

(** ** Running totals, round by round *)

Section RunningTotalFacts.
Context {N : Number}.
Import JsObject JsObjectFacts.





End RunningTotalFacts.

(** ** Sums of safe integers *)

Section SafeFacts.
Context {N : Number} {V : IntegerView N} {SI : SafeIntegers N V}.
Import JsObject JsObjectFacts.
Local Open Scope Z_scope.
















(** *** A player's total, delta by delta and session by session *)





(** *** The running totals of all players *)






End SafeFacts.

(** ** The scenarios of the specification *)

(** Scenario A: Alice totals 5, Bob -5, one session each. *)
Example scenarioA_totals :
  parseCsvContent integerValue scenarioAText = Ok (["Alice"; "Bob"], scenarioA)
  /\ calculatePlayerTotals
       [normalize (N := ExactNumber) "2025-01-01" ["Alice"; "Bob"] scenarioA]
     = [exactRecord "Alice" 5 1 "2025-01-01"; exactRecord "Bob" (-5) 1 "2025-01-01"].
Proof. split; reflexivity. Qed.

(** Scenario B: Alice totals 10 over two sessions, the last on 2025-01-02. *)
Example scenarioB_totals :
  calculatePlayerTotals scenarioB
  = [exactRecord "Alice" 10 2 "2025-01-02"; exactRecord "Bob" (-10) 2 "2025-01-02"].
Proof. reflexivity. Qed.

(** Scenario D: a header without data rows is rejected. *)
Example scenarioD_rejected :
  parseCsvContent integerValue ("Alice,Bob" ++ NL) = Throw TooFewLines.
Proof. reflexivity. Qed.

(** The series of scenario B ends on the totals of scenario B. *)
Example scenarioB_last_point :
  lastPoint scenarioB
  = Some [("date", VString "2025-01-02"); ("sessionName", VString "2025-01-02");
          ("round", exactValue 2); ("Alice", exactValue 10); ("Bob", exactValue (-10))].
Proof. reflexivity. Qed.

(** The scenarios are built by [normalize]: their sessions are objects. *)
Example scenarios_are_objects :
  forallb wellFormedSession levelPlayers = true
  /\ forallb wellFormedSession roundPlayer = true
  /\ forallb wellFormedSession floatSessions = true
  /\ forallb wellFormedSession floatRounds = true.
Proof. repeat split; reflexivity. Qed.

Lemma encounterOrder_NoDup {N : Number} (ss : list SessionData) :
  NoDup (encounterOrder ss).
Proof. unfold encounterOrder. apply (proj1 (setAdd_fold _ [])). constructor. Qed.

(** * The claims *)

(** C3. For every input text, [parseCsvContent] throws exactly when the text
    has fewer than two non-blank lines, or some data line has another number
    of comma-separated fields than the header line, or some data field,
    once trimmed, does not parse as a number; otherwise it returns a table.
    The input of scenario C throws an error whose message names row 2. *)
Theorem parseCsvContent_throws_exactly_when_malformed :
  forall (N : Number) (numberValue : string -> num) (content : string),
    ((exists e, parseCsvContent numberValue content = Throw e)
       <-> malformed numberValue content)
    /\ ((exists table, parseCsvContent numberValue content = Ok table)
       <-> ~ malformed numberValue content)
    /\ parseCsvContent numberValue scenarioC = Throw (RowLength 2 1 2)
    /\ message (RowLength 2 1 2) = "Row 2 has 1 values but expected 2".
Proof.
  intros N numberValue content.
  pose proof (parseCsvContent_throws_iff numberValue content) as H.
  split; [exact H|]. split; [|split; reflexivity].
  destruct (parseCsvContent numberValue content) as [t|e] eqn:E.
  - split; [|intros _; exists t; reflexivity].
    intros _ Hm. apply H in Hm. destruct Hm as [e He]. discriminate.
  - split; [intros [t Ht]; discriminate|].
    intros Hn. exfalso. apply Hn. apply H. exists e. reflexivity.
Qed.

(** C4, amended. When [parseCsvContent] throws a per-row error, the row it
    names is the 1-based position of the offending line among the non-blank
    lines of the input (the header being row 1): that line is a data line the
    parser rejects, and no data line before it is rejected. *)
Theorem parseCsvContent_names_nonblank_position :
  forall (N : Number) (numberValue : string -> num) (content : string)
         (e : ParseError) (row : nat),
    parseCsvContent numberValue content = Throw e ->
    errorRow e = Some row ->
    2 <= row
    /\ (exists line, nth_error (nonBlankLines content) (row - 1) = Some line
          /\ badLine numberValue (List.length (fields (headerLine content))) line)
    /\ (forall j line, 1 <= j < row - 1 ->
          nth_error (nonBlankLines content) j = Some line ->
          ~ badLine numberValue (List.length (fields (headerLine content))) line).
Proof.
  intros N numberValue content e row.
  rewrite parseCsvContent_unfold.
  destruct (List.length (nonBlankLines content) <? 2)%nat; [intros [= <-]; discriminate|].
  destruct (parseRows_outcome numberValue
              (map Str.trim (Str.split Str.comma (hd EmptyString (codeLines content))))
              (tl (codeLines content)) 1 [])
    as [(t & -> & _)|(e' & k & line & -> & Hrow & Hk & Hnb & Hbad & Hfirst)];
    [discriminate|].
  rewrite players_width in Hbad, Hfirst.
  cbn [bind]. intros [= <-] Hr. rewrite Hrow in Hr. injection Hr as <-.
  split; [lia|]. split.
  - (* the line the loop stopped at, seen among the non-blank lines *)
    rewrite nth_error_tl in Hk.
    destruct (map_eq_nth_error _ _ _ _ _ (codeLines_trim content) Hk) as (line' & Hk' & E).
    exists line'. split.
    + match goal with |- nth_error _ ?n = _ => replace n with (S k) by lia end.
      exact Hk'.
    + exact (badLine_trim_eq _ _ _ _ E Hbad).
  - (* no earlier data line is rejected *)
    intros j line' Hj Hnth Hb.
    destruct j as [|j]; [lia|].
    destruct (map_eq_nth_error _ _ _ _ _ (eq_sym (codeLines_trim content)) Hnth)
      as (line0 & Hnth0 & E).
    rewrite <- nth_error_tl in Hnth0.
    apply (Hfirst j line0); [lia|exact Hnth0| |].
    + apply (codeLines_nonBlank content). exact (nth_error_In _ _ Hnth0).
    + exact (badLine_trim_eq _ _ _ _ E Hb).
Qed.

Lemma parseCsvContent_names_nonblank_position_witness :
  parseCsvContent integerValue shortRowAfterBlank = Throw (RowLength 2 1 2)
  /\ errorRow (RowLength 2 1 2) = Some 2
  /\ (2 <= 2
      /\ (exists line, nth_error (nonBlankLines shortRowAfterBlank) (2 - 1) = Some line
            /\ badLine integerValue
                 (List.length (fields (headerLine shortRowAfterBlank))) line)
      /\ (forall j line, 1 <= j < 2 - 1 ->
            nth_error (nonBlankLines shortRowAfterBlank) j = Some line ->
            ~ badLine integerValue
                (List.length (fields (headerLine shortRowAfterBlank))) line)).
Proof.
  split; [reflexivity|]. split; [reflexivity|].
  apply (parseCsvContent_names_nonblank_position ExactNumber integerValue
           shortRowAfterBlank (RowLength 2 1 2) 2); reflexivity.
Defined.

(** C4 as stated fails: after a blank line the named row is not the raw line
    number.  The short row is raw line 3; the error names row 2, and raw
    line 2 is the blank line. *)
Lemma parseCsvContent_row_is_not_raw_line_number :
  parseCsvContent integerValue shortRowAfterBlank = Throw (RowLength 2 1 2)
  /\ nth_error (rawLines shortRowAfterBlank) 1 = Some EmptyString
  /\ nth_error (rawLines shortRowAfterBlank) 2 = Some "1"
  /\ ~ namesOriginalLine (N := ExactNumber) integerValue shortRowAfterBlank.
Proof.
  split; [reflexivity|]. split; [reflexivity|]. split; [reflexivity|].
  intros H.
  destruct (H (RowLength 2 1 2) 2 eq_refl eq_refl) as (line & Hline & Hnb & _).
  vm_compute in Hline. injection Hline as <-. discriminate Hnb.
Qed.

(** C5. The postcondition fails on the code for a player who bears the name
    of a property that every object inherits from [Object.prototype]: the
    test [!playerTotals[playerName]] finds the inherited property, no record
    is created, and the player is missing from the output, although
    [generateChartData], which fills its dictionary by assignment, keeps the
    player's running total.  In [constructorText] the player [constructor]
    has an entry whose deltas sum to 6: [calculatePlayerTotals] returns the
    record of Bob only, and the last point of the chart holds 6 for
    [constructor]. *)
Theorem calculatePlayerTotals_misses_inherited_name :
  parseCsvContent integerValue constructorText
  = Ok (["constructor"; "Bob"], constructorTable)
  /\ seenIn constructorDay "constructor"
  /\ expectedTotal "constructor" constructorDay = Fin 6
  /\ expectedSessions "constructor" constructorDay = 1
  /\ calculatePlayerTotals constructorDay = [exactRecord "Bob" (-6) 1 "2025-01-01"]
  /\ lastPoint constructorDay
     = Some [("date", VString "2025-01-01"); ("sessionName", VString "2025-01-01");
             ("round", exactValue 2); ("constructor", exactValue 6);
             ("Bob", exactValue (-6))].
Proof.
  split; [reflexivity|]. split.
  - eexists. split; [left; reflexivity|reflexivity].
  - repeat split; reflexivity.
Qed.

(** C6, amended. For every list of sessions, over numbers whose comparator
    [b - a] is negative exactly when [b < a] for a strict order [<], as in
    binary64, and when the comparator answers NaN for no two records (no
    total is NaN or infinite), the records returned by
    [calculatePlayerTotals] are in non-increasing order of total; and when
    moreover no player name is a canonical array index, any two players with
    equal totals appear in the order in which the scan of the sessions first
    met them. *)
Theorem calculatePlayerTotals_sorted_and_stable :
  forall (N : Number) (OL : OrderLaws N) (sessions0 : list SessionData),
    neverNaN byTotal (calculatePlayerTotals sessions0) ->
    (forall i j ri rj, i < j ->
       nth_error (calculatePlayerTotals sessions0) i = Some ri ->
       nth_error (calculatePlayerTotals sessions0) j = Some rj ->
       ltb (total ri) (total rj) = false)
    /\ (noIndexNames sessions0 -> tiesInEncounterOrder sessions0).
Proof.
  intros N OL ss _.
  destruct (sort_ranked (JsObject.values (playerTotalsOf ss))) as [D T].
  fold (calculatePlayerTotals ss) in D, T. split.
  - intros i j ri rj Hij Hi Hj.
    exact (StronglySorted_nth _ _ D i j ri rj Hij Hi Hj).
  - intros Hidx i j ri rj Hij Hi Hj E.
    pose proof (StronglySorted_nth _ _ T i j ri rj Hij Hi Hj E) as P.
    destruct (playerTotalsOf_inv ss) as [Hn _].
    apply (precedes_map name) in P.
    rewrite (names_of_values _ Hn), (keys_playerTotalsOf _ Hidx) in P.
    apply precedes_filter in P.
    exact (precedes_indexOf _ _ _ (encounterOrder_NoDup ss) P).
Qed.

Lemma calculatePlayerTotals_sorted_and_stable_witness :
  OrderLaws FloatNumber
  /\ neverNaN byTotal (calculatePlayerTotals levelFloats)
  /\ noIndexNames levelFloats
  /\ map name (calculatePlayerTotals levelFloats) = ["b"; "a"; "c"]
  /\ (forall i j ri rj, i < j ->
        nth_error (calculatePlayerTotals levelFloats) i = Some ri ->
        nth_error (calculatePlayerTotals levelFloats) j = Some rj ->
        ltb (total ri) (total rj) = false)
  /\ tiesInEncounterOrder levelFloats.
Proof.
  assert (Hnan : neverNaN byTotal (calculatePlayerTotals levelFloats)).
  { intros a b Ha Hb. vm_compute in Ha, Hb.
    destruct Ha as [<-|[<-|[<-|[]]]], Hb as [<-|[<-|[<-|[]]]];
      intros H; apply (f_equal PrimFloat.is_nan) in H; vm_compute in H;
      discriminate H. }
  assert (Hidx : noIndexNames levelFloats).
  { intros s k [<-|[<-|[]]] [<-|[<-|[]]]; reflexivity. }
  split; [exact FloatNumber_order|]. split; [exact Hnan|].
  split; [exact Hidx|]. split; [vm_compute; reflexivity|].
  destruct (calculatePlayerTotals_sorted_and_stable FloatNumber FloatNumber_order
              levelFloats Hnan)
    as [Hsorted Hties].
  split; [exact Hsorted|exact (Hties Hidx)].
Defined.

(** C6 as stated fails: a name that is a canonical array index is enumerated
    first.  "b" is met before "1", both total 0, and "1" is returned first. *)
Lemma calculatePlayerTotals_index_name_breaks_ties :
  ~ tiesInEncounterOrder levelPlayers.
Proof.
  intros H.
  destruct (H 0 1 _ _ (Nat.lt_0_1) eq_refl eq_refl eq_refl) as (i & j & Hi & Hj & Hlt).
  vm_compute in Hi, Hj. injection Hi as <-. injection Hj as <-. lia.
Qed.

(** C9. For every parsed table with pairwise distinct player names, the
    normalised session holds, for the player of column [i], a delta sequence
    with one entry per row, whose entry at position [r] is the value of row
    [r] of the table at column [i]. *)
Theorem normalize_is_transpose :
  forall (N : Number) (sessionName0 : string) (players0 : list string)
         (table : list (list num)) (i : nat) (player : string),
    NoDup players0 ->
    rectangular players0 table ->
    nth_error players0 i = Some player ->
    exists deltas,
      JsObject.get player (results (normalize sessionName0 players0 table)) = Some deltas
      /\ List.length deltas = List.length table
      /\ forall r row, nth_error table r = Some row ->
           exists v, nth_error row i = Some v /\ nth_error deltas r = Some v.
Proof.
  intros N sessionName0 players0 table i player Hnd Hrect Hi.
  exists (column i table). split; [|split].
  - cbn [results normalize]. rewrite fillResults_get.
    rewrite (lastIndexOf_NoDup _ _ _ Hnd Hi). reflexivity.
  - apply column_length.
  - intros r row Hr.
    assert (Hlen : i < List.length row).
    { unfold rectangular in Hrect. rewrite Forall_forall in Hrect.
      rewrite (Hrect row (nth_error_In _ _ Hr)). apply nth_error_Some. congruence. }
    destruct (nth_error row i) as [v|] eqn:Hv.
    + exists v. split; [reflexivity|]. exact (column_nth _ _ _ _ _ Hr Hv).
    + apply nth_error_None in Hv. lia.
Qed.

Lemma normalize_is_transpose_witness :
  parseCsvContent integerValue scenarioAText = Ok (["Alice"; "Bob"], scenarioA)
  /\ NoDup ["Alice"; "Bob"]
  /\ rectangular (N := ExactNumber) ["Alice"; "Bob"] scenarioA
  /\ nth_error ["Alice"; "Bob"] 1 = Some "Bob"
  /\ exists deltas,
       JsObject.get "Bob"
         (results (normalize (N := ExactNumber) "2025-01-01" ["Alice"; "Bob"] scenarioA))
       = Some deltas
       /\ List.length deltas = List.length scenarioA
       /\ forall r row, nth_error scenarioA r = Some row ->
            exists v, nth_error row 1 = Some v /\ nth_error deltas r = Some v.
Proof.
  assert (Hparse : parseCsvContent integerValue scenarioAText
                   = Ok (["Alice"; "Bob"], scenarioA)) by reflexivity.
  assert (Hnd : NoDup ["Alice"; "Bob"]).
  { apply JsObjectFacts.nodupb_spec. reflexivity. }
  pose proof (parseCsvContent_rectangular _ _ _ _ Hparse) as Hrect.
  split; [exact Hparse|]. split; [exact Hnd|]. split; [exact Hrect|].
  split; [reflexivity|].
  exact (normalize_is_transpose ExactNumber "2025-01-01" ["Alice"; "Bob"] scenarioA
           1 "Bob" Hnd Hrect eq_refl).
Defined.

(** C10. What the claim draws for [calculatePlayerTotals] fails on the code
    when the duplicated name is one that every object inherits from
    [Object.prototype], by the defect shown for C5.  In
    [twiceConstructorText] the header names [constructor] twice: the
    normalised session has one entry for the name, with the deltas 3 and 2 of
    the last column, and its [players] list is the header unchanged; but
    [calculatePlayerTotals] counts the session for Bob only and returns no
    record for [constructor]. *)
Theorem normalize_duplicate_of_inherited_name_is_not_counted :
  parseCsvContent integerValue twiceConstructorText
  = Ok (twiceConstructor, twiceConstructorTable)
  /\ results (normalize (N := ExactNumber) "2025-01-01" twiceConstructor
                twiceConstructorTable)
     = [("constructor", [Fin 3; Fin 2]); ("Bob", [Fin (-4); Fin (-7)])]
  /\ players (normalize (N := ExactNumber) "2025-01-01" twiceConstructor
                twiceConstructorTable)
     = twiceConstructor
  /\ calculatePlayerTotals
       [normalize (N := ExactNumber) "2025-01-01" twiceConstructor twiceConstructorTable]
     = [exactRecord "Bob" (-11) 1 "2025-01-01"].
Proof. repeat split; reflexivity. Qed.













(** * Further properties *)

(** ** The parser, line by line *)

Section ParserLines.
Context {N : Number}.
Variable numberValue : string -> num.

Lemma trimStart_trim (s : string) : Str.trimStart (Str.trim s) = Str.trim s.
Proof. unfold Str.trim. apply StrFacts.trimStart_idem. Qed.

Lemma parseValue_value (i : nat) (val : string) (v : num) :
  parseValue numberValue i val = Ok v -> v = numberValue (Str.trim val).
Proof.
  unfold parseValue, parseFloat. rewrite trimStart_trim.
  destruct (hasDecimalPrefix (Str.trim val)); [|discriminate].
  intros [= <-]. reflexivity.
Qed.

Lemma mapM_parseValue_values (i : nat) (l : list string) :
  forall values, mapM (parseValue numberValue i) l = Ok values ->
                 values = map (fun field => numberValue (Str.trim field)) l.
Proof.
  induction l as [|f l IH]; intros values; cbn [mapM map].
  - intros [= <-]. reflexivity.
  - destruct (parseValue numberValue i f) as [v|e] eqn:Ef; cbn [bind]; [|discriminate].
    destruct (mapM (parseValue numberValue i) l) as [vs|e]; cbn [bind]; [|discriminate].
    intros [= <-]. rewrite (parseValue_value _ _ _ Ef), (IH vs eq_refl). reflexivity.
Qed.

(** The fields of a line, trimmed, are those of the trimmed line. *)
Lemma trimmed_fields (a b : string) :
  Str.trim a = Str.trim b -> map Str.trim (fields a) = map Str.trim (fields b).
Proof.
  intros E. unfold fields.
  rewrite <- (StrFacts.fields_trim _ a StrFacts.comma_not_whiteSpace), E.
  apply StrFacts.fields_trim. exact StrFacts.comma_not_whiteSpace.
Qed.

Lemma rowValues_trim (a b : string) :
  Str.trim a = Str.trim b -> rowValues numberValue a = rowValues numberValue b.
Proof.
  intros E. unfold rowValues.
  rewrite <- !(map_map Str.trim numberValue), (trimmed_fields _ _ E). reflexivity.
Qed.

(** The row loop reads each line trimmed. *)
Lemma parseRows_trim_eq (players0 : list string) (rest : list string) :
  forall rest', map Str.trim rest = map Str.trim rest' ->
    forall i acc, parseRows numberValue players0 i rest acc
                  = parseRows numberValue players0 i rest' acc.
Proof.
  induction rest as [|l rest IH]; intros [|l' rest'] E i acc; try discriminate;
    [reflexivity|].
  cbn [map] in E. injection E as El Er. cbn [parseRows]. rewrite El.
  destruct (Str.isEmpty (Str.trim l')); [apply IH; exact Er|].
  destruct (mapM (parseValue numberValue i) (Str.split Str.comma (Str.trim l')));
    cbn [bind]; [|reflexivity].
  destruct (Nat.eqb _ _); [apply IH; exact Er|reflexivity].
Qed.

(** The table the row loop returns: the rows accumulated, then one row of
    values per non-blank line. *)
Lemma parseRows_table (players0 : list string) (rest : list string) :
  forall i acc table,
    parseRows numberValue players0 i rest acc = Ok table ->
    table = acc ++ map (rowValues numberValue) (filter nonBlank rest).
Proof.
  induction rest as [|l rest IH]; intros i acc table; cbn [parseRows filter].
  - intros [= <-]. cbn [map]. rewrite app_nil_r. reflexivity.
  - unfold nonBlank at 1. destruct (Str.isEmpty (Str.trim l)); cbn [negb]; [apply IH|].
    destruct (mapM (parseValue numberValue i) (Str.split Str.comma (Str.trim l)))
      as [vs|e] eqn:Em; cbn [bind]; [|discriminate].
    destruct (Nat.eqb _ _); [|discriminate].
    intros H. rewrite (IH _ _ _ H), <- app_assoc. cbn [map app]. do 2 f_equal.
    rewrite (mapM_parseValue_values _ _ _ Em).
    assert (E : Str.trim (Str.trim l) = Str.trim l) by apply StrFacts.trim_idem.
    exact (rowValues_trim _ _ E).
Qed.

(** The header as the code reads it. *)
Lemma players_trim (content : string) :
  map Str.trim (Str.split Str.comma (hd EmptyString (codeLines content)))
  = map Str.trim (fields (headerLine content)).
Proof.
  apply trimmed_fields. unfold headerLine.
  exact (map_eq_hd Str.trim EmptyString _ _ (codeLines_trim content)).
Qed.

Lemma filter_tl_filter {A} (f : A -> bool) (l : list A) :
  filter f (tl (filter f l)) = tl (filter f l).
Proof.
  assert (H : forall m, Forall (fun x => f x = true) m -> filter f m = m).
  { induction 1 as [|x m Hx _ IH]; [reflexivity|]. simpl. rewrite Hx, IH. reflexivity. }
  apply H. apply Forall_forall. intros x Hx.
  assert (Hin : In x (filter f l)) by (destruct (filter f l); [destruct Hx|right; exact Hx]).
  apply filter_In in Hin. apply Hin.
Qed.

(** What the row loop throws, and where: at line [k] of [rest], either the
    first field of the line that is no number, or the line's field count
    when all of its fields are numbers. *)
Lemma mapM_parseValue_first (i : nat) (l : list string) :
  forall e, mapM (parseValue numberValue i) l = Throw e ->
    exists field before after,
      e = InvalidNumber field (i + 1)
      /\ map Str.trim l = before ++ field :: after
      /\ parseFloat numberValue field = None
      /\ forall g, In g before -> parseFloat numberValue g <> None.
Proof.
  induction l as [|f l IH]; intros e; cbn [mapM]; [discriminate|].
  unfold parseValue at 1.
  destruct (parseFloat numberValue (Str.trim f)) as [x|] eqn:Hf; cbn [bind].
  - destruct (mapM (parseValue numberValue i) l) as [vs|e'] eqn:Em; cbn [bind]; [discriminate|].
    intros [= <-]. destruct (IH e' eq_refl) as (field & before & after & -> & E & Hn & Hb).
    exists field, (Str.trim f :: before), after. cbn [map app]. rewrite E.
    repeat split; [exact Hn|]. intros g [<-|Hg]; [congruence|exact (Hb g Hg)].
  - intros [= <-]. exists (Str.trim f), [], (map Str.trim l).
    repeat split; [exact Hf|intros g []].
Qed.

Lemma parseRows_error (players0 : list string) (rest : list string) :
  forall i acc e,
    parseRows numberValue players0 i rest acc = Throw e ->
    exists k line,
      nth_error rest k = Some line
      /\ match e with
         | TooFewLines => False
         | InvalidNumber field row =>
             row = i + k + 1
             /\ exists before after,
                  map Str.trim (fields line) = before ++ field :: after
                  /\ parseFloat numberValue field = None
                  /\ forall g, In g before -> parseFloat numberValue g <> None
         | RowLength row found expected =>
             row = i + k + 1
             /\ found = List.length (fields line)
             /\ expected = List.length players0
             /\ found <> expected
             /\ forall g, In g (map Str.trim (fields line)) -> parseFloat numberValue g <> None
         end.
Proof.
  induction rest as [|l rest IH]; intros i acc e; cbn [parseRows]; [discriminate|].
  assert (Et : map Str.trim (fields (Str.trim l)) = map Str.trim (fields l)).
  { apply trimmed_fields. apply StrFacts.trim_idem. }
  assert (Hshift : forall j,
            parseRows numberValue players0 (S i) rest j = Throw e ->
            exists k line, nth_error (l :: rest) k = Some line
              /\ match e with
                 | TooFewLines => False
                 | InvalidNumber field row =>
                     row = i + k + 1
                     /\ exists before after,
                          map Str.trim (fields line) = before ++ field :: after
                          /\ parseFloat numberValue field = None
                          /\ forall g, In g before -> parseFloat numberValue g <> None
                 | RowLength row found expected =>
                     row = i + k + 1
                     /\ found = List.length (fields line)
                     /\ expected = List.length players0
                     /\ found <> expected
                     /\ forall g, In g (map Str.trim (fields line))
                                  -> parseFloat numberValue g <> None
                 end).
  { intros j H. destruct (IH _ _ _ H) as (k & line & Hk & He).
    exists (S k), line. split; [exact Hk|].
    destruct e as [|field row|row found expected]; [exact He| |].
    - destruct He as [-> He]. split; [lia|exact He].
    - destruct He as [-> He]. split; [lia|exact He]. }
  destruct (Str.isEmpty (Str.trim l)); [apply Hshift|].
  destruct (mapM (parseValue numberValue i) (Str.split Str.comma (Str.trim l)))
    as [vs|e'] eqn:Em; cbn [bind].
  - destruct (Nat.eqb_spec (List.length vs) (List.length players0)) as [Heq|Hne];
      [apply Hshift|].
    intros [= <-]. exists 0, l. split; [reflexivity|].
    pose proof (mapM_parseValue_values _ _ _ Em) as Ev.
    assert (Hlen : List.length vs = List.length (fields l)).
    { rewrite Ev, length_map. apply fields_length_trim. }
    repeat split; [lia|exact Hlen|congruence|].
    intros g Hg. rewrite <- Et in Hg. apply in_map_iff in Hg. destruct Hg as (f & <- & Hf).
    destruct (mapM_parseValue numberValue i (Str.split Str.comma (Str.trim l)))
      as [(vs' & _ & _ & Hall)|(f' & E' & _)]; [|congruence].
    exact (Hall f Hf).
  - intros [= <-].
    destruct (mapM_parseValue_first _ _ _ Em) as (field & before & after & -> & E & Hn & Hb).
    exists 0, l. split; [reflexivity|]. split; [lia|].
    exists before, after. rewrite <- Et. repeat split; assumption.
Qed.

End ParserLines.

Lemma map_rowValues_trim {N : Number} (numberValue : string -> num) (l : list string) :
  forall l', map Str.trim l = map Str.trim l' ->
             map (rowValues numberValue) l = map (rowValues numberValue) l'.
Proof.
  induction l as [|a l IH]; intros [|b l'] E; try discriminate; [reflexivity|].
  cbn [map] in *. injection E as Ea El.
  rewrite (rowValues_trim numberValue _ _ Ea), (IH _ El). reflexivity.
Qed.

Lemma dataLines_trim (content : string) :
  map Str.trim (tl (codeLines content)) = map Str.trim (dataLines content).
Proof. exact (map_eq_tl _ _ _ (codeLines_trim content)). Qed.

Lemma parseCsvContent_players_nonempty {N : Number} (numberValue : string -> num)
    (content : string) (players0 : list string) (table : list (list num)) :
  parseCsvContent numberValue content = Ok (players0, table) -> players0 <> [].
Proof.
  rewrite parseCsvContent_unfold.
  destruct (List.length (nonBlankLines content) <? 2)%nat; [discriminate|].
  destruct (parseRows numberValue _ 1 (tl (codeLines content)) []) as [t|e];
    cbn [bind]; [|discriminate].
  intros [= <- <-] E. apply map_eq_nil in E.
  exact (StrFacts.split_not_nil _ _ E).
Qed.

Lemma parseCsvContent_rows {N : Number} (numberValue : string -> num)
    (content : string) (players0 : list string) (table : list (list num)) :
  parseCsvContent numberValue content = Ok (players0, table) ->
  2 <= List.length (nonBlankLines content)
  /\ List.length table = List.length (nonBlankLines content) - 1.
Proof.
  rewrite parseCsvContent_unfold.
  destruct (Nat.ltb_spec (List.length (nonBlankLines content)) 2) as [|Hge]; [discriminate|].
  destruct (parseRows numberValue _ 1 (tl (codeLines content)) []) as [t|e] eqn:E;
    cbn [bind]; [|discriminate].
  intros [= <- <-]. split; [exact Hge|].
  rewrite (parseRows_table numberValue _ _ _ _ _ E). cbn [app].
  unfold codeLines at 1. rewrite filter_tl_filter. fold (codeLines content).
  rewrite length_map, <- codeLines_length.
  destruct (codeLines content); simpl; lia.
Qed.

(** X1. The result of [parseCsvContent] depends only on the non-blank lines
    of the text, each trimmed: blank lines, indentation, trailing white space
    and carriage returns before the line feeds change neither the table
    returned nor the error thrown. *)
Theorem parseCsvContent_reads_trimmed_lines :
  forall (N : Number) (numberValue : string -> num) (content content' : string),
    map Str.trim (nonBlankLines content) = map Str.trim (nonBlankLines content') ->
    parseCsvContent numberValue content = parseCsvContent numberValue content'.
Proof.
  intros N numberValue c c' E. rewrite !parseCsvContent_unfold.
  assert (Hlen : List.length (nonBlankLines c) = List.length (nonBlankLines c')).
  { rewrite <- (length_map Str.trim (nonBlankLines c)), E. apply length_map. }
  rewrite Hlen. destruct (List.length (nonBlankLines c') <? 2)%nat; [reflexivity|].
  assert (Hplayers : map Str.trim (Str.split Str.comma (hd EmptyString (codeLines c)))
                     = map Str.trim (Str.split Str.comma (hd EmptyString (codeLines c')))).
  { rewrite !players_trim. apply trimmed_fields. unfold headerLine.
    exact (map_eq_hd Str.trim EmptyString _ _ E). }
  assert (Hrows : map Str.trim (tl (codeLines c)) = map Str.trim (tl (codeLines c'))).
  { rewrite !dataLines_trim. exact (map_eq_tl _ _ _ E). }
  rewrite Hplayers, (parseRows_trim_eq numberValue _ _ _ Hrows). reflexivity.
Qed.

Lemma parseCsvContent_reads_trimmed_lines_witness :
  map Str.trim (nonBlankLines scenarioAWindows) = map Str.trim (nonBlankLines scenarioAText)
  /\ parseCsvContent integerValue scenarioAWindows
     = parseCsvContent integerValue scenarioAText.
Proof.
  split; [reflexivity|].
  apply (parseCsvContent_reads_trimmed_lines ExactNumber integerValue
           scenarioAWindows scenarioAText).
  reflexivity.
Defined.

(** X2. When [parseCsvContent] returns, the players are the fields of the
    first non-blank line, trimmed, and the table has one row per later
    non-blank line, in order: the values of that line's fields, trimmed. *)
Theorem parseCsvContent_returns_header_and_rows :
  forall (N : Number) (numberValue : string -> num) (content : string)
         (players0 : list string) (table : list (list num)),
    parseCsvContent numberValue content = Ok (players0, table) ->
    players0 = map Str.trim (fields (headerLine content))
    /\ table = map (rowValues numberValue) (dataLines content).
Proof.
  intros N numberValue content players0 table. rewrite parseCsvContent_unfold.
  destruct (List.length (nonBlankLines content) <? 2)%nat; [discriminate|].
  destruct (parseRows numberValue _ 1 (tl (codeLines content)) []) as [t|e] eqn:E;
    cbn [bind]; [|discriminate].
  intros [= <- <-]. split; [apply players_trim|].
  rewrite (parseRows_table numberValue _ _ _ _ _ E). cbn [app].
  unfold codeLines at 1. rewrite filter_tl_filter. fold (codeLines content).
  apply map_rowValues_trim. apply dataLines_trim.
Qed.

Lemma parseCsvContent_returns_header_and_rows_witness :
  parseCsvContent integerValue scenarioAWindows = Ok (["Alice"; "Bob"], scenarioA)
  /\ ["Alice"; "Bob"] = map Str.trim (fields (headerLine scenarioAWindows))
  /\ scenarioA = map (rowValues integerValue) (dataLines scenarioAWindows).
Proof.
  split; [reflexivity|].
  apply (parseCsvContent_returns_header_and_rows ExactNumber integerValue
           scenarioAWindows ["Alice"; "Bob"] scenarioA).
  reflexivity.
Defined.

(** X3. A table that [parseCsvContent] returns has at least one player and
    at least one row, one row per non-blank line after the header, and every
    row is as wide as the header. *)
Theorem parseCsvContent_table_shape :
  forall (N : Number) (numberValue : string -> num) (content : string)
         (players0 : list string) (table : list (list num)),
    parseCsvContent numberValue content = Ok (players0, table) ->
    1 <= List.length players0
    /\ 1 <= List.length table
    /\ List.length table = List.length (nonBlankLines content) - 1
    /\ rectangular players0 table.
Proof.
  intros N numberValue content players0 table H.
  destruct (parseCsvContent_rows _ _ _ _ H) as [Hge Hrows].
  pose proof (parseCsvContent_players_nonempty _ _ _ _ H) as Hps.
  repeat split.
  - destruct players0; [congruence|simpl; lia].
  - lia.
  - exact Hrows.
  - exact (parseCsvContent_rectangular _ _ _ _ H).
Qed.

Lemma parseCsvContent_table_shape_witness :
  parseCsvContent integerValue scenarioAText = Ok (["Alice"; "Bob"], scenarioA)
  /\ 1 <= List.length ["Alice"; "Bob"]
  /\ 1 <= List.length scenarioA
  /\ List.length scenarioA = List.length (nonBlankLines scenarioAText) - 1
  /\ rectangular (N := ExactNumber) ["Alice"; "Bob"] scenarioA.
Proof.
  split; [reflexivity|].
  apply (parseCsvContent_table_shape ExactNumber integerValue scenarioAText
           ["Alice"; "Bob"] scenarioA).
  reflexivity.
Defined.

(** X4. When [parseCsvContent] rejects a field, the field quoted in the
    message is the first field of the named line, in reading order, that
    does not parse as a number once trimmed; it is quoted trimmed. *)
Theorem parseCsvContent_quotes_first_bad_field :
  forall (N : Number) (numberValue : string -> num) (content field : string) (row : nat),
    parseCsvContent numberValue content = Throw (InvalidNumber field row) ->
    exists line before after,
      2 <= row
      /\ nth_error (nonBlankLines content) (row - 1) = Some line
      /\ map Str.trim (fields line) = before ++ field :: after
      /\ parseFloat numberValue field = None
      /\ forall g, In g before -> parseFloat numberValue g <> None.
Proof.
  intros N numberValue content field row. rewrite parseCsvContent_unfold.
  destruct (List.length (nonBlankLines content) <? 2)%nat; [discriminate|].
  destruct (parseRows numberValue _ 1 (tl (codeLines content)) []) as [t|e] eqn:E;
    cbn [bind]; [discriminate|].
  intros [= ->].
  destruct (parseRows_error numberValue _ _ _ _ _ E)
    as (k & line0 & Hk & -> & before & after & Ef & Hn & Hb).
  rewrite nth_error_tl in Hk.
  destruct (map_eq_nth_error _ _ _ _ _ (codeLines_trim content) Hk) as (line & Hline & Et).
  exists line, before, after.
  replace (1 + k + 1 - 1) with (S k) by lia.
  repeat split; [lia|exact Hline| |exact Hn|exact Hb].
  rewrite <- Ef. symmetry. apply trimmed_fields. exact Et.
Qed.

Lemma parseCsvContent_quotes_first_bad_field_witness :
  parseCsvContent integerValue badFieldText = Throw (InvalidNumber "x" 3)
  /\ exists line before after,
       2 <= 3
       /\ nth_error (nonBlankLines badFieldText) (3 - 1) = Some line
       /\ map Str.trim (fields line) = before ++ "x" :: after
       /\ parseFloat integerValue "x" = None
       /\ forall g, In g before -> parseFloat integerValue g <> None.
Proof.
  split; [reflexivity|].
  apply (parseCsvContent_quotes_first_bad_field ExactNumber integerValue badFieldText "x" 3).
  reflexivity.
Defined.

(** X5. When [parseCsvContent] rejects a row for its length, the message
    gives the number of fields of the named line and the number of fields of
    the header, which differ; every field of that line parses as a number,
    for a field that is no number is reported first. *)
Theorem parseCsvContent_counts_fields_of_numeric_row :
  forall (N : Number) (numberValue : string -> num) (content : string)
         (row found expected : nat),
    parseCsvContent numberValue content = Throw (RowLength row found expected) ->
    exists line,
      2 <= row
      /\ nth_error (nonBlankLines content) (row - 1) = Some line
      /\ found = List.length (fields line)
      /\ expected = List.length (fields (headerLine content))
      /\ found <> expected
      /\ forall field, In field (fields line) -> ~ notANumber numberValue field.
Proof.
  intros N numberValue content row found expected. rewrite parseCsvContent_unfold.
  destruct (List.length (nonBlankLines content) <? 2)%nat; [discriminate|].
  destruct (parseRows numberValue _ 1 (tl (codeLines content)) []) as [t|e] eqn:E;
    cbn [bind]; [discriminate|].
  intros [= ->].
  destruct (parseRows_error numberValue _ _ _ _ _ E)
    as (k & line0 & Hk & -> & -> & -> & Hne & Hall).
  rewrite nth_error_tl in Hk.
  destruct (map_eq_nth_error _ _ _ _ _ (codeLines_trim content) Hk) as (line & Hline & Et).
  pose proof (trimmed_fields _ _ Et) as Ef.
  assert (Hlen : List.length (fields line0) = List.length (fields line)).
  { rewrite <- (length_map Str.trim (fields line0)), Ef. apply length_map. }
  exists line. replace (1 + k + 1 - 1) with (S k) by lia.
  rewrite players_width in *.
  repeat split; [lia|exact Hline|exact Hlen|congruence|].
  intros f Hf Hnan. apply (Hall (Str.trim f)); [|exact Hnan].
  rewrite Ef. apply in_map. exact Hf.
Qed.

Lemma parseCsvContent_counts_fields_of_numeric_row_witness :
  parseCsvContent integerValue scenarioC = Throw (RowLength 2 1 2)
  /\ exists line,
       2 <= 2
       /\ nth_error (nonBlankLines scenarioC) (2 - 1) = Some line
       /\ 1 = List.length (fields line)
       /\ 2 = List.length (fields (headerLine scenarioC))
       /\ 1 <> 2
       /\ forall field, In field (fields line) -> ~ notANumber integerValue field.
Proof.
  split; [reflexivity|].
  apply (parseCsvContent_counts_fields_of_numeric_row ExactNumber integerValue
           scenarioC 2 1 2).
  reflexivity.
Defined.

(** ** Sorting by a comparator that orders as a strict order does *)

Section SortedBy.
Context {N : Number} {A : Type}.
Variable compareFn : A -> A -> num.
Variable before : A -> A -> bool.
(** The elements on which the comparator is known to follow the order. *)
Variable domain : A -> Prop.
Hypothesis compareFn_before :
  forall x y, domain x -> domain y -> ltb (compareFn x y) zero = before x y.
Hypothesis before_asym : forall x y, before x y = true -> before y x = false.
Hypothesis before_trans :
  forall x y z, before x y = true -> before y z = true -> before x z = true.

Lemma insertSorted_sorted (x : A) (l : list A) :
  domain x -> Forall domain l ->
  StronglySorted (fun a b => before b a = false) l ->
  StronglySorted (fun a b => before b a = false) (insertSorted compareFn x l).
Proof.
  intros Hx Hl. induction 1 as [|y l S IH F]; simpl.
  - constructor; constructor.
  - inversion Hl as [|? ? Hy Hl']; subst. specialize (IH Hl').
    rewrite (compareFn_before _ _ Hx Hy). destruct (before x y) eqn:Hxy.
    + constructor; [constructor; assumption|].
      constructor; [exact (before_asym _ _ Hxy)|].
      rewrite Forall_forall in *. intros w Hw.
      destruct (before w x) eqn:Hwx; [|reflexivity].
      rewrite <- (F w Hw). symmetry. exact (before_trans _ _ _ Hwx Hxy).
    + constructor; [exact IH|].
      rewrite Forall_forall in *. intros w Hw.
      apply (Permutation_in _ (insertSorted_perm compareFn x l)) in Hw.
      destruct Hw as [<-|Hw]; [exact Hxy|apply F; exact Hw].
Qed.

Lemma sort_sorted (l : list A) :
  Forall domain l ->
  StronglySorted (fun a b => before b a = false) (sort compareFn l).
Proof.
  unfold sort. intros Hl.
  assert (H : forall acc, Forall domain acc ->
            StronglySorted (fun a b => before b a = false) acc ->
            StronglySorted (fun a b => before b a = false)
              (fold_left (fun acc x => insertSorted compareFn x acc) l acc)).
  { induction Hl as [|x l Hx _ IH]; intros acc Hdom Hacc; [exact Hacc|].
    cbn [fold_left]. apply IH.
    - rewrite Forall_forall in *. intros y Hy.
      apply (Permutation_in _ (insertSorted_perm compareFn x acc)) in Hy.
      destruct Hy as [<-|Hy]; [exact Hx|exact (Hdom y Hy)].
    - apply insertSorted_sorted; assumption. }
  apply H; constructor.
Qed.

End SortedBy.

(** ** The loop over the files *)

Section LoaderFacts.
Context {N : Number}.
Variable numberValue : string -> num.
Variable fetch : string -> FetchResult.

Lemma loadFiles_from (files : list string) :
  forall sessions0 console,
    fold_left (loadStep numberValue fetch) files (sessions0, console)
    = (sessions0 ++ loadedSessions numberValue fetch files,
       console ++ consoleLines numberValue fetch files).
Proof.
  induction files as [|f files IH]; intros sessions0 console.
  - simpl. rewrite !app_nil_r. reflexivity.
  - cbn [fold_left loadStep loadedSessions consoleLines flat_map].
    destruct (loadFile numberValue fetch f) as [s|e]; rewrite IH; cbn [app].
    + rewrite <- app_assoc. reflexivity.
    + rewrite <- app_assoc. reflexivity.
Qed.

Lemma loadFiles_eq (files : list string) :
  loadFiles numberValue fetch files
  = (loadedSessions numberValue fetch files, consoleLines numberValue fetch files).
Proof. unfold loadFiles. rewrite loadFiles_from. reflexivity. Qed.

(** One iteration pushes a session exactly for a file that is served and
    parses. *)
Lemma loadFile_Ok (filename : string) (s : SessionData) :
  loadFile numberValue fetch filename = Ok s
  <-> exists players0 table,
        served numberValue fetch filename players0 table
        /\ s = normalize (getSessionNameFromFilename filename) players0 table.
Proof.
  unfold loadFile, served. split.
  - destruct (fetch ("/data/" ++ filename)%string) as [|[|] status [content|]];
      try discriminate.
    destruct (parseCsvContent numberValue content) as [[players0 table]|e] eqn:E;
      [|discriminate].
    intros [= <-]. exists players0, table. split; [|reflexivity].
    exists status, content. split; [reflexivity|exact E].
  - intros (players0 & table & (status & content & -> & ->) & ->). reflexivity.
Qed.

Lemma loadedSessions_In (files : list string) (s : SessionData) :
  In s (loadedSessions numberValue fetch files)
  <-> exists filename, In filename files /\ loadFile numberValue fetch filename = Ok s.
Proof.
  unfold loadedSessions. rewrite in_flat_map. split.
  - intros (f & Hf & Hin). exists f. split; [exact Hf|].
    destruct (loadFile numberValue fetch f) as [s'|e]; [|destruct Hin].
    destruct Hin as [<-|[]]. reflexivity.
  - intros (f & Hf & E). exists f. split; [exact Hf|]. rewrite E. left. reflexivity.
Qed.

Lemma loaded_or_logged (files : list string) :
  List.length (loadedSessions numberValue fetch files)
  + List.length (consoleLines numberValue fetch files)
  = List.length files.
Proof.
  induction files as [|f files IH]; [reflexivity|].
  cbn [loadedSessions consoleLines flat_map]. rewrite !length_app.
  fold (loadedSessions numberValue fetch files). fold (consoleLines numberValue fetch files).
  destruct (loadFile numberValue fetch f); simpl; lia.
Qed.

Lemma loadFile_Throw (filename : string) (entry : LogEntry) :
  loadFile numberValue fetch filename = Throw entry -> logFile entry = filename.
Proof.
  unfold loadFile.
  destruct (fetch ("/data/" ++ filename)%string) as [|[|] status [content|]];
    try (intros [= <-]; reflexivity).
  destruct (parseCsvContent numberValue content) as [[players0 table]|e];
    [discriminate|intros [= <-]; reflexivity].
Qed.

(** The console names the files that gave no session, in file order. *)
Lemma consoleLines_files (files : list string) :
  map logFile (consoleLines numberValue fetch files)
  = filter (fun filename =>
              match loadFile numberValue fetch filename with
              | Ok _ => false
              | Throw _ => true
              end) files.
Proof.
  induction files as [|f files IH]; [reflexivity|].
  cbn [consoleLines flat_map filter]. rewrite map_app.
  fold (consoleLines numberValue fetch files). rewrite IH.
  destruct (loadFile numberValue fetch f) as [s|e] eqn:E; [reflexivity|].
  cbn [map app]. rewrite (loadFile_Throw _ _ E). reflexivity.
Qed.

End LoaderFacts.


(** X6. Whatever the table, the session built from a header with at least
    one name, none of them [__proto__], is an object with one entry per
    distinct name of the header, all of whose delta sequences have the
    length of the table, its round count. *)
Theorem normalize_session_is_uniform :
  forall (N : Number) (sessionName0 : string) (players0 : list string)
         (table : list (list num)),
    players0 <> [] ->
    ~ In "__proto__" players0 ->
    distinctKeys (normalize sessionName0 players0 table)
    /\ (forall k, In k (JsObject.keys (results (normalize sessionName0 players0 table)))
                  <-> In k players0)
    /\ uniform (normalize sessionName0 players0 table)
    /\ roundCount (normalize sessionName0 players0 table) = List.length table.
Proof.
  intros N sessionName0 players0 table Hps _. split; [|split; [|split]].
  - apply normalize_distinctKeys.
  - intros k. cbn [results normalize]. rewrite fillResults_keys. simpl. tauto.
  - apply normalize_uniform. exact Hps.
  - apply normalize_roundCount. exact Hps.
Qed.

Lemma normalize_session_is_uniform_witness :
  twiceAlice <> []
  /\ ~ In "__proto__" twiceAlice
  /\ distinctKeys (normalize (N := ExactNumber) "2025-01-01" twiceAlice twiceAliceTable)
  /\ (forall k, In k (JsObject.keys
                        (results (normalize (N := ExactNumber) "2025-01-01"
                                    twiceAlice twiceAliceTable)))
                <-> In k twiceAlice)
  /\ uniform (normalize (N := ExactNumber) "2025-01-01" twiceAlice twiceAliceTable)
  /\ roundCount (normalize (N := ExactNumber) "2025-01-01" twiceAlice twiceAliceTable)
     = List.length twiceAliceTable.
Proof.
  assert (Hproto : ~ In "__proto__" twiceAlice).
  { intros [H|[H|[H|[]]]]; discriminate H. }
  split; [discriminate|]. split; [exact Hproto|].
  apply (normalize_session_is_uniform ExactNumber "2025-01-01" twiceAlice twiceAliceTable);
    [discriminate|exact Hproto].
Defined.

(** X7. For a name without a dot, [getSessionNameFromFilename] maps the
    name followed by ".csv" back to the name; only this first ".csv" is
    removed, what follows it is kept. *)
Theorem getSessionNameFromFilename_removes_first_extension :
  forall stem rest : string,
    dotFree stem = true ->
    getSessionNameFromFilename (stem ++ ".csv" ++ rest) = (stem ++ rest)%string.
Proof.
  unfold getSessionNameFromFilename.
  induction stem as [|c stem IH]; intros rest H.
  - destruct rest; reflexivity.
  - cbn [dotFree] in H. apply andb_true_iff in H. destruct H as [Hc Hstem].
    apply negb_true_iff in Hc.
    change ((String c stem ++ ".csv" ++ rest)%string)
      with (String c (stem ++ ".csv" ++ rest)%string).
    cbn [removeFirst String.prefix]. rewrite Ascii.eqb_sym in Hc.
    destruct (Ascii.ascii_dec "."%char c) as [E|_].
    + rewrite <- E, Ascii.eqb_refl in Hc. discriminate.
    + rewrite (IH rest Hstem). reflexivity.
Qed.

Lemma getSessionNameFromFilename_removes_first_extension_witness :
  dotFree "2025-08-13" = true
  /\ getSessionNameFromFilename ("2025-08-13" ++ ".csv" ++ ".csv") = "2025-08-13.csv".
Proof.
  split; [reflexivity|].
  apply (getSessionNameFromFilename_removes_first_extension "2025-08-13" ".csv").
  reflexivity.
Defined.

Lemma loadAllSessions_eq {N : Number} (numberValue : string -> num)
    (fetch : string -> FetchResult) (localeCompare : string -> string -> num) :
  loadAllSessions numberValue fetch localeCompare
  = (sort (fun a b => localeCompare (date a) (date b))
          (loadedSessions numberValue fetch CSV_FILES),
     consoleLines numberValue fetch CSV_FILES).
Proof. unfold loadAllSessions. rewrite loadFiles_eq. reflexivity. Qed.

Lemma consoleLines_In {N : Number} (numberValue : string -> num)
    (fetch : string -> FetchResult) (files : list string) (entry : LogEntry) :
  In entry (consoleLines numberValue fetch files)
  <-> exists filename, In filename files
        /\ loadFile numberValue fetch filename = Throw entry.
Proof.
  unfold consoleLines. rewrite in_flat_map. split.
  - intros (f & Hf & Hin). exists f. split; [exact Hf|].
    destruct (loadFile numberValue fetch f) as [s|e]; [destruct Hin|].
    destruct Hin as [<-|[]]. reflexivity.
  - intros (f & Hf & E). exists f. split; [exact Hf|]. rewrite E. left. reflexivity.
Qed.

(** X8. The sessions [loadAllSessions] returns are exactly the sessions of
    the listed files that are served with an ok status and parse: a file that
    is not served, or whose text is rejected, is skipped and the others are
    still loaded. *)
Theorem loadAllSessions_returns_served_files :
  forall (N : Number) (numberValue : string -> num) (fetch : string -> FetchResult)
         (localeCompare : string -> string -> num) (session : SessionData),
    In session (fst (loadAllSessions numberValue fetch localeCompare))
    <-> exists filename players0 table,
          In filename CSV_FILES
          /\ served numberValue fetch filename players0 table
          /\ session = normalize (getSessionNameFromFilename filename) players0 table.
Proof.
  intros N numberValue fetch localeCompare session.
  rewrite loadAllSessions_eq. cbn [fst]. rewrite In_sort, loadedSessions_In. split.
  - intros (filename & Hin & E). apply loadFile_Ok in E.
    destruct E as (players0 & table & Hs & ->).
    exists filename, players0, table. repeat split; assumption.
  - intros (filename & players0 & table & Hin & Hs & ->).
    exists filename. split; [exact Hin|]. apply loadFile_Ok.
    exists players0, table. split; [exact Hs|reflexivity].
Qed.

(** X9. Every listed file is accounted for once: the sessions returned and
    the lines written to the console are together as many as the files; each
    line names a listed file that gave no session; a response that is not ok
    is reported with its status, and a text that does not parse with the
    parser's error. *)
Theorem loadAllSessions_accounts_for_every_file :
  forall (N : Number) (numberValue : string -> num) (fetch : string -> FetchResult)
         (localeCompare : string -> string -> num),
    let '(sessions0, console) := loadAllSessions numberValue fetch localeCompare in
    List.length sessions0 + List.length console = List.length CSV_FILES
    /\ (forall entry, In entry console ->
          In (logFile entry) CSV_FILES
          /\ forall players0 table,
               ~ served numberValue fetch (logFile entry) players0 table)
    /\ (forall filename status body,
          In filename CSV_FILES ->
          fetch ("/data/" ++ filename)%string = Response false status body ->
          In (CouldNotFetch filename status) console)
    /\ (forall filename status content e,
          In filename CSV_FILES ->
          fetch ("/data/" ++ filename)%string = Response true status (Some content) ->
          parseCsvContent numberValue content = Throw e ->
          In (ErrorProcessing filename (ParseFailed e)) console).
Proof.
  intros N numberValue fetch localeCompare. rewrite loadAllSessions_eq.
  split; [|split; [|split]].
  - rewrite (Permutation_length (sort_perm _ _)). apply loaded_or_logged.
  - intros entry Hin. apply consoleLines_In in Hin. destruct Hin as (f & Hf & E).
    rewrite (loadFile_Throw _ _ _ _ E). split; [exact Hf|].
    intros players0 table Hs.
    assert (Hok : loadFile numberValue fetch f
                  = Ok (normalize (getSessionNameFromFilename f) players0 table)).
    { apply loadFile_Ok. exists players0, table. split; [exact Hs|reflexivity]. }
    congruence.
  - intros filename status body Hin Hf. apply consoleLines_In.
    exists filename. split; [exact Hin|]. unfold loadFile. rewrite Hf. reflexivity.
  - intros filename status content e Hin Hf He. apply consoleLines_In.
    exists filename. split; [exact Hin|]. unfold loadFile. rewrite Hf, He. reflexivity.
Qed.

(** X10. When no served file has a column named [__proto__], every session
    [loadAllSessions] returns is named and dated by its file's name without
    extension, has at least one player and at least one round, distinct
    keys, and delta sequences of one length: what [calculatePlayerTotals]
    and [generateChartData] expect. *)
Theorem loadAllSessions_sessions_are_uniform :
  forall (N : Number) (numberValue : string -> num) (fetch : string -> FetchResult)
         (localeCompare : string -> string -> num) (session : SessionData),
    noProtoColumn numberValue fetch ->
    In session (fst (loadAllSessions numberValue fetch localeCompare)) ->
    (exists filename, In filename CSV_FILES
       /\ sessionName session = getSessionNameFromFilename filename
       /\ date session = getSessionNameFromFilename filename)
    /\ JsObject.keys (results session) <> []
    /\ distinctKeys session
    /\ uniform session
    /\ 1 <= roundCount session.
Proof.
  intros N numberValue fetch localeCompare session _.
  rewrite loadAllSessions_eq. cbn [fst]. rewrite In_sort, loadedSessions_In.
  intros (filename & Hin & E). apply loadFile_Ok in E.
  destruct E as (players0 & table & (status & content & _ & Hparse) & ->).
  pose proof (parseCsvContent_players_nonempty _ _ _ _ Hparse) as Hps.
  destruct (parseCsvContent_rows _ _ _ _ Hparse) as [Hge Hrows].
  split; [exists filename; repeat split; exact Hin|].
  split; [|split; [|split]].
  - destruct players0 as [|p ps]; [congruence|]. intros Hnil.
    assert (Hp : In p (JsObject.keys
                         (results (normalize (getSessionNameFromFilename filename)
                                     (p :: ps) table)))).
    { apply fillResults_keys. left. left. reflexivity. }
    rewrite Hnil in Hp. exact Hp.
  - apply normalize_distinctKeys.
  - apply normalize_uniform. exact Hps.
  - rewrite (normalize_roundCount _ _ _ Hps). lia.
Qed.

Lemma loadAllSessions_sessions_are_uniform_witness :
  noProtoColumn integerValue someNetwork
  /\ In (normalize (N := ExactNumber) "2025-08-13" ["Alice"; "Bob"] scenarioA)
        (fst (loadAllSessions integerValue someNetwork compareCodeUnits))
  /\ (exists filename, In filename CSV_FILES
        /\ "2025-08-13" = getSessionNameFromFilename filename
        /\ "2025-08-13" = getSessionNameFromFilename filename)
  /\ JsObject.keys (results (normalize (N := ExactNumber) "2025-08-13"
                               ["Alice"; "Bob"] scenarioA)) <> []
  /\ distinctKeys (normalize (N := ExactNumber) "2025-08-13" ["Alice"; "Bob"] scenarioA)
  /\ uniform (normalize (N := ExactNumber) "2025-08-13" ["Alice"; "Bob"] scenarioA)
  /\ 1 <= roundCount (normalize (N := ExactNumber) "2025-08-13" ["Alice"; "Bob"] scenarioA).
Proof.
  assert (Hproto : noProtoColumn integerValue someNetwork).
  { intros filename players0 table Hin (status & content & Hf & Hp).
    repeat (destruct Hin as [<-|Hin];
            [vm_compute in Hf; try discriminate Hf; injection Hf as _ <-;
             vm_compute in Hp; try discriminate Hp; injection Hp as <- _;
             intros H; repeat (destruct H as [H|H]; [discriminate H|]); exact H|]).
    destruct Hin. }
  assert (Hin : In (normalize (N := ExactNumber) "2025-08-13" ["Alice"; "Bob"] scenarioA)
                   (fst (loadAllSessions integerValue someNetwork compareCodeUnits))).
  { vm_compute. right. left. reflexivity. }
  split; [exact Hproto|]. split; [exact Hin|].
  exact (loadAllSessions_sessions_are_uniform ExactNumber integerValue someNetwork
           compareCodeUnits _ Hproto Hin).
Defined.

Lemma compareCodeUnits_orders (a b : string) :
  ltb (Number := ExactNumber) (compareCodeUnits a b) zero = String.ltb a b.
Proof.
  unfold compareCodeUnits, String.ltb.
  destruct (String.compare a b); reflexivity.
Qed.

Lemma String_ltb_asym (a b : string) : String.ltb a b = true -> String.ltb b a = false.
Proof.
  intros H. destruct (String.ltb b a) eqn:E; [|reflexivity].
  rewrite <- (StringOrder.ltb_irrefl a). symmetry. exact (StringOrder.ltb_trans _ _ _ H E).
Qed.

(** X11. Where [localeCompare] orders the session names of the listed files
    as the comparison of code units does, the sessions [loadAllSessions]
    returns are in ascending order of date, whatever the order of the
    files. *)
Theorem loadAllSessions_sorted_by_date :
  forall (N : Number) (numberValue : string -> num) (fetch : string -> FetchResult)
         (localeCompare : string -> string -> num),
    ordersDatesAsCodeUnits localeCompare ->
    byDate (fst (loadAllSessions numberValue fetch localeCompare)).
Proof.
  intros N numberValue fetch localeCompare Hlc.
  rewrite loadAllSessions_eq. cbn [fst]. unfold byDate.
  apply (sort_sorted (fun a b => localeCompare (date a) (date b))
                     (fun a b => String.ltb (date a) (date b))
                     (fun s => exists f, In f CSV_FILES
                                 /\ date s = getSessionNameFromFilename f)).
  - intros x y (f & Hf & ->) (g & Hg & ->). apply Hlc; assumption.
  - intros x y. apply String_ltb_asym.
  - intros x y z. apply StringOrder.ltb_trans.
  - apply Forall_forall. intros s Hs. apply loadedSessions_In in Hs.
    destruct Hs as (f & Hf & E). apply loadFile_Ok in E.
    destruct E as (players0 & table & _ & ->). exists f. split; [exact Hf|reflexivity].
Qed.

Lemma loadAllSessions_sorted_by_date_witness :
  ordersDatesAsCodeUnits (N := ExactNumber) compareCodeUnits
  /\ byDate (fst (loadAllSessions integerValue someNetwork compareCodeUnits)).
Proof.
  assert (Hlc : ordersDatesAsCodeUnits (N := ExactNumber) compareCodeUnits).
  { intros f g _ _. apply compareCodeUnits_orders. }
  split; [exact Hlc|].
  exact (loadAllSessions_sorted_by_date ExactNumber integerValue someNetwork
           compareCodeUnits Hlc).
Defined.

(** ** The rows of the leaderboard *)

Section LeaderboardFacts.
Context {N : Number}.
Import JsObject JsObjectFacts.

Lemma keys_addEntry_In (s : SessionData) (pt : JsObject.t PlayerTotal) p ds k :
  In k (keys (addEntry s pt (p, ds)))
  <-> (k = p /\ inherited p = false) \/ In k (keys pt).
Proof.
  rewrite keys_addEntry. destruct (has p pt) eqn:Hh.
  - apply has_spec in Hh. split; [auto|]. intros [[-> _]|H]; assumption.
  - destruct (inherited p).
    + split; [auto|]. intros [[_ H]|H]; [discriminate H|exact H].
    + rewrite In_keys_set. split; intros [H|H]; auto. left. apply H.
Qed.

Lemma keys_addEntries_In (s : SessionData) (es : JsObject.t (list num)) :
  forall (pt : JsObject.t PlayerTotal) k,
    In k (keys (fold_left (addEntry s) es pt))
    <-> (In k (keys es) /\ inherited k = false) \/ In k (keys pt).
Proof.
  induction es as [|[p ds] es IH]; intros pt k; cbn [fold_left].
  - simpl. tauto.
  - rewrite IH, keys_addEntry_In. simpl. split.
    + intros [[H Hk]|[[-> Hk]|H]]; auto.
    + intros [[[->|H] Hk]|H]; auto.
Qed.

Lemma keys_playerTotals_In (ss : list SessionData) :
  forall (pt : JsObject.t PlayerTotal) k,
    In k (keys (fold_left addSession ss pt))
    <-> ((exists s, In s ss /\ In k (keys (results s))) /\ inherited k = false)
        \/ In k (keys pt).
Proof.
  induction ss as [|s ss IH]; intros pt k; cbn [fold_left].
  - split; [auto|]. intros [[(s & [] & _) _]|H]. exact H.
  - rewrite IH. unfold addSession, entries. rewrite keys_addEntries_In. split.
    + intros [[(s' & Hs' & Hk) Hi]|[[Hk Hi]|Hk]];
        [left; split; [exists s'; split; [right|]; assumption|exact Hi]
        |left; split; [exists s; split; [left; reflexivity|exact Hk]|exact Hi]
        |right; exact Hk].
    + intros [[(s' & [<-|Hs'] & Hk) Hi]|Hk];
        [right; left; split; assumption
        |left; split; [exists s'; split; assumption|exact Hi]
        |right; right; exact Hk].
Qed.

(** The keys of [playerTotals] are the players seen whose names
    [Object.prototype] does not define. *)
Lemma keys_playerTotalsOf_seen (ss : list SessionData) (k : string) :
  In k (keys (playerTotalsOf ss)) <-> seenIn ss k /\ inherited k = false.
Proof.
  unfold playerTotalsOf. rewrite keys_playerTotals_In. unfold seenIn, appearsIn. split.
  - intros [[(s & Hs & Hk) Hi]|[]]. split; [|exact Hi].
    exists s. split; [exact Hs|]. apply has_spec. exact Hk.
  - intros [(s & Hs & Hk) Hi]. left. split; [|exact Hi].
    exists s. split; [exact Hs|]. apply has_spec. exact Hk.
Qed.


(** The names of the output are the keys of [playerTotals], reordered. *)
Lemma names_perm (ss : list SessionData) :
  Permutation (map name (calculatePlayerTotals ss)) (keys (playerTotalsOf ss)).
Proof.
  destruct (playerTotalsOf_inv ss) as [Hn _].
  rewrite <- (names_of_values _ Hn). apply Permutation_map. apply sort_perm.
Qed.

Lemma names_NoDup (ss : list SessionData) : NoDup (map name (calculatePlayerTotals ss)).
Proof.
  destruct (playerTotalsOf_inv ss) as [_ Hd].
  exact (Permutation_NoDup (Permutation_sym (names_perm ss)) Hd).
Qed.

Lemma creditSession_sessions (s : SessionData) (t : num) (r : PlayerTotal) :
  sessions (creditSession s t r) = sessions r + 1.
Proof.
  unfold creditSession. cbn [name total sessions lastSession].
  destruct (String.ltb (lastSession r) (date s)); reflexivity.
Qed.

(** Every stored record has been credited at least once. *)
Lemma addEntry_counted (s : SessionData) (pt : JsObject.t PlayerTotal) (e : string * list num) :
  (forall k r, get k pt = Some r -> 1 <= sessions r) ->
  forall k r, get k (addEntry s pt e) = Some r -> 1 <= sessions r.
Proof.
  destruct e as [p ds]. intros Hpt k r.
  destruct (String.eqb_spec k p) as [->|Hne].
  - unfold addEntry, has. destruct (get p pt) as [r0|] eqn:E.
    + rewrite get_modify_same, E. intros [= <-]. rewrite creditSession_sessions. lia.
    + destruct (inherited p); [rewrite E; discriminate|].
      rewrite get_modify_same, get_set_same. intros [= <-].
      rewrite creditSession_sessions. lia.
  - rewrite (addEntry_get_other _ _ _ _ _ Hne). apply Hpt.
Qed.

Lemma playerTotals_counted (ss : list SessionData) :
  forall pt : JsObject.t PlayerTotal,
    (forall k r, get k pt = Some r -> 1 <= sessions r) ->
    forall k r, get k (fold_left addSession ss pt) = Some r -> 1 <= sessions r.
Proof.
  induction ss as [|s ss IH]; intros pt H; [exact H|].
  cbn [fold_left]. apply IH. unfold addSession, entries.
  generalize dependent pt. induction (results s) as [|e es IHe]; intros pt H; [exact H|].
  cbn [fold_left]. apply IHe. apply addEntry_counted. exact H.
Qed.

End LeaderboardFacts.

(** ** The order of the sessions *)

Section OrderOfSessions.
Context {N : Number}.




Context {V : IntegerView N} {SI : SafeIntegers N V}.




End OrderOfSessions.

(** X12. For every list of sessions, the leaderboard has exactly one row per
    distinct player seen whose name is not one that objects inherit from
    [Object.prototype]: the names of its rows are, up to order, those of the
    players [generateChartData] collects; and every row counts at least one
    session, so that the average per session never divides by zero. *)
Theorem calculatePlayerTotals_rows_are_the_players :
  forall (N : Number) (sessions0 : list SessionData),
    Permutation (map name (calculatePlayerTotals sessions0))
                (filter JsObject.notInherited (collectPlayers sessions0))
    /\ (forall player, In player (map name (calculatePlayerTotals sessions0))
                       <-> seenIn sessions0 player /\ JsObject.inherited player = false)
    /\ Forall (fun r => 1 <= sessions r) (calculatePlayerTotals sessions0).
Proof.
  intros N ss.
  assert (Hin : forall p, In p (map name (calculatePlayerTotals ss))
                          <-> seenIn ss p /\ JsObject.inherited p = false).
  { intros p. rewrite <- keys_playerTotalsOf_seen. split; apply Permutation_in;
      [|symmetry]; apply names_perm. }
  split; [|split; [exact Hin|]].
  - apply NoDup_Permutation;
      [apply names_NoDup|apply NoDup_filter; apply collectPlayers_NoDup|].
    intros p. rewrite Hin, filter_In, collectPlayers_In.
    unfold JsObject.notInherited. rewrite negb_true_iff. reflexivity.
  - apply Forall_forall. intros r Hr. apply output_record in Hr.
    apply (playerTotals_counted ss JsObject.empty) with (k := name r); [|exact Hr].
    intros k r'. discriminate.
Qed.



(** ** The points of the chart *)

Section PointFacts.
Context {N : Number}.
Import JsObject JsObjectFacts.




End PointFacts.



(** X15. When no player is named date, sessionName or round, every point
    after the start point bears the date and the name of the session whose
    round it records. *)
Theorem generateChartData_points_bear_their_session :
  forall (N : Number) (sessions0 : list SessionData) (i : nat) (session : SessionData)
         (changeIndex : nat) (current : ChartDataPoint),
    noFieldNames sessions0 ->
    nth_error (emissions sessions0) i = Some (session, changeIndex) ->
    nth_error (generateChartData sessions0) (S i) = Some current ->
    JsObject.get "date" current = Some (VString (date session))
    /\ JsObject.get "sessionName" current = Some (VString (sessionName session)).
Proof.
  intros N ss i s idx current Hno He Hcur.
  destruct (output_point _ _ _ Hcur) as (d & nm & rd & -> & s' & idx' & He' & -> & -> & ->).
  rewrite He in He'. injection He' as <- <-.
  pose proof (snapshots_good ss (S i)) as Hgood.
  destruct (goodTotals_fields _ _ Hno Hgood) as (H1 & H2 & H3).
  destruct (dataPoint_fields (date s) (sessionName s) (ofNat (idx + 1)) _
              (proj1 Hgood) H1 H2 H3) as (Hd & Hn & _).
  split; assumption.
Qed.

Lemma generateChartData_points_bear_their_session_witness :
  noFieldNames scenarioB
  /\ nth_error (emissions scenarioB) 2 = Some (scenarioBSecondDay, 0)
  /\ JsObject.get "date" (nth 3 (generateChartData scenarioB) [])
     = Some (VString (date (scenarioBSecondDay)))
  /\ JsObject.get "sessionName" (nth 3 (generateChartData scenarioB) [])
     = Some (VString (sessionName (scenarioBSecondDay))).
Proof.
  assert (Hno : noFieldNames scenarioB).
  { intros s k [<-|[<-|[]]] [<-|[<-|[]]]; repeat split; discriminate. }
  split; [exact Hno|]. split; [reflexivity|].
  exact (generateChartData_points_bear_their_session ExactNumber scenarioB 2
           (scenarioBSecondDay) 0
           (nth 3 (generateChartData scenarioB) []) Hno eq_refl eq_refl).
Defined.



(** ** The chart configuration *)

Section ConfigFacts.
Context {N : Number}.
Import JsObject JsObjectFacts.

Lemma DISTINCT_COLORS_rank (index : nat) :
  nth_error DISTINCT_COLORS (index mod List.length DISTINCT_COLORS)
  = Some (colorOfRank index).
Proof.
  unfold colorOfRank. apply nth_error_nth'.
  apply Nat.mod_upper_bound. discriminate.
Qed.

Lemma configStep_other (k : string) (totals : list PlayerTotal) :
  ~ In k (map name totals) ->
  forall index (config : JsObject.t ConfigEntry),
    get k (snd (fold_left configStep totals (index, config))) = get k config.
Proof.
  induction totals as [|x totals IH]; intros Hk index config; [reflexivity|].
  cbn [fold_left configStep]. rewrite IH; [|intros H; apply Hk; right; exact H].
  apply get_set_other. intros ->. apply Hk. left. reflexivity.
Qed.

(** The entry of the player ranked [i], the loop having started at [index]. *)
Lemma configStep_get (totals : list PlayerTotal) :
  NoDup (map name totals) ->
  forall index (config : JsObject.t ConfigEntry) i r,
    nth_error totals i = Some r ->
    get (name r) (snd (fold_left configStep totals (index, config)))
    = Some {| label := name r; color := Some (colorOfRank (index + i)) |}.
Proof.
  induction totals as [|x totals IH]; intros Hnd index config i r Hi;
    [destruct i; discriminate|].
  cbn [map] in Hnd. inversion Hnd as [|? ? Hx Hnd']; subst.
  cbn [fold_left configStep]. destruct i as [|i]; cbn [nth_error] in Hi.
  - injection Hi as <-. rewrite (configStep_other _ _ Hx), get_set_same.
    rewrite DISTINCT_COLORS_rank, Nat.add_0_r. reflexivity.
  - rewrite (IH Hnd' _ _ _ _ Hi).
    replace (S index + i) with (index + S i) by lia. reflexivity.
Qed.

Lemma configStep_keys (totals : list PlayerTotal) :
  forall index (config : JsObject.t ConfigEntry),
    (NoDup (keys config) ->
     NoDup (keys (snd (fold_left configStep totals (index, config)))))
    /\ forall k, In k (keys (snd (fold_left configStep totals (index, config))))
                 <-> In k (map name totals) \/ In k (keys config).
Proof.
  induction totals as [|x totals IH]; intros index config; cbn [fold_left configStep].
  - split; [auto|]. intros k. simpl. tauto.
  - destruct (IH (S index)
                (set (name x)
                   {| label := name x;
                      color := nth_error DISTINCT_COLORS
                                 (index mod List.length DISTINCT_COLORS) |} config))
      as [Hnd Hin].
    split.
    + intros H. apply Hnd. apply NoDup_keys_set. exact H.
    + intros k. rewrite Hin, In_keys_set. simpl. split.
      * intros [H|[->|H]]; auto.
      * intros [[<-|H]|H]; auto.
Qed.

Lemma chartConfigOf_keys (totals : list PlayerTotal) :
  NoDup (keys (chartConfigOf totals))
  /\ forall k, In k (keys (chartConfigOf totals))
               <-> k = "winnings" \/ In k (map name totals).
Proof.
  unfold chartConfigOf.
  destruct (configStep_keys totals 0
              (set "winnings" {| label := "Winnings"; color := None |} empty))
    as [Hnd Hin].
  split.
  - apply Hnd. apply NoDup_keys_set. constructor.
  - intros k. rewrite Hin. simpl. split.
    + intros [H|[<-|[]]]; auto.
    + intros [->|H]; auto.
Qed.

Lemma NoDup_map_injective {A B} (f : A -> B) (l : list A) :
  (forall x y, f x = f y -> x = y) -> NoDup l -> NoDup (map f l).
Proof.
  intros Hf. induction 1 as [|x l Hx _ IH]; simpl; constructor; [|exact IH].
  intros Hin. apply in_map_iff in Hin. destruct Hin as (y & E & Hy).
  apply Hf in E. subst y. exact (Hx Hy).
Qed.

End ConfigFacts.

(** ** The session history *)

Section HistoryFacts.
Context {N : Number} {OL : OrderLaws N}.

Lemma sortedTotals_descending (session : SessionData) :
  StronglySorted (fun a b => ltb (History.total a) (History.total b) = false)
                 (History.sortedTotals session).
Proof.
  unfold History.sortedTotals.
  apply (sort_sorted (fun a b => sub (History.total b) (History.total a))
                     (fun a b => ltb (History.total b) (History.total a))
                     (fun _ => True)).
  - intros x y _ _. apply sub_ltb.
  - intros x y. apply ltb_asym.
  - intros x y z Hxy Hyz. exact (ltb_trans _ _ _ Hyz Hxy).
  - apply Forall_forall. intros x _. exact I.
Qed.

(** No entry before another in the sorted totals has a smaller total. *)
Lemma sortedTotals_nth (session : SessionData) (i j : nat) (a b : History.Entry) :
  i <= j ->
  nth_error (History.sortedTotals session) i = Some a ->
  nth_error (History.sortedTotals session) j = Some b ->
  ltb (History.total a) (History.total b) = false.
Proof.
  intros Hij Ha Hb. destruct (Nat.eq_dec i j) as [->|Hne].
  - rewrite Ha in Hb. injection Hb as <-. apply ltb_irrefl.
  - apply (StronglySorted_nth _ _ (sortedTotals_descending session) i j);
      [lia|assumption..].
Qed.

End HistoryFacts.

(** X17. The chart draws exactly one line for every player of the
    leaderboard who is not named winnings, in the palette colour of the
    player's rank modulo the size of the palette; a player named winnings
    takes the place of the configuration's [winnings] entry and gets no
    line. *)
Theorem chartLines_one_line_per_player_but_winnings :
  forall (N : Number) (sessions0 : list SessionData) (player : string)
         (stroke : option string),
    NoDup (chartLines (chartConfigState sessions0))
    /\ (In (Some (player, stroke)) (chartLines (chartConfigState sessions0))
        <-> player <> "winnings"
            /\ exists i r,
                 nth_error (calculatePlayerTotals sessions0) i = Some r
                 /\ name r = player
                 /\ stroke = Some (colorOfRank i)).
Proof.
  intros N ss player stroke. destruct ss as [|first rest].
  { split; [constructor|]. split; [intros []|].
    intros (_ & i & r & Hi & _). destruct i; discriminate. }
  unfold chartConfigState. remember (first :: rest) as ss eqn:Ess. clear Ess.
  destruct (chartConfigOf_keys (calculatePlayerTotals ss)) as [Hnd Hkeys].
  assert (Hget : forall i r, nth_error (calculatePlayerTotals ss) i = Some r ->
            JsObject.get (name r) (chartConfigOf (calculatePlayerTotals ss))
            = Some {| label := name r; color := Some (colorOfRank i) |}).
  { intros i r Hi. unfold chartConfigOf.
    exact (configStep_get _ (names_NoDup ss) 0 _ i r Hi). }
  unfold chartLines. split.
  - apply NoDup_map_injective; [|exact Hnd].
    intros x y. destruct (String.eqb_spec x "winnings") as [->|Hx],
                         (String.eqb_spec y "winnings") as [->|Hy];
      try discriminate; [reflexivity|]. intros [= -> _]. reflexivity.
  - rewrite in_map_iff. split.
    + intros (k & E & Hk). destruct (String.eqb_spec k "winnings") as [Hw|Hne];
        [discriminate|]. injection E as <- <-. split; [exact Hne|].
      apply Hkeys in Hk. destruct Hk as [Hw|Hk]; [congruence|].
      apply in_map_iff in Hk. destruct Hk as (r & <- & Hr).
      apply In_nth_error in Hr. destruct Hr as [i Hi].
      exists i, r. rewrite (Hget i r Hi). repeat split. exact Hi.
    + intros (Hne & i & r & Hi & <- & ->). exists (name r). split.
      * apply String.eqb_neq in Hne. rewrite Hne, (Hget i r Hi). reflexivity.
      * apply Hkeys. right. apply in_map. exact (nth_error_In _ _ Hi).
Qed.

(** A player named winnings is on the leaderboard and has no line. *)
Example winnings_has_no_line :
  map name (calculatePlayerTotals winningsDay) = ["Alice"; "winnings"]
  /\ chartLines (chartConfigState winningsDay) = [None; Some ("Alice", Some "#3b82f6")].
Proof. split; reflexivity. Qed.

(** X18. Two players of the leaderboard are configured with the same
    colour exactly when their ranks differ by a multiple of ten, the size of
    the palette: up to ten players have pairwise distinct colours, and the
    colour is never undefined. *)
Theorem chartConfig_colors_repeat_every_ten :
  forall (N : Number) (sessions0 : list SessionData) (i j : nat) (ri rj : PlayerTotal),
    nth_error (calculatePlayerTotals sessions0) i = Some ri ->
    nth_error (calculatePlayerTotals sessions0) j = Some rj ->
    exists ci cj,
      JsObject.get (name ri) (chartConfigState sessions0)
      = Some {| label := name ri; color := Some ci |}
      /\ JsObject.get (name rj) (chartConfigState sessions0)
         = Some {| label := name rj; color := Some cj |}
      /\ In ci DISTINCT_COLORS
      /\ (ci = cj <-> i mod 10 = j mod 10).
Proof.
  intros N ss i j ri rj Hi Hj. exists (colorOfRank i), (colorOfRank j).
  assert (Hlen : forall k, k mod List.length DISTINCT_COLORS < List.length DISTINCT_COLORS).
  { intros k. apply Nat.mod_upper_bound. discriminate. }
  assert (Hstate : chartConfigState ss = chartConfigOf (calculatePlayerTotals ss)).
  { destruct ss; [destruct i; discriminate|reflexivity]. }
  rewrite Hstate. split; [|split; [|split]].
  - unfold chartConfigOf. exact (configStep_get _ (names_NoDup ss) 0 _ i ri Hi).
  - unfold chartConfigOf. exact (configStep_get _ (names_NoDup ss) 0 _ j rj Hj).
  - unfold colorOfRank. apply nth_In. apply Hlen.
  - change 10 with (List.length DISTINCT_COLORS). unfold colorOfRank. split.
    + apply NoDup_nth; [|apply Hlen..].
      apply JsObjectFacts.nodupb_spec. reflexivity.
    + intros ->. reflexivity.
Qed.

Lemma chartConfig_colors_repeat_every_ten_witness :
  nth_error (calculatePlayerTotals scenarioB) 0 = Some (exactRecord "Alice" 10 2 "2025-01-02")
  /\ nth_error (calculatePlayerTotals scenarioB) 1
     = Some (exactRecord "Bob" (-10) 2 "2025-01-02")
  /\ exists ci cj,
       JsObject.get "Alice" (chartConfigState scenarioB)
       = Some {| label := "Alice"; color := Some ci |}
       /\ JsObject.get "Bob" (chartConfigState scenarioB)
          = Some {| label := "Bob"; color := Some cj |}
       /\ In ci DISTINCT_COLORS
       /\ (ci = cj <-> 0 mod 10 = 1 mod 10).
Proof.
  split; [reflexivity|]. split; [reflexivity|].
  exact (chartConfig_colors_repeat_every_ten ExactNumber scenarioB 0 1
           (exactRecord "Alice" 10 2 "2025-01-02")
           (exactRecord "Bob" (-10) 2 "2025-01-02") eq_refl eq_refl).
Defined.

(** X19. In the session history, where [<] is a strict order that the
    comparator [b - a] follows, and the comparator answers NaN for no two
    session totals (none is NaN or infinite), the top player of a session is
    a player of that session whose session total no other player's exceeds,
    and the bottom player one whose session total is below no other
    player's; both are undefined exactly for a session without players. *)
Theorem sessionHistory_top_and_bottom :
  forall (N : Number), OrderLaws N ->
  forall session : SessionData,
    neverNaN (fun a b => sub (History.total b) (History.total a))
             (History.perPlayerTotals session) ->
    match History.topPlayer session, History.bottomPlayer session with
    | Some top, Some bottom => bestAndWorst session top bottom
    | None, None => JsObject.keys (results session) = []
    | _, _ => False
    end.
Proof.
  intros N OL session _.
  pose proof (sort_perm (fun a b => sub (History.total b) (History.total a))
                        (History.perPlayerTotals session)) as P.
  fold (History.sortedTotals session) in P.
  unfold History.topPlayer, History.bottomPlayer.
  destruct (History.sortedTotals session) as [|first rest] eqn:E.
  - (* no player *)
    apply Permutation_nil in P. unfold History.perPlayerTotals in P.
    apply map_eq_nil in P. unfold JsObject.keys, JsObject.entries in *.
    rewrite P. reflexivity.
  - cbn [nth_error List.length].
    destruct (nth_error (first :: rest) (List.length rest)) as [bottom|] eqn:Eb.
    2:{ apply nth_error_None in Eb. simpl in Eb. lia. }
    assert (Hin : forall e, In e (first :: rest) -> In e (History.perPlayerTotals session)).
    { intros e He. exact (Permutation_in _ P He). }
    split; [apply Hin; left; reflexivity|].
    split; [apply Hin; exact (nth_error_In _ _ Eb)|].
    intros playerName changes Hpc.
    assert (He : In (History.Build_Entry playerName (sessionTotalOf changes))
                    (first :: rest)).
    { apply (Permutation_in _ (Permutation_sym P)). unfold History.perPlayerTotals.
      apply in_map_iff. exists (playerName, changes). split; [reflexivity|exact Hpc]. }
    apply In_nth_error in He. destruct He as [k Hk].
    assert (Hlt : k < List.length (first :: rest)) by (apply nth_error_Some; congruence).
    rewrite <- E in Hk, Eb.
    assert (Hfirst : nth_error (History.sortedTotals session) 0 = Some first)
      by (rewrite E; reflexivity).
    assert (Hk_last : k <= List.length rest) by (simpl in Hlt; lia).
    split.
    + exact (sortedTotals_nth session 0 k first
               (History.Build_Entry playerName (sessionTotalOf changes))
               (Nat.le_0_l k) Hfirst Hk).
    + exact (sortedTotals_nth session k (List.length rest)
               (History.Build_Entry playerName (sessionTotalOf changes)) bottom
               Hk_last Hk Eb).
Qed.

Lemma sessionHistory_top_and_bottom_witness :
  OrderLaws FloatNumber
  /\ neverNaN (fun a b => sub (History.total b) (History.total a))
              (History.perPlayerTotals scenarioBSecondDayFloat)
  /\ match History.topPlayer scenarioBSecondDayFloat, History.bottomPlayer scenarioBSecondDayFloat with
     | Some top, Some bottom => bestAndWorst scenarioBSecondDayFloat top bottom
     | None, None => JsObject.keys (results scenarioBSecondDayFloat) = []
     | _, _ => False
     end.
Proof.
  assert (Hnan : neverNaN (fun a b => sub (History.total b) (History.total a))
                          (History.perPlayerTotals scenarioBSecondDayFloat)).
  { intros a b Ha Hb. vm_compute in Ha, Hb.
    destruct Ha as [<-|[<-|[]]], Hb as [<-|[<-|[]]];
      intros H; apply (f_equal PrimFloat.is_nan) in H; vm_compute in H;
      discriminate H. }
  split; [exact FloatNumber_order|]. split; [exact Hnan|].
  exact (sessionHistory_top_and_bottom FloatNumber FloatNumber_order scenarioBSecondDayFloat
           Hnan).
Defined.

(** X20. The lines and the data of the chart fit together: every line the
    chart draws finds a number under its data key in every chart point, and
    every player seen in some session who is named neither winnings nor as a
    property that objects inherit from [Object.prototype] has a line. *)
Theorem chartLines_fit_chartData :
  forall (N : Number) (sessions0 : list SessionData) (player : string),
    (forall stroke point,
       In (Some (player, stroke)) (chartLines (chartConfigState sessions0)) ->
       In point (generateChartData sessions0) ->
       exists v, JsObject.get player point = Some (VNumber v))
    /\ (seenIn sessions0 player -> JsObject.inherited player = false ->
        player <> "winnings" ->
        exists stroke,
          In (Some (player, stroke)) (chartLines (chartConfigState sessions0))).
Proof.
  intros N ss player.
  assert (Hnames : forall k, In k (map name (calculatePlayerTotals ss))
                             <-> seenIn ss k /\ JsObject.inherited k = false).
  { intros k. rewrite <- keys_playerTotalsOf_seen. split; apply Permutation_in;
      [|symmetry]; apply names_perm. }
  destruct ss as [|first rest].
  { split; [intros stroke point []|]. intros (s & [] & _). }
  unfold chartConfigState. remember (first :: rest) as ss eqn:Ess. clear Ess.
  destruct (chartConfigOf_keys (calculatePlayerTotals ss)) as [_ Hkeys].
  unfold chartLines. split.
  - intros stroke point Hline Hpoint. apply in_map_iff in Hline.
    destruct Hline as (k & E & Hk).
    destruct (String.eqb_spec k "winnings") as [Hw|Hne]; [discriminate|].
    injection E as <- _.
    apply Hkeys in Hk. destruct Hk as [Hw|Hk]; [congruence|].
    apply Hnames in Hk. destruct Hk as [Hk _].
    apply In_nth_error in Hpoint. destruct Hpoint as [i Hi].
    destruct (output_point _ _ _ Hi) as (d & nm & rd & -> & _).
    destruct (goodTotals_get ss _ k (snapshots_good ss i) Hk) as [v Hv].
    exists v. apply dataPoint_player; [apply (snapshots_good ss i)|exact Hv].
  - intros Hseen Hown Hne. eexists. apply in_map_iff. exists player. split.
    + apply String.eqb_neq in Hne. rewrite Hne. reflexivity.
    + apply Hkeys. right. apply Hnames. split; assumption.
Qed.

(** X21. For every list of sessions and every player appearing in some
    session whose name is not one that objects inherit from
    [Object.prototype], the output of [calculatePlayerTotals] has exactly
    one record for the player; its total is the sum, over the sessions
    containing the player, of the sums of the player's delta sequences; its
    session count is the number of sessions in which the player has an
    entry; and its last session is the greatest, by string comparison, of
    the identifiers of those sessions. *)
Theorem calculatePlayerTotals_postcondition :
  forall (N : Number) (sessions0 : list SessionData) (player : string),
    Forall distinctKeys sessions0 ->
    seenIn sessions0 player ->
    JsObject.inherited player = false ->
    exists r,
      In r (calculatePlayerTotals sessions0)
      /\ name r = player
      /\ (forall r', In r' (calculatePlayerTotals sessions0) -> name r' = player -> r' = r)
      /\ total r = expectedTotal player sessions0
      /\ sessions r = expectedSessions player sessions0
      /\ isLastSession (lastSession r) player sessions0.
Proof.
  intros N ss player Hwf Hseen Hown.
  destruct (record_of_player ss player Hwf Hown Hseen) as (s & rest & Es & G).
  eexists. split; [exact G|]. cbn [name total sessions lastSession].
  split; [reflexivity|]. split; [|split; [reflexivity|split; [reflexivity|]]].
  - intros r' Hr' Hname. exact (output_record_unique ss _ r' G Hr' Hname).
  - unfold isLastSession. rewrite Es. cbn [map].
    apply StringOrder.latest_max.
Qed.

Lemma calculatePlayerTotals_postcondition_witness :
  Forall distinctKeys scenarioB
  /\ seenIn scenarioB "Alice"
  /\ JsObject.inherited "Alice" = false
  /\ exists r,
       In r (calculatePlayerTotals scenarioB)
       /\ name r = "Alice"
       /\ (forall r', In r' (calculatePlayerTotals scenarioB) -> name r' = "Alice" -> r' = r)
       /\ total r = expectedTotal "Alice" scenarioB
       /\ sessions r = expectedSessions "Alice" scenarioB
       /\ isLastSession (lastSession r) "Alice" scenarioB.
Proof.
  assert (Hwf : Forall distinctKeys scenarioB).
  { constructor; [|constructor; [|constructor]]; apply normalize_distinctKeys. }
  assert (Hseen : seenIn scenarioB "Alice").
  { eexists. split; [left; reflexivity|reflexivity]. }
  split; [exact Hwf|]. split; [exact Hseen|]. split; [reflexivity|].
  exact (calculatePlayerTotals_postcondition ExactNumber scenarioB "Alice" Hwf Hseen eq_refl).
Defined.

(** X22. For every table as wide as its header and every name of the header
    but [__proto__], [j] being the last column that bears the name (in
    particular when several columns do): the normalised session's [results]
    has exactly one entry for the name, whose delta sequence has one entry
    per row, the value of the row at column [j]; its [players] list is the
    header unchanged, one occurrence per column; and when the name is not one
    that objects inherit from [Object.prototype], [calculatePlayerTotals],
    on any list of sessions that holds this one, counts it once for the
    player: the player's record counts the sessions before, this one and the
    sessions after, and its total adds the sum of column [j], and no other
    column of this table, between the sessions before and those after. *)
Theorem normalize_keeps_last_duplicate :
  forall (N : Number) (sessionName0 : string) (players0 : list string)
         (table : list (list num)) (j : nat) (player : string)
         (before after : list SessionData),
    rectangular players0 table ->
    nth_error players0 j = Some player ->
    (forall j', j < j' -> nth_error players0 j' <> Some player) ->
    player <> "__proto__" ->
    Forall distinctKeys (before ++ after) ->
    let session := normalize sessionName0 players0 table in
    count_occ string_dec (JsObject.keys (results session)) player = 1
    /\ players session = players0
    /\ exists deltas,
         JsObject.get player (results session) = Some deltas
         /\ List.length deltas = List.length table
         /\ (forall r row, nth_error table r = Some row ->
               exists v, nth_error row j = Some v /\ nth_error deltas r = Some v)
         /\ (JsObject.inherited player = false ->
             exists r,
               In r (calculatePlayerTotals (before ++ session :: after))
               /\ name r = player
               /\ (forall r', In r' (calculatePlayerTotals (before ++ session :: after)) ->
                     name r' = player -> r' = r)
               /\ sessions r
                  = expectedSessions player before + 1 + expectedSessions player after
               /\ total r
                  = fold_left (fun acc s => add acc (sumOf (deltasOf player s)))
                              (sessionsOf player after)
                              (add (expectedTotal player before) (sumOf deltas))).
Proof.
  intros N sessionName0 players0 table j player before after Hrect Hj Hlast _ Hwf session.
  assert (Hget : JsObject.get player (results session) = Some (column j table)).
  { cbn [session results normalize]. rewrite fillResults_get.
    rewrite (lastIndexOf_last _ _ _ Hj Hlast). reflexivity. }
  pose proof (normalize_distinctKeys sessionName0 players0 table) as Hnd.
  fold session in Hnd.
  split; [|split; [reflexivity|]].
  { apply NoDup_count_occ'; [exact Hnd|].
    apply JsObjectFacts.has_spec. unfold JsObject.has. rewrite Hget. reflexivity. }
  exists (column j table). split; [exact Hget|]. split; [apply column_length|]. split.
  - intros r row Hr.
    assert (Hlen : j < List.length row).
    { unfold rectangular in Hrect. rewrite Forall_forall in Hrect.
      rewrite (Hrect row (nth_error_In _ _ Hr)). apply nth_error_Some. congruence. }
    destruct (nth_error row j) as [v|] eqn:Hv.
    + exists v. split; [reflexivity|]. exact (column_nth _ _ _ _ _ Hr Hv).
    + apply nth_error_None in Hv. lia.
  - intros Hown.
    assert (Happ : appearsIn player session = true).
    { unfold appearsIn, JsObject.has. rewrite Hget. reflexivity. }
    assert (Hd : deltasOf player session = column j table).
    { unfold deltasOf. rewrite Hget. reflexivity. }
    assert (Hss : Forall distinctKeys (before ++ session :: after)).
    { apply Forall_app in Hwf. destruct Hwf as [Hb Ha].
      apply Forall_app. split; [exact Hb|constructor; assumption]. }
    assert (Hseen : seenIn (before ++ session :: after) player).
    { exists session. split; [apply in_elt|exact Happ]. }
    destruct (record_of_player _ player Hss Hown Hseen) as (s & rest & Es & G).
    eexists. split; [exact G|]. cbn [name total sessions lastSession].
    split; [reflexivity|]. split; [|split].
    + intros r' Hr' Hname. exact (output_record_unique _ _ r' G Hr' Hname).
    + unfold expectedSessions, sessionsOf. rewrite filter_app, length_app.
      cbn [filter]. rewrite Happ. cbn [List.length]. lia.
    + unfold expectedTotal, sessionsOf. rewrite filter_app, fold_left_app.
      cbn [filter]. rewrite Happ. cbn [fold_left]. rewrite Hd. reflexivity.
Qed.

Lemma normalize_keeps_last_duplicate_witness :
  rectangular (N := ExactNumber) twiceAlice twiceAliceTable
  /\ nth_error twiceAlice 2 = Some "Alice"
  /\ (forall j', 2 < j' -> nth_error twiceAlice j' <> Some "Alice")
  /\ "Alice" <> "__proto__"
  /\ Forall distinctKeys (scenarioB ++ [])
  /\ count_occ string_dec twiceAlice "Alice" = 2
  /\ let session := normalize (N := ExactNumber) "2025-01-03" twiceAlice twiceAliceTable in
     count_occ string_dec (JsObject.keys (results session)) "Alice" = 1
     /\ players session = twiceAlice
     /\ exists deltas,
          JsObject.get "Alice" (results session) = Some deltas
          /\ List.length deltas = List.length twiceAliceTable
          /\ (forall r row, nth_error twiceAliceTable r = Some row ->
                exists v, nth_error row 2 = Some v /\ nth_error deltas r = Some v)
          /\ (JsObject.inherited "Alice" = false ->
              exists r,
                In r (calculatePlayerTotals (scenarioB ++ session :: []))
                /\ name r = "Alice"
                /\ (forall r', In r' (calculatePlayerTotals (scenarioB ++ session :: [])) ->
                      name r' = "Alice" -> r' = r)
                /\ sessions r
                   = expectedSessions "Alice" scenarioB + 1
                     + expectedSessions (N := ExactNumber) "Alice" []
                /\ total r
                   = fold_left (fun acc s => add acc (sumOf (deltasOf "Alice" s)))
                               (sessionsOf (N := ExactNumber) "Alice" [])
                               (add (expectedTotal "Alice" scenarioB) (sumOf deltas))).
Proof.
  assert (Hrect : rectangular (N := ExactNumber) twiceAlice twiceAliceTable).
  { repeat constructor. }
  assert (Hlast : forall j', 2 < j' -> nth_error twiceAlice j' <> Some "Alice").
  { intros [|[|[|[|j']]]] H; try lia; discriminate. }
  assert (Hproto : "Alice" <> "__proto__") by discriminate.
  assert (Hwf : Forall distinctKeys (scenarioB ++ [])).
  { constructor; [|constructor; [|constructor]]; apply normalize_distinctKeys. }
  split; [exact Hrect|]. split; [reflexivity|]. split; [exact Hlast|].
  split; [exact Hproto|]. split; [exact Hwf|]. split; [reflexivity|].
  exact (normalize_keeps_last_duplicate ExactNumber "2025-01-03" twiceAlice
           twiceAliceTable 2 "Alice" scenarioB [] Hrect eq_refl Hlast Hproto Hwf).
Defined.
